(** * Bulk editor: filter evaluator, value transformer, change planner,
      batch executor and reversal path

    Shallow embedding of the engine of the bulk-edit wizard (the route
    with [evaluateFilter], [calcValue], [changes] and the [execute] /
    [revert] intents) and of the product-update webhook (its own
    [evaluateFilter], [matchValue], [calcValue]), then of the rest of
    the wizard route (its loader, the filter rows, the selection, the
    live preview and the impact summary) and of the webhook
    ([applyModifications] and the handler of the automations).

    JavaScript strings are [string]s of 8-bit characters, JavaScript
    numbers are IEEE-754 binary64 values ([spec_float] at precision 53,
    maximal exponent 1024), [null] and [undefined] are [None]. *)

From Stdlib Require Import ZArith List String Ascii Bool Lia.
From Stdlib Require Import Floats.SpecFloat.
Import ListNotations.

Local Open Scope string_scope.
Local Open Scope Z_scope.

(** ** Strings as the engine uses them *)

Module JsString.

(** [toLowerCase] on the ASCII letters; other code units are kept. *)
Definition lower_ascii (c : ascii) : ascii :=
  let n := nat_of_ascii c in
  if (Nat.leb 65 n && Nat.leb n 90)%bool then ascii_of_nat (n + 32) else c.

Fixpoint toLowerCase (s : string) : string :=
  match s with
  | EmptyString => EmptyString
  | String c r => String (lower_ascii c) (toLowerCase r)
  end.

(** White space removed by [trim] and skipped by [parseFloat]:
    TAB, LF, VT, FF, CR and SPACE. *)
Definition is_space (c : ascii) : bool :=
  let n := nat_of_ascii c in
  (Nat.leb 9 n && Nat.leb n 13 || Nat.eqb n 32)%bool.

Fixpoint trimStart (s : string) : string :=
  match s with
  | EmptyString => EmptyString
  | String c r => if is_space c then trimStart r else s
  end.

(** [trimEnd]: a character is dropped when it is a space and only
    spaces follow it. *)
Fixpoint trimEnd (s : string) : string :=
  match s with
  | EmptyString => EmptyString
  | String c r =>
      match trimEnd r with
      | EmptyString => if is_space c then EmptyString else String c EmptyString
      | r' => String c r'
      end
  end.

Definition trim (s : string) : string := trimEnd (trimStart s).

Definition startsWith (s p : string) : bool := String.prefix p s.

(** [s.includes(p)]: [p] occurs in [s] as a substring. *)
Fixpoint includes (s p : string) : bool :=
  String.prefix p s ||
  match s with
  | EmptyString => false
  | String _ r => includes r p
  end.

Fixpoint endsWith (s p : string) : bool :=
  String.eqb s p ||
  match s with
  | EmptyString => false
  | String _ r => endsWith r p
  end.

(** [s.split(sep)] for a non-empty separator: [tok] is the token
    being read, [skip] counts the separator characters still to be
    passed over after a match. *)
Fixpoint split_go (sep : string) (s : string) (skip : nat) (tok : string)
  : list string :=
  match s with
  | EmptyString => [tok]
  | String c r =>
      match skip with
      | S k => split_go sep r k tok
      | O =>
          if String.prefix sep s
          then tok :: split_go sep r (pred (String.length sep)) EmptyString
          else split_go sep r O (tok ++ String c EmptyString)
      end
  end.

Fixpoint chars (s : string) : list string :=
  match s with
  | EmptyString => []
  | String c r => String c EmptyString :: chars r
  end.

(** [s.split(sep)]; the empty separator splits into code units. *)
Definition split (s sep : string) : list string :=
  match sep with
  | EmptyString => chars s
  | _ => split_go sep s O EmptyString
  end.

Definition join (sep : string) (l : list string) : string :=
  String.concat sep l.

(** [Boolean(s)] for a string: the empty string is falsy. *)
Definition truthy (s : string) : bool :=
  match s with EmptyString => false | _ => true end.

(** Elements in first-insertion order, as [[...new Set(l)]]. *)
Fixpoint dedup_go (seen : list string) (l : list string) : list string :=
  match l with
  | [] => []
  | x :: r =>
      if existsb (String.eqb x) seen then dedup_go seen r
      else x :: dedup_go (x :: seen) r
  end.

Definition dedup (l : list string) : list string := dedup_go [] l.

(** [a.includes(x)] on an array of strings. *)
Definition mem (x : string) (l : list string) : bool :=
  existsb (String.eqb x) l.

(** [s || d] where [s] may be [null]/[undefined]. *)
Definition or_default (s : option string) (d : string) : string :=
  match s with
  | Some x => if truthy x then x else d
  | None => d
  end.

(** [!s] where [s] may be [null]/[undefined]. *)
Definition falsy (s : option string) : bool :=
  match s with
  | Some x => negb (truthy x)
  | None => true
  end.

End JsString.

Import JsString.

(** ** Numbers: IEEE-754 binary64 *)

Module JsNumber.

Definition number := spec_float.
Definition prec : Z := 53.
Definition emax : Z := 1024.

Definition NaN : number := S754_nan.
Definition zero : number := S754_zero false.

Definition isNaN (x : number) : bool :=
  match x with S754_nan => true | _ => false end.

(** The double nearest to an integer. *)
Definition of_Z (n : Z) : number := binary_normalize prec emax n 0 false.

(** The double nearest to [m * 10^e] for [0 <= m]: the conversion
    of a decimal literal. *)
Definition of_decimal (neg : bool) (m e : Z) : number :=
  if m <=? 0 then S754_zero neg
  else if 0 <=? e then
    binary_normalize prec emax (cond_Zopp neg (m * 10 ^ e)) 0 false
  else
    let '(q, e', l) := SFdiv_core_binary prec emax m 0 (10 ^ (- e)) 0 in
    binary_round_aux prec emax neg q e' l.

Definition add : number -> number -> number := SFadd prec emax.
Definition sub : number -> number -> number := SFsub prec emax.
Definition mul : number -> number -> number := SFmul prec emax.
Definition div : number -> number -> number := SFdiv prec emax.

(** [x === y], [x < y] and [x <= y] on numbers. *)
Definition eqb : number -> number -> bool := SFeqb.
Definition ltb : number -> number -> bool := SFltb.
Definition leb : number -> number -> bool := SFleb.

(** *** [parseFloat] *)

Definition is_digit (c : ascii) : bool :=
  let n := nat_of_ascii c in (Nat.leb 48 n && Nat.leb n 57)%bool.

Definition digit_val (c : ascii) : Z := Z.of_nat (nat_of_ascii c) - 48.

(** Reads the leading decimal digits of [s] on top of the value
    [acc]; returns the value, the number of digits read and the rest. *)
Fixpoint read_digits (s : string) (acc cnt : Z) : Z * Z * string :=
  match s with
  | String c r =>
      if is_digit c then read_digits r (10 * acc + digit_val c) (cnt + 1)
      else (acc, cnt, s)
  | EmptyString => (acc, cnt, s)
  end.

Definition read_sign (s : string) : bool * string :=
  match s with
  | String "-" r => (true, r)
  | String "+" r => (false, r)
  | _ => (false, s)
  end.

(** An exponent part [e], [E] with an optional sign counts only
    when at least one digit follows. *)
Definition read_exponent (s : string) : Z :=
  match s with
  | String c r =>
      if (Ascii.eqb c "e" || Ascii.eqb c "E")%bool then
        let '(neg, r') := read_sign r in
        let '(v, cnt, _) := read_digits r' 0 0 in
        if cnt =? 0 then 0 else cond_Zopp neg v
      else 0
  | EmptyString => 0
  end.

(** [parseFloat(s)]: the longest prefix of the trimmed string that
    is a decimal literal; [NaN] when there is none. *)
Definition parseFloat (s : string) : number :=
  let '(neg, s1) := read_sign (trimStart s) in
  if String.prefix "Infinity" s1 then S754_infinity neg
  else
    let '(ip, n1, s2) := read_digits s1 0 0 in
    let '(m, n2, s3) :=
      match s2 with
      | String "." r => read_digits r ip 0
      | _ => (ip, 0, s2)
      end in
    if n1 + n2 =? 0 then NaN
    else of_decimal neg m (read_exponent s3 - n2).

(** [parseFloat(v)] where [v] may be [undefined]. *)
Definition parseFloat_opt (v : option string) : number :=
  match v with
  | Some s => parseFloat s
  | None => NaN
  end.

(** *** [Math.floor], [Math.round], [Math.max] *)

Definition Math_floor (x : number) : number :=
  match x with
  | S754_finite s m e =>
      if 0 <=? e then x else of_Z (cond_Zopp s (Zpos m) / 2 ^ (- e))
  | _ => x
  end.

(** Nearest integer, ties towards +Infinity; a zero result keeps the
    sign of the argument. *)
Definition Math_round (x : number) : number :=
  match x with
  | S754_finite s m e =>
      if 0 <=? e then x
      else
        let n := (2 * cond_Zopp s (Zpos m) + 2 ^ (- e)) / (2 * 2 ^ (- e)) in
        if n =? 0 then S754_zero s else of_Z n
  | _ => x
  end.

Definition is_neg_zero (x : number) : bool :=
  match x with S754_zero true => true | _ => false end.

(** [Math.max(a, b)]: [NaN] if either is; [+0] is larger than [-0]. *)
Definition Math_max (a b : number) : number :=
  match SFcompare a b with
  | None => NaN
  | Some Lt => b
  | Some Gt => a
  | Some Eq => if is_neg_zero a then b else a
  end.

(** [x % 1 === 0]: [x] is finite and integral. *)
Definition rem1_is_zero (x : number) : bool :=
  match x with
  | S754_zero _ => true
  | S754_finite _ m e => if 0 <=? e then true else Zpos m mod 2 ^ (- e) =? 0
  | _ => false
  end.

(** *** Decimal digits *)

Definition digit_char (d : Z) : ascii :=
  match d with
  | 1 => "1" | 2 => "2" | 3 => "3" | 4 => "4" | 5 => "5"
  | 6 => "6" | 7 => "7" | 8 => "8" | 9 => "9" | _ => "0"
  end%char.

(** The digits of [n] put in front of [acc]; [q] and [r] are the
    quotient and the remainder of [n] by ten. *)
Fixpoint digits_go (fuel : nat) (n : Z) (acc : string) : string :=
  match fuel with
  | O => acc
  | S f =>
      let '(q, r) := Z.div_eucl n 10 in
      let acc' := String (digit_char r) acc in
      if q =? 0 then acc' else digits_go f q acc'
  end.

(** Decimal representation of [n] for [0 <= n]; ["0"] for zero. *)
Definition digits_of_Z (n : Z) : string :=
  digits_go (S (Z.to_nat (Z.log2 n))) n EmptyString.

Fixpoint zeros (k : nat) : string :=
  match k with O => EmptyString | S j => String "0" (zeros j) end.

(** *** [Number.prototype.toFixed] *)

(** [10^21 <= m * 2^e]. *)
Definition ge_1e21 (m : positive) (e : Z) : bool :=
  if 0 <=? e then 10 ^ 21 <=? Z.shiftl (Zpos m) e
  else Z.shiftl (10 ^ 21) (- e) <=? Zpos m.

(** The integer [n] with [n / 10^fd] nearest to [m * 2^e], the larger
    one on a tie: [floor (m * 2^e * 10^fd + 1/2)]. *)
Definition scaled_round (m : positive) (e : Z) (fd : nat) : Z :=
  let p := 10 ^ Z.of_nat fd in
  if 0 <=? e then Z.shiftl (Zpos m) e * p
  else Z.shiftr (2 * (Zpos m * p) + Z.shiftl 1 (- e)) (- e + 1).

(** The first [k] characters of [s] and the rest. *)
Definition split_at (k : nat) (s : string) : string * string :=
  (String.substring 0 k s, String.substring k (String.length s - k) s).

(** The digits of [n] with a point before the last [fd] of them,
    padded with zeros to at least one integer digit. *)
Definition fixed_digits (n : Z) (fd : nat) : string :=
  let ds := digits_of_Z n in
  let ds := zeros (S fd - String.length ds) ++ ds in
  match fd with
  | O => ds
  | _ =>
      let '(a, b) := split_at (String.length ds - fd) ds in
      a ++ "." ++ b
  end.

(** *** [Number::toString], radix 10 *)

Definition same (x y : number) : bool :=
  match x, y with
  | S754_zero a, S754_zero b => Bool.eqb a b
  | S754_infinity a, S754_infinity b => Bool.eqb a b
  | S754_nan, S754_nan => true
  | S754_finite a m e, S754_finite b m' e' =>
      (Bool.eqb a b && Pos.eqb m m' && Z.eqb e e')%bool
  | _, _ => false
  end.

(** [num / den < 10^n]. *)
Definition lt_pow10 (num den n : Z) : bool :=
  if 0 <=? n then num <? den * 10 ^ n else num * 10 ^ (- n) <? den.

Fixpoint find_exp10 (fuel : nat) (num den n : Z) : Z :=
  match fuel with
  | O => n
  | S f => if lt_pow10 num den n then n else find_exp10 f num den (n + 1)
  end.

(** The [n] with [10^(n-1) <= m * 2^e < 10^n]. *)
Definition exp10 (m : positive) (e : Z) : Z :=
  let num := if 0 <=? e then Zpos m * 2 ^ e else Zpos m in
  let den := if 0 <=? e then 1 else 2 ^ (- e) in
  find_exp10 8 num den ((Z.log2 (Zpos m) + e) * 30102 / 100000 - 1).

(** For [k] digits: the candidates [s] next below and next above
    [x / 10^(n-k)], kept when [s * 10^(n-k)] converts back to [x]; the
    nearer one wins, the even one on a tie. *)
Definition shortest_k (x : number) (m : positive) (e n : Z) (k : Z)
  : option (Z * Z) :=
  let num := if 0 <=? e then Zpos m * 2 ^ e else Zpos m in
  let den := if 0 <=? e then 1 else 2 ^ (- e) in
  let sc := n - k in
  let tn := if 0 <=? sc then num else num * 10 ^ (- sc) in
  let td := if 0 <=? sc then den * 10 ^ sc else den in
  let lo := tn / td in
  let hi := lo + 1 in
  let ok_lo := ((10 ^ (k - 1) <=? lo) && same (of_decimal false lo sc) x)%bool in
  let '(hi', n') := if hi =? 10 ^ k then (10 ^ (k - 1), n + 1) else (hi, n) in
  let ok_hi := same (of_decimal false hi' (n' - k)) x in
  let d_lo := 2 * (tn - lo * td) in
  let lo_wins := ((d_lo <? td) || ((d_lo =? td) && Z.even lo))%bool in
  match ok_lo, ok_hi with
  | true, true => if lo_wins then Some (lo, n) else Some (hi', n')
  | true, false => Some (lo, n)
  | false, true => Some (hi', n')
  | false, false => None
  end.

Fixpoint shortest_go (fuel : nat) (x : number) (m : positive) (e n k : Z)
  : Z * Z * Z :=
  match fuel with
  | O => (Zpos m, 0, 0)
  | S f =>
      match shortest_k x m e n k with
      | Some (s, n') => (s, n', k)
      | None => shortest_go f x m e n (k + 1)
      end
  end.

(** The digits [s], the position [n] of the point and the digit
    count [k] of the shortest decimal that reads back as [x]. *)
Definition shortest (x : number) (m : positive) (e : Z) : Z * Z * Z :=
  shortest_go 17 x m e (exp10 m e) 1.

Definition render (s n k : Z) : string :=
  let ds := digits_of_Z s in
  if ((k <=? n) && (n <=? 21))%bool then ds ++ zeros (Z.to_nat (n - k))
  else if ((0 <? n) && (n <=? 21))%bool then
    let '(a, b) := split_at (Z.to_nat n) ds in a ++ "." ++ b
  else if ((-6 <? n) && (n <=? 0))%bool then
    "0." ++ zeros (Z.to_nat (- n)) ++ ds
  else
    let ex := (if n - 1 <? 0 then "e-" else "e+") ++ digits_of_Z (Z.abs (n - 1)) in
    match ds with
    | String d EmptyString => String d ex
    | String d r => String d ("." ++ r ++ ex)
    | EmptyString => ex
    end.

(** [String(x)] for a number. *)
Definition toString (x : number) : string :=
  match x with
  | S754_nan => "NaN"
  | S754_zero _ => "0"
  | S754_infinity s => if s then "-Infinity" else "Infinity"
  | S754_finite sg m e =>
      let '(s, n, k) := shortest (S754_finite false m e) m e in
      (if sg then "-" else "") ++ render s n k
  end.

(** [x.toFixed(fd)]. *)
Definition toFixed (x : number) (fd : nat) : string :=
  match x with
  | S754_finite sg m e =>
      (if sg then "-" else "") ++
      (if ge_1e21 m e then toString (S754_finite false m e)
       else fixed_digits (scaled_round m e fd) fd)
  | S754_zero _ => fixed_digits 0 fd
  | _ => toString x
  end.

End JsNumber.

Import JsNumber.

Local Open Scope string_scope.

(** ** Data model *)

(** A property value read off a product or a variant with [obj[key]];
    [JUndefined] stands for [undefined] and [null], [JObject] for an
    object or an array. *)
Inductive jsval :=
| JUndefined
| JString (s : string)
| JNumber (x : number)
| JObject.

Definition js_truthy (v : jsval) : bool :=
  match v with
  | JUndefined => false
  | JString s => truthy s
  | JNumber x =>
      match x with S754_zero _ | S754_nan => false | _ => true end
  | JObject => true
  end.

(** [String(v)]. *)
Definition js_string (v : jsval) : string :=
  match v with
  | JUndefined => "undefined"
  | JString s => s
  | JNumber x => toString x
  | JObject => "[object Object]"
  end.

(** [v || d]. *)
Definition js_or (v d : jsval) : jsval := if js_truthy v then v else d.

Definition of_opt (o : option string) : jsval :=
  match o with Some s => JString s | None => JUndefined end.

(** A variant node as the product queries return it; the weight is
    [inventoryItem.measurement.weight.value]. *)
Record Variant := {
  variant_id : string;
  variant_title : option string;
  price : option string;
  compareAtPrice : option string;
  sku : option string;
  barcode : option string;
  inventoryQuantity : option number;
  weight : option number
}.

(** A product node; [variants] are the nodes of [variants.edges]. *)
Record Product := {
  product_id : string;
  title : option string;
  handle : option string;
  status : option string;
  productType : option string;
  vendor : option string;
  tags : option (list string);
  templateSuffix : option string;
  featuredMedia : bool;
  variants : list Variant
}.

(** The string-valued own properties of a product. *)
Definition product_text (p : Product) (f : string) : option string :=
  if f =? "id" then Some (product_id p)
  else if f =? "title" then title p
  else if f =? "handle" then handle p
  else if f =? "status" then status p
  else if f =? "productType" then productType p
  else if f =? "vendor" then vendor p
  else if f =? "templateSuffix" then templateSuffix p
  else None.

(** [product[f]] for the own data properties of a product node. Both
    evaluators read the tags on a path of their own, never through
    [product[f]]. *)
Definition product_prop (p : Product) (f : string) : jsval :=
  if f =? "variants" then JObject
  else if f =? "tags" then match tags p with Some _ => JObject | None => JUndefined end
  else if f =? "featuredMedia" then if featuredMedia p then JObject else JUndefined
  else of_opt (product_text p f).

(** [variant[f]] for the own data properties of a variant node. *)
Definition variant_prop (v : Variant) (f : string) : jsval :=
  if f =? "id" then JString (variant_id v)
  else if f =? "title" then of_opt (variant_title v)
  else if f =? "price" then of_opt (price v)
  else if f =? "compareAtPrice" then of_opt (compareAtPrice v)
  else if f =? "sku" then of_opt (sku v)
  else if f =? "barcode" then of_opt (barcode v)
  else if f =? "inventoryQuantity" then
    match inventoryQuantity v with Some n => JNumber n | None => JUndefined end
  else if f =? "inventoryItem" then
    match weight v with Some _ => JObject | None => JUndefined end
  else JUndefined.

(** A filter rule [{ field, operator, value, value2 }]. *)
Record Rule := {
  rule_field : string;
  rule_operator : string;
  rule_value : option string;
  rule_value2 : option string
}.

(** A modification [{ field, type, value, value2, rounding }]. *)
Record Mod := {
  mod_field : string;
  mod_type : string;
  mod_value : string;
  mod_value2 : option string;
  mod_rounding : option string
}.

Inductive Category := numeric | text | tagsCat | select.
Inductive Level := productLevel | variantLevel.

(** An entry of [EDITABLE_FIELDS]. *)
Record FieldDef := {
  fd_value : string;
  category : Category;
  level : Level;
  accessor : option (Variant -> option string)
}.

(** A planned change, as [changes] builds it and the [execute] and
    [revert] intents receive it. *)
Record Change := {
  productId : string;
  productTitle : option string;
  variantId : option string;
  variantTitle : option string;
  field : string;
  oldValue : string;
  newValue : string;
  modificationType : string
}.

Definition getFieldDefIn (table : list FieldDef) (f : string) : option FieldDef :=
  find (fun e => fd_value e =? f) table.

Definition is_empty_string (v : jsval) : bool :=
  match v with JString EmptyString => true | _ => false end.

(** [o?.f] on an optional node. *)
Definition opt_bind {A B} (o : option A) (f : A -> option B) : option B :=
  match o with Some a => f a | None => None end.

(** ** The bulk-edit wizard *)

Module Wizard.

Definition EDITABLE_FIELDS : list FieldDef :=
  [ Build_FieldDef "price" numeric variantLevel (Some price);
    Build_FieldDef "compareAtPrice" numeric variantLevel (Some compareAtPrice);
    Build_FieldDef "sku" text variantLevel
      (Some (fun v => Some (or_default (sku v) "")));
    Build_FieldDef "barcode" text variantLevel
      (Some (fun v => Some (or_default (barcode v) "")));
    Build_FieldDef "weight" numeric variantLevel
      (Some (fun v => match weight v with
                      | Some w => Some (toString w)
                      | None => Some "0"
                      end));
    Build_FieldDef "title" text productLevel None;
    Build_FieldDef "vendor" text productLevel None;
    Build_FieldDef "productType" text productLevel None;
    Build_FieldDef "tags" tagsCat productLevel None;
    Build_FieldDef "status" select productLevel None;
    Build_FieldDef "templateSuffix" text productLevel None ].

Definition NUMERIC_CHANGE_TYPES : list string :=
  ["exact"; "increase_percent"; "decrease_percent"; "increase_fixed";
   "decrease_fixed"].

Definition getFieldDef (f : string) : option FieldDef :=
  getFieldDefIn EDITABLE_FIELDS f.

(** The first [switch] of [evaluateFilter]: the value a rule on
    field [f] tests. The variant-level cases read
    [product.variants.edges[0].node]. *)
Definition filter_value (product : Product) (f : string) : jsval :=
  let node := hd_error (variants product) in
  if f =? "price" then
    JString (or_default (opt_bind node price) "")
  else if f =? "compareAtPrice" then
    JString (or_default (opt_bind node compareAtPrice) "")
  else if f =? "inventoryQuantity" then
    JString (match opt_bind node inventoryQuantity with
             | Some n => toString n
             | None => ""
             end)
  else if f =? "sku" then
    JString (or_default (opt_bind node sku) "")
  else if f =? "weight" then
    JString (match opt_bind node weight with
             | Some w => toString w
             | None => "0"
             end)
  else if f =? "templateSuffix" then
    JString (or_default (templateSuffix product) "")
  else if f =? "variantTitle" then
    JString (join ", " (map (fun e => or_default (variant_title e) "")
                            (variants product)))
  else if f =? "tags" then
    JString (join ", " (match tags product with Some l => l | None => [] end))
  else js_or (product_prop product f) (JString "").

(** The second [switch] of [evaluateFilter], on [rule.operator]. *)
Definition filter_switch (value : jsval) (rule : Rule) : bool :=
  let f := rule_field rule in
  let v := toLowerCase (js_string value) in
  let rv := toLowerCase (or_default (rule_value rule) "") in
  let rv2 := toLowerCase (or_default (rule_value2 rule) "") in
  let op := rule_operator rule in
  let counted :=
    ((f =? "price") || (f =? "compareAtPrice") || (f =? "inventoryQuantity"))%bool in
  let x := parseFloat (js_string value) in
  let y := parseFloat_opt (rule_value rule) in
  if op =? "contains" then includes v rv
  else if op =? "not_contains" then negb (includes v rv)
  else if op =? "equals" then
    if counted then JsNumber.eqb x y else v =? rv
  else if op =? "not_equals" then
    if counted then negb (JsNumber.eqb x y) else negb (v =? rv)
  else if op =? "starts_with" then startsWith v rv
  else if op =? "ends_with" then endsWith v rv
  else if op =? "is_empty" then
    (negb (js_truthy value) || is_empty_string value)%bool
  else if op =? "is_not_empty" then
    (js_truthy value && negb (is_empty_string value))%bool
  else if op =? "greater_than" then JsNumber.ltb y x
  else if op =? "less_than" then JsNumber.ltb x y
  else if op =? "greater_or_equal" then JsNumber.leb y x
  else if op =? "less_or_equal" then JsNumber.leb x y
  else if op =? "between" then
    (JsNumber.leb y x && JsNumber.leb x (parseFloat rv2))%bool
  else true.

(** [evaluateFilter(product, rule)] of the wizard. *)
Definition evaluateFilter (product : Product) (rule : Rule) : bool :=
  filter_switch (filter_value product (rule_field rule)) rule.

(** The products kept by the filter rules: every rule must hold. *)
Definition filtered (products : list Product) (filterRules : list Rule)
  : list Product :=
  filter (fun p => forallb (evaluateFilter p) filterRules) products.

Definition hundred : number := of_Z 100.
Definition one : number := of_Z 1.

(** The arithmetic [switch (mod.type)] of [calcValue]. *)
Definition arith (ty : string) (c v : number) : number :=
  if ty =? "exact" then v
  else if ty =? "increase_percent" then mul c (add one (div v hundred))
  else if ty =? "decrease_percent" then mul c (sub one (div v hundred))
  else if ty =? "increase_fixed" then add c v
  else if ty =? "decrease_fixed" then sub c v
  else c.

Definition priceFields : list string := ["price"; "compareAtPrice"; "cost"].

(** The rounding step applied to price fields. *)
Definition rounded (rounding : option string) (r : number) : number :=
  match rounding with
  | Some m =>
      if m =? "99" then add (Math_floor r) (parseFloat "0.99")
      else if m =? "95" then add (Math_floor r) (parseFloat "0.95")
      else if m =? "whole" then Math_round r
      else r
  | None => r
  end.

Definition split_tags (s : string) : list string :=
  filter truthy (map trim (split s ",")).

(** [calcValue(current, mod)]; [None] is [null]. *)
Definition calcValue (current : option string) (m : Mod) : option string :=
  match getFieldDef (mod_field m) with
  | None => None
  | Some fieldDef =>
      match category fieldDef with
      | numeric =>
          let c := parseFloat (or_default current "0") in
          let v := parseFloat (mod_value m) in
          if isNaN v then None
          else
            let r := arith (mod_type m) c v in
            if mem (mod_field m) priceFields then
              Some (toFixed (Math_max zero (rounded (mod_rounding m) r)) 2)
            else
              let r := Math_max zero r in
              Some (if rem1_is_zero r then toString r
                    else toString (parseFloat (toFixed r 4)))
      | text =>
          let cur := or_default current "" in
          let ty := mod_type m in
          if ty =? "set" then Some (mod_value m)
          else if ty =? "prepend" then Some (mod_value m ++ cur)
          else if ty =? "append" then Some (cur ++ mod_value m)
          else if ty =? "find_replace" then
            Some (join (or_default (mod_value2 m) "") (split cur (mod_value m)))
          else Some cur
      | tagsCat =>
          let curTags := split_tags (or_default current "") in
          let ty := mod_type m in
          if ty =? "add" then
            let newTags := split_tags (mod_value m) in
            Some (join ", " (dedup (curTags ++ newTags)))
          else if ty =? "remove" then
            let removeTags :=
              map (fun t => toLowerCase (trim t)) (split (mod_value m) ",") in
            Some (join ", "
                    (filter (fun t => negb (mem (toLowerCase t) removeTags))
                            curTags))
          else if ty =? "set" then Some (mod_value m)
          else current
      | select => Some (mod_value m)
      end
  end.

(** *** The change planner *)

Definition is_numeric (c : Category) : bool :=
  match c with numeric => true | _ => false end.

Definition current_of (product : Product) (f : string) : string :=
  if f =? "tags"
  then join ", " (match tags product with Some l => l | None => [] end)
  else or_default (product_text product f) "".

Definition read_variant (fieldDef : FieldDef) (variant : Variant) : option string :=
  match accessor fieldDef with
  | Some a => a variant
  | None => Some ""
  end.

(** The body of the product-level branch of the [changes] loop. *)
Definition product_change (product : Product) (m : Mod) : list Change :=
  let cur := current_of product (mod_field m) in
  match calcValue (Some cur) m with
  | None => []
  | Some nv =>
      if nv =? cur then []
      else [ {| productId := product_id product;
                productTitle := title product;
                variantId := None;
                variantTitle := None;
                field := mod_field m;
                oldValue := cur;
                newValue := nv;
                modificationType := mod_type m |} ]
  end.

(** The body of the loop over [product.variants.edges] in [changes]. *)
Definition variant_change (fieldDef : FieldDef) (product : Product) (m : Mod)
           (variant : Variant) : list Change :=
  let cur := read_variant fieldDef variant in
  let num := is_numeric (category fieldDef) in
  if (falsy cur && negb (mod_type m =? "exact") && negb (mod_type m =? "set")
      && num)%bool
  then []
  else
    let cur0 := or_default cur (if num then "0" else "") in
    match calcValue (Some cur0) m with
    | None => []
    | Some nv =>
        let same_value :=
          if num
          then JsNumber.eqb (parseFloat (or_default cur "0")) (parseFloat nv)
          else or_default cur "" =? nv in
        if same_value then []
        else [ {| productId := product_id product;
                  productTitle := title product;
                  variantId := Some (variant_id variant);
                  variantTitle := variant_title variant;
                  field := mod_field m;
                  oldValue := cur0;
                  newValue := nv;
                  modificationType := mod_type m |} ]
    end.

Definition mod_changes (product : Product) (m : Mod) : list Change :=
  match getFieldDef (mod_field m) with
  | None => []
  | Some fieldDef =>
      match level fieldDef with
      | productLevel => product_change product m
      | variantLevel =>
          flat_map (variant_change fieldDef product m) (variants product)
      end
  end.

(** [changes]: empty unless the wizard is at step 3; otherwise the
    loop over the selected products, the modifications and the variants. *)
Definition changes (step : Z) (selected : list Product) (modifications : list Mod)
  : list Change :=
  if (step =? 3)%Z
  then flat_map (fun product => flat_map (mod_changes product) modifications)
                selected
  else [].

(** The list [confirmExecute] builds afresh and submits: the same
    loop, whose variant branch has no test on a blank current value. *)
Definition submitted_variant_change (fieldDef : FieldDef) (product : Product)
           (m : Mod) (variant : Variant) : list Change :=
  let cur := read_variant fieldDef variant in
  let num := is_numeric (category fieldDef) in
  let cur0 := or_default cur (if num then "0" else "") in
  match calcValue (Some cur0) m with
  | None => []
  | Some nv =>
      let same_value :=
        if num
        then JsNumber.eqb (parseFloat (or_default cur "0")) (parseFloat nv)
        else or_default cur "" =? nv in
      if same_value then []
      else [ {| productId := product_id product;
                productTitle := title product;
                variantId := Some (variant_id variant);
                variantTitle := variant_title variant;
                field := mod_field m;
                oldValue := cur0;
                newValue := nv;
                modificationType := mod_type m |} ]
  end.

Definition changesToSubmit (selected : list Product) (modifications : list Mod)
  : list Change :=
  flat_map
    (fun product =>
       flat_map
         (fun m =>
            match getFieldDef (mod_field m) with
            | None => []
            | Some fieldDef =>
                match level fieldDef with
                | productLevel => product_change product m
                | variantLevel =>
                    flat_map (submitted_variant_change fieldDef product m)
                             (variants product)
                end
            end)
         modifications)
    selected.

End Wizard.

(** ** The product-update webhook *)

Module Webhook.

Definition EDITABLE_FIELDS : list FieldDef :=
  [ Build_FieldDef "price" numeric variantLevel (Some price);
    Build_FieldDef "compareAtPrice" numeric variantLevel (Some compareAtPrice);
    Build_FieldDef "sku" text variantLevel
      (Some (fun v => Some (or_default (sku v) "")));
    Build_FieldDef "barcode" text variantLevel
      (Some (fun v => Some (or_default (barcode v) "")));
    Build_FieldDef "title" text productLevel None;
    Build_FieldDef "vendor" text productLevel None;
    Build_FieldDef "productType" text productLevel None;
    Build_FieldDef "tags" tagsCat productLevel None;
    Build_FieldDef "status" select productLevel None ].

Definition getFieldDef (f : string) : option FieldDef :=
  getFieldDefIn EDITABLE_FIELDS f.

(** [matchValue(value, rule)]. *)
Definition matchValue (value : string) (rule : Rule) : bool :=
  let v := toLowerCase value in
  let rv := toLowerCase (or_default (rule_value rule) "") in
  let rv2 := toLowerCase (or_default (rule_value2 rule) "") in
  let op := rule_operator rule in
  let counted :=
    mem (rule_field rule) ["price"; "compareAtPrice"; "inventoryQuantity"] in
  let x := parseFloat value in
  let y := parseFloat_opt (rule_value rule) in
  if op =? "contains" then includes v rv
  else if op =? "not_contains" then negb (includes v rv)
  else if op =? "equals" then
    if counted then JsNumber.eqb x y else v =? rv
  else if op =? "not_equals" then
    if counted then negb (JsNumber.eqb x y) else negb (v =? rv)
  else if op =? "starts_with" then startsWith v rv
  else if op =? "ends_with" then endsWith v rv
  else if op =? "is_empty" then negb (truthy value)
  else if op =? "is_not_empty" then truthy value
  else if op =? "greater_than" then JsNumber.ltb y x
  else if op =? "less_than" then JsNumber.ltb x y
  else if op =? "greater_or_equal" then JsNumber.leb y x
  else if op =? "less_or_equal" then JsNumber.leb x y
  else if op =? "between" then
    (JsNumber.leb y x && JsNumber.leb x (parseFloat rv2))%bool
  else true.

Definition variant_fields : list string :=
  ["price"; "compareAtPrice"; "sku"; "barcode"; "inventoryQuantity"].

(** [evaluateFilter(product, rule)] of the webhook: the variant-level
    fields are tested on every variant with [some]. *)
Definition evaluateFilter (product : Product) (rule : Rule) : bool :=
  if mem (rule_field rule) variant_fields then
    existsb
      (fun v =>
         matchValue
           (js_string (js_or (variant_prop v (rule_field rule)) (JString "")))
           rule)
      (variants product)
  else
    let value :=
      if rule_field rule =? "tags"
      then JString (join ", " (match tags product with Some l => l | None => [] end))
      else js_or (product_prop product (rule_field rule)) (JString "") in
    matchValue (js_string value) rule.

Definition hundred : number := of_Z 100.
Definition one : number := of_Z 1.

Definition arith (ty : string) (c v : number) : number :=
  if ty =? "exact" then v
  else if ty =? "increase_percent" then mul c (add one (div v hundred))
  else if ty =? "decrease_percent" then mul c (sub one (div v hundred))
  else if ty =? "increase_fixed" then add c v
  else if ty =? "decrease_fixed" then sub c v
  else c.

Definition rounded (rounding : option string) (r : number) : number :=
  match rounding with
  | Some m =>
      if m =? "99" then add (Math_floor r) (parseFloat "0.99")
      else if m =? "95" then add (Math_floor r) (parseFloat "0.95")
      else if m =? "whole" then Math_round r
      else r
  | None => r
  end.

Definition split_tags (s : string) : list string :=
  filter truthy (map trim (split s ",")).

(** [calcValue(current, mod)] of the webhook. *)
Definition calcValue (current : option string) (m : Mod) : option string :=
  match getFieldDef (mod_field m) with
  | None => None
  | Some fieldDef =>
      match category fieldDef with
      | numeric =>
          let c := parseFloat (or_default current "0") in
          let v := parseFloat (mod_value m) in
          if isNaN v then None
          else
            let r := arith (mod_type m) c v in
            Some (toFixed (Math_max zero (rounded (mod_rounding m) r)) 2)
      | text =>
          let cur := or_default current "" in
          let ty := mod_type m in
          if ty =? "set" then Some (mod_value m)
          else if ty =? "prepend" then Some (mod_value m ++ cur)
          else if ty =? "append" then Some (cur ++ mod_value m)
          else if ty =? "find_replace" then
            Some (join (or_default (mod_value2 m) "") (split cur (mod_value m)))
          else Some cur
      | tagsCat =>
          let curTags := split_tags (or_default current "") in
          let newTags := split_tags (mod_value m) in
          let ty := mod_type m in
          if ty =? "add" then Some (join ", " (dedup (curTags ++ newTags)))
          else if ty =? "remove" then
            Some (join ", " (filter (fun t => negb (mem t newTags)) curTags))
          else if ty =? "set" then Some (join ", " newTags)
          else current
      | select =>
          if mod_type m =? "set" then Some (mod_value m) else None
      end
  end.

End Webhook.

(** ** The [execute] and [revert] intents *)

(** The input of a [productUpdate] mutation, without its [id]. *)
Record ProductInput := {
  in_title : option string;
  in_vendor : option string;
  in_productType : option string;
  in_status : option string;
  in_tags : option (list string);
  in_templateSuffix : option string
}.

(** One entry of the [variants] argument of [productVariantsBulkUpdate];
    [vi_weight] is [inventoryItem.measurement.weight.value]. *)
Record VariantInput := {
  vi_id : option string;
  vi_price : option string;
  vi_compareAtPrice : option string;
  vi_sku : option string;
  vi_barcode : option string;
  vi_weight : option number
}.

(** A mutation sent with [admin.graphql]. *)
Inductive Request :=
| ProductUpdate (pid : string) (input : ProductInput)
| VariantsBulkUpdate (pid : string) (vs : list VariantInput).

(** What comes back: the messages of [userErrors], or an exception
    with its [message]. *)
Inductive Response :=
| Replied (userErrors : list string)
| Threw (message : option string).

(** A row of the audit table [priceHistory]. *)
Record HistoryRecord := {
  h_productId : string;
  h_variantId : option string;
  h_productTitle : option string;
  h_variantTitle : option string;
  h_oldPrice : string;
  h_newPrice : string;
  h_changeType : string;
  h_changeSource : string
}.

(** A row of the table [bulkEdit]. *)
Record BulkEditRow := {
  be_name : string;
  be_status : string;
  be_productCount : nat;
  be_changes : list Change
}.

(** The row of [shopPlan] for the shop. *)
Record ShopPlan := {
  plan : option string;
  monthlyEdits : Z
}.

(** Everything the two intents can observe or modify: the three
    tables and the mutations sent to the catalog so far, those that
    threw included. *)
Record World := {
  shopPlan : option ShopPlan;
  priceHistory : list HistoryRecord;
  bulkEdit : list BulkEditRow;
  mutations : list Request
}.

(** An entry of the [errors] array of the report. *)
Record ErrorEntry := {
  err_product : option string;
  err_messages : list string
}.

(** The names every plain object inherits from [Object.prototype]:
    [obj[name]] finds a function there (for [__proto__] the prototype
    itself) although [obj] has no such key of its own. *)
Definition inherited_names : list string :=
  ["constructor"; "__defineGetter__"; "__defineSetter__"; "hasOwnProperty";
   "__lookupGetter__"; "__lookupSetter__"; "isPrototypeOf";
   "propertyIsEnumerable"; "toString"; "valueOf"; "__proto__";
   "toLocaleString"].

(** The values of [editsLimit] and [editsRemaining]: a number,
    [Infinity], or [NoNumber], which is the inherited member that
    [PLAN_LIMITS[plan]] finds for a plan named like one, and the [NaN]
    that arithmetic makes of it. *)
Inductive Limit := Finite (n : Z) | Infinity | NoNumber.

Inductive Result :=
| LimitReached (currentPlan : string) (edits : Z) (editsLimit : Limit)
| Executed (successCount errorCount : nat) (errors : list ErrorEntry)
           (totalProducts : nat)
| Reverted (successCount errorCount : nat).

Module Executor.

Local Open Scope list_scope.

(** [PLAN_LIMITS[plan] || 3]: the lookup on the object literal also
    finds what the literal inherits, which is truthy. *)
Definition editsLimitOf (plan : string) : Limit :=
  if plan =? "free" then Finite 3
  else if plan =? "pro" then Finite 50
  else if plan =? "plus" then Infinity
  else if mem plan inherited_names then NoNumber
  else Finite 3.

(** [editsLimit !== Infinity && monthlyEdits >= editsLimit]; a
    comparison with what is no number is false. *)
Definition limit_reached (l : Limit) (edits : Z) : bool :=
  match l with
  | Infinity => false
  | Finite n => (n <=? edits)%Z
  | NoNumber => false
  end.

(** The row [prisma.shopPlan.create] makes from the column defaults. *)
Definition default_plan : ShopPlan := {| plan := Some "free"; monthlyEdits := 0 |}.

(** *** Keys of the objects used as maps *)

Fixpoint digits_only (k : string) : bool :=
  match k with
  | EmptyString => true
  | String c r => (is_digit c && digits_only r)%bool
  end.

(** A non-empty string of decimal digits: among these are the array
    indices, which an object lists first and in ascending order
    whatever the order they were added in. *)
Definition index_like (k : string) : bool :=
  match k with
  | EmptyString => false
  | _ => digits_only k
  end.

(** A key that a plain object keeps as its own and lists in
    insertion order: catalog ids, of the form [gid://shopify/...],
    are such keys. *)
Definition plain_key (k : string) : bool :=
  (negb (index_like k) && negb (mem k inherited_names))%bool.

(** The variant id of a change as a key: [null] is the key ["null"],
    so a plain id is [null] or a plain key other than that text. *)
Definition plain_variant (i : option string) : bool :=
  match i with
  | Some k => (plain_key k && negb (k =? "null"))%bool
  | None => true
  end.


(** *** Grouping by product: the object [changesByProduct], a map
    from product id to the changes pushed under it, as the list of
    its entries.  This is the object for plain keys: it keeps them in
    insertion order and finds under a key only what was pushed under
    it.  It is not the object for an array index, which
    [Object.entries] lists before the other keys, nor for an inherited
    name, under which the lookup finds the inherited member and the
    [push] throws outside the [try] of the loop.  What is stated of
    the order or of the entries below assumes [plain_change]. *)
Fixpoint push_change (c : Change) (groups : list (string * list Change))
  : list (string * list Change) :=
  match groups with
  | [] => [(productId c, [c])]
  | (k, cs) :: r =>
      if k =? productId c then (k, cs ++ [c]) :: r
      else (k, cs) :: push_change c r
  end.

Definition changesByProduct (changes : list Change) : list (string * list Change) :=
  fold_left (fun g c => push_change c g) changes [].

Definition execute_product_fields : list string :=
  ["title"; "vendor"; "productType"; "status"; "tags"; "templateSuffix"].

Definition execute_variant_fields : list string :=
  ["price"; "compareAtPrice"; "sku"; "barcode"; "weight"; "taxable"].

Definition empty_input : ProductInput :=
  {| in_title := None; in_vendor := None; in_productType := None;
     in_status := None; in_tags := None; in_templateSuffix := None |}.

(** [s.split(",").map(t => t.trim()).filter(Boolean)]. *)
Definition tag_list (s : string) : list string :=
  filter truthy (map trim (split s ",")).

(** One step of the loop that fills [productInput] from [newValue]. *)
Definition set_product_field (inp : ProductInput) (f v : string) : ProductInput :=
  if f =? "title" then
    {| in_title := Some v; in_vendor := in_vendor inp;
       in_productType := in_productType inp; in_status := in_status inp;
       in_tags := in_tags inp; in_templateSuffix := in_templateSuffix inp |}
  else if f =? "vendor" then
    {| in_title := in_title inp; in_vendor := Some v;
       in_productType := in_productType inp; in_status := in_status inp;
       in_tags := in_tags inp; in_templateSuffix := in_templateSuffix inp |}
  else if f =? "productType" then
    {| in_title := in_title inp; in_vendor := in_vendor inp;
       in_productType := Some v; in_status := in_status inp;
       in_tags := in_tags inp; in_templateSuffix := in_templateSuffix inp |}
  else if f =? "status" then
    {| in_title := in_title inp; in_vendor := in_vendor inp;
       in_productType := in_productType inp; in_status := Some v;
       in_tags := in_tags inp; in_templateSuffix := in_templateSuffix inp |}
  else if f =? "tags" then
    {| in_title := in_title inp; in_vendor := in_vendor inp;
       in_productType := in_productType inp; in_status := in_status inp;
       in_tags := Some (tag_list v); in_templateSuffix := in_templateSuffix inp |}
  else if f =? "templateSuffix" then
    {| in_title := in_title inp; in_vendor := in_vendor inp;
       in_productType := in_productType inp; in_status := in_status inp;
       in_tags := in_tags inp; in_templateSuffix := Some v |}
  else inp.

Definition productInput (productLevelChanges : list Change) : ProductInput :=
  fold_left (fun inp c => set_product_field inp (field c) (newValue c))
            productLevelChanges empty_input.

Definition new_variant (i : option string) : VariantInput :=
  {| vi_id := i; vi_price := None; vi_compareAtPrice := None; vi_sku := None;
     vi_barcode := None; vi_weight := None |}.

(** One step of the loop that fills an entry of [variantMap]. *)
Definition set_variant_field (v : VariantInput) (f x : string) : VariantInput :=
  if f =? "price" then
    {| vi_id := vi_id v; vi_price := Some x;
       vi_compareAtPrice := vi_compareAtPrice v; vi_sku := vi_sku v;
       vi_barcode := vi_barcode v; vi_weight := vi_weight v |}
  else if f =? "compareAtPrice" then
    {| vi_id := vi_id v; vi_price := vi_price v;
       vi_compareAtPrice := Some x; vi_sku := vi_sku v;
       vi_barcode := vi_barcode v; vi_weight := vi_weight v |}
  else if f =? "sku" then
    {| vi_id := vi_id v; vi_price := vi_price v;
       vi_compareAtPrice := vi_compareAtPrice v; vi_sku := Some x;
       vi_barcode := vi_barcode v; vi_weight := vi_weight v |}
  else if f =? "barcode" then
    {| vi_id := vi_id v; vi_price := vi_price v;
       vi_compareAtPrice := vi_compareAtPrice v; vi_sku := vi_sku v;
       vi_barcode := Some x; vi_weight := vi_weight v |}
  else if f =? "weight" then
    {| vi_id := vi_id v; vi_price := vi_price v;
       vi_compareAtPrice := vi_compareAtPrice v; vi_sku := vi_sku v;
       vi_barcode := vi_barcode v; vi_weight := Some (parseFloat x) |}
  else v.

Definition same_id (a b : option string) : bool :=
  match a, b with
  | Some x, Some y => x =? y
  | None, None => true
  | _, _ => false
  end.

(** [variantMap]: the object keyed by variant id, as the list of its
    values; as for [changesByProduct], this is the object for plain
    ids ([plain_variant]): under an inherited name the code makes no
    entry and writes the field on the inherited member, and [null]
    and the text ["null"] are one key. *)
Fixpoint put_variant (c : Change) (m : list VariantInput) : list VariantInput :=
  match m with
  | [] => [set_variant_field (new_variant (variantId c)) (field c) (newValue c)]
  | v :: r =>
      if same_id (vi_id v) (variantId c)
      then set_variant_field v (field c) (newValue c) :: r
      else v :: put_variant c r
  end.

Definition variantMap (variantLevelChanges : list Change) : list VariantInput :=
  fold_left (fun m c => put_variant c m) variantLevelChanges [].

(** The record pushed for a product-level change (its [variantId] is
    [change.variantId || productId]) and for a variant-level one. *)
Definition product_history (pid : string) (c : Change) : HistoryRecord :=
  {| h_productId := productId c;
     h_variantId := Some (or_default (variantId c) pid);
     h_productTitle := productTitle c;
     h_variantTitle := if falsy (variantTitle c) then None else variantTitle c;
     h_oldPrice := oldValue c;
     h_newPrice := newValue c;
     h_changeType := field c;
     h_changeSource := "bulk_edit" |}.

Definition variant_history (c : Change) : HistoryRecord :=
  {| h_productId := productId c;
     h_variantId := variantId c;
     h_productTitle := productTitle c;
     h_variantTitle := if falsy (variantTitle c) then None else variantTitle c;
     h_oldPrice := oldValue c;
     h_newPrice := newValue c;
     h_changeType := field c;
     h_changeSource := "bulk_edit" |}.

(** The mutable locals of the [execute] loop, and the mutations
    already sent. *)
Record Acc := {
  successCount : nat;
  errorCount : nat;
  errors : list ErrorEntry;
  historyRecords : list HistoryRecord;
  sent : list Request
}.

(** Statements of a [try] block: they update the locals and either
    complete or throw; the locals survive a throw. *)
Definition Try (A : Type) : Type := Acc -> Acc * (A + option string).

Definition ret {A} (a : A) : Try A := fun acc => (acc, inl a).

Definition bind {A B} (c : Try A) (k : A -> Try B) : Try B :=
  fun acc =>
    match c acc with
    | (acc', inl a) => k a acc'
    | (acc', inr e) => (acc', inr e)
    end.

Definition update (f : Acc -> Acc) : Try unit := fun acc => (f acc, inl tt).

(** [try { body } catch (err) { handler(err) }]. *)
Definition try_catch (body : Try unit) (handler : option string -> Acc -> Acc)
  : Acc -> Acc :=
  fun acc =>
    match body acc with
    | (acc', inl _) => acc'
    | (acc', inr e) => handler e acc'
    end.

Notation "x <- c ;; k" := (bind c (fun x => k))
  (at level 61, c at next level, right associativity).
Notation "c ;;; k" := (bind c (fun _ => k))
  (at level 61, right associativity).

Definition add_success (n : nat) (hs : list HistoryRecord) (a : Acc) : Acc :=
  {| successCount := successCount a + n; errorCount := errorCount a;
     errors := errors a; historyRecords := historyRecords a ++ hs;
     sent := sent a |}.

Definition add_errors (n : nat) (e : ErrorEntry) (a : Acc) : Acc :=
  {| successCount := successCount a; errorCount := errorCount a + n;
     errors := errors a ++ [e]; historyRecords := historyRecords a;
     sent := sent a |}.

Definition add_error_count (n : nat) (a : Acc) : Acc :=
  {| successCount := successCount a; errorCount := errorCount a + n;
     errors := errors a; historyRecords := historyRecords a;
     sent := sent a |}.

Definition first_title (productChanges : list Change) : option string :=
  opt_bind (hd_error productChanges) productTitle.

Section Catalog.

(** The external catalog: its answer to each mutation. Within one
    run every mutation carries its own product id, so an answer
    per mutation describes any run. *)
Variable catalog : Request -> Response.

(** [await admin.graphql(...)] followed by reading [userErrors]. *)
Definition graphql (q : Request) : Try (list string) :=
  fun acc =>
    let acc' := {| successCount := successCount acc;
                   errorCount := errorCount acc;
                   errors := errors acc;
                   historyRecords := historyRecords acc;
                   sent := sent acc ++ [q] |} in
    match catalog q with
    | Replied userErrors => (acc', inl userErrors)
    | Threw msg => (acc', inr msg)
    end.

(** One mutation of the [execute] loop and its bookkeeping: [cs]
    are the changes it carries, [records] their audit records. *)
Definition apply_request (q : Request) (productChanges cs : list Change)
           (records : list HistoryRecord) : Try unit :=
  userErrors <- graphql q ;;
  match userErrors with
  | _ :: _ =>
      update (add_errors (List.length cs)
                {| err_product := first_title productChanges;
                   err_messages := userErrors |})
  | [] => update (add_success (List.length cs) records)
  end.

(** The body of the loop over [Object.entries(changesByProduct)]. *)
Definition execute_product (acc : Acc) (entry : string * list Change) : Acc :=
  let '(pid, productChanges) := entry in
  let productLevelChanges :=
    filter (fun c => mem (field c) execute_product_fields) productChanges in
  let variantLevelChanges :=
    filter (fun c => mem (field c) execute_variant_fields) productChanges in
  try_catch
    ((match productLevelChanges with
      | [] => ret tt
      | _ => apply_request (ProductUpdate pid (productInput productLevelChanges))
                           productChanges productLevelChanges
                           (map (product_history pid) productLevelChanges)
      end) ;;;
     (match variantLevelChanges with
      | [] => ret tt
      | _ => apply_request (VariantsBulkUpdate pid (variantMap variantLevelChanges))
                           productChanges variantLevelChanges
                           (map variant_history variantLevelChanges)
      end))
    (fun err =>
       add_errors (List.length productChanges)
         {| err_product := first_title productChanges;
            err_messages := [match err with
                             | Some msg => if truthy msg then msg else "Unknown error"
                             | None => "Unknown error"
                             end] |})
    acc.

Definition empty_acc : Acc :=
  {| successCount := 0; errorCount := 0; errors := [];
     historyRecords := []; sent := [] |}.

Definition execute_loop (changes : list Change) : Acc :=
  fold_left execute_product (changesByProduct changes) empty_acc.

(** The [execute] intent. *)
Definition execute (w : World) (changes : list Change) (editName : option string)
  : World * Result :=
  let row := match shopPlan w with Some sp => sp | None => default_plan end in
  let planName := or_default (plan row) "free" in
  let editsLimit := editsLimitOf planName in
  if limit_reached editsLimit (monthlyEdits row) then
    ({| shopPlan := Some row; priceHistory := priceHistory w;
        bulkEdit := bulkEdit w; mutations := mutations w |},
     LimitReached planName (monthlyEdits row) editsLimit)
  else
    let acc := execute_loop changes in
    ({| shopPlan := Some {| plan := plan row;
                            monthlyEdits := monthlyEdits row + 1 |};
        priceHistory := priceHistory w ++ historyRecords acc;
        bulkEdit := bulkEdit w ++
          [ {| be_name := or_default editName "Bulk Edit";
               be_status := if Nat.eqb (errorCount acc) 0 then "completed" else "partial";
               be_productCount := successCount acc;
               be_changes := firstn 50 changes |} ];
        mutations := mutations w ++ sent acc |},
     Executed (successCount acc) (errorCount acc) (errors acc)
              (List.length (changesByProduct changes))).

(** *** The [revert] intent *)

Definition revert_product_fields : list string :=
  ["title"; "vendor"; "productType"; "status"; "tags"].

(** One step of the loop that fills [productInput] from [oldValue]. *)
Definition revert_product_field (inp : ProductInput) (f v : string) : ProductInput :=
  if f =? "title" then
    {| in_title := Some v; in_vendor := in_vendor inp;
       in_productType := in_productType inp; in_status := in_status inp;
       in_tags := in_tags inp; in_templateSuffix := in_templateSuffix inp |}
  else if f =? "vendor" then
    {| in_title := in_title inp; in_vendor := Some v;
       in_productType := in_productType inp; in_status := in_status inp;
       in_tags := in_tags inp; in_templateSuffix := in_templateSuffix inp |}
  else if f =? "productType" then
    {| in_title := in_title inp; in_vendor := in_vendor inp;
       in_productType := Some v; in_status := in_status inp;
       in_tags := in_tags inp; in_templateSuffix := in_templateSuffix inp |}
  else if f =? "status" then
    {| in_title := in_title inp; in_vendor := in_vendor inp;
       in_productType := in_productType inp; in_status := Some v;
       in_tags := in_tags inp; in_templateSuffix := in_templateSuffix inp |}
  else if f =? "tags" then
    {| in_title := in_title inp; in_vendor := in_vendor inp;
       in_productType := in_productType inp; in_status := in_status inp;
       in_tags := Some (tag_list v); in_templateSuffix := in_templateSuffix inp |}
  else inp.

Definition revert_productInput (productLevelChanges : list Change) : ProductInput :=
  fold_left (fun inp c => revert_product_field inp (field c) (oldValue c))
            productLevelChanges empty_input.

(** The entry [variantLevelChanges.map] builds for one change. *)
Definition revert_variant (c : Change) : VariantInput :=
  let v := new_variant (variantId c) in
  let f := field c in
  if f =? "price" then
    {| vi_id := vi_id v; vi_price := Some (oldValue c);
       vi_compareAtPrice := None; vi_sku := None; vi_barcode := None;
       vi_weight := None |}
  else if f =? "compareAtPrice" then
    {| vi_id := vi_id v; vi_price := None;
       vi_compareAtPrice := Some (oldValue c); vi_sku := None;
       vi_barcode := None; vi_weight := None |}
  else if f =? "sku" then
    {| vi_id := vi_id v; vi_price := None; vi_compareAtPrice := None;
       vi_sku := Some (oldValue c); vi_barcode := None; vi_weight := None |}
  else if f =? "barcode" then
    {| vi_id := vi_id v; vi_price := None; vi_compareAtPrice := None;
       vi_sku := None; vi_barcode := Some (oldValue c); vi_weight := None |}
  else v.

Definition add_success_count (n : nat) (a : Acc) : Acc :=
  {| successCount := successCount a + n; errorCount := errorCount a;
     errors := errors a; historyRecords := historyRecords a;
     sent := sent a |}.

(** The body of the [revert] loop: the answers are awaited but
    their [userErrors] are not read. *)
Definition revert_product (acc : Acc) (entry : string * list Change) : Acc :=
  let '(pid, productChanges) := entry in
  let productLevelChanges :=
    filter (fun c => mem (field c) revert_product_fields) productChanges in
  let variantLevelChanges :=
    filter (fun c => negb (mem (field c) revert_product_fields)) productChanges in
  try_catch
    ((match productLevelChanges with
      | [] => ret tt
      | _ =>
          _ <- graphql (ProductUpdate pid (revert_productInput productLevelChanges)) ;;
          update (add_success_count (List.length productLevelChanges))
      end) ;;;
     (match variantLevelChanges with
      | [] => ret tt
      | _ =>
          _ <- graphql (VariantsBulkUpdate pid (map revert_variant variantLevelChanges)) ;;
          update (add_success_count (List.length variantLevelChanges))
      end))
    (fun _ => add_error_count (List.length productChanges))
    acc.

Definition revert_loop (changes : list Change) : Acc :=
  fold_left revert_product (changesByProduct changes) empty_acc.

Definition revert (w : World) (changes : list Change) : World * Result :=
  let acc := revert_loop changes in
  ({| shopPlan := shopPlan w; priceHistory := priceHistory w;
      bulkEdit := bulkEdit w; mutations := mutations w ++ sent acc |},
   Reverted (successCount acc) (errorCount acc)).

End Catalog.

End Executor.

(** ** The wizard page: filter rows, selection, live preview, impact *)

Module WizardPage.

Import Wizard.

(** The [value]s of [TEXT_CHANGE_TYPES], [TAG_CHANGE_TYPES] and
    [SELECT_CHANGE_TYPES]. *)
Definition TEXT_CHANGE_TYPES : list string :=
  ["set"; "prepend"; "append"; "find_replace"].

Definition TAG_CHANGE_TYPES : list string := ["add"; "remove"; "set"].

Definition SELECT_CHANGE_TYPES : list string := ["set"].

(** [getChangeTypes(fieldValue)]. *)
Definition getChangeTypes (fieldValue : string) : list string :=
  match getFieldDef fieldValue with
  | None => NUMERIC_CHANGE_TYPES
  | Some f =>
      match category f with
      | numeric => NUMERIC_CHANGE_TYPES
      | text => TEXT_CHANGE_TYPES
      | tagsCat => TAG_CHANGE_TYPES
      | select => SELECT_CHANGE_TYPES
      end
  end.

Inductive FilterType := ft_text | ft_number | ft_select.

(** [FILTER_FIELDS]: the [value] and the [type] of each entry. *)
Definition FILTER_FIELDS : list (string * FilterType) :=
  [ ("title", ft_text); ("vendor", ft_text); ("productType", ft_text);
    ("status", ft_select); ("tags", ft_text); ("sku", ft_text);
    ("variantTitle", ft_text); ("price", ft_number);
    ("compareAtPrice", ft_number); ("inventoryQuantity", ft_number);
    ("weight", ft_number); ("templateSuffix", ft_text) ].

Definition TEXT_OPERATORS : list string :=
  ["contains"; "not_contains"; "equals"; "not_equals"; "starts_with";
   "ends_with"; "is_empty"; "is_not_empty"].

Definition NUMBER_OPERATORS : list string :=
  ["equals"; "not_equals"; "greater_than"; "less_than"; "greater_or_equal";
   "less_or_equal"; "between"].

Definition SELECT_OPERATORS : list string := ["equals"; "not_equals"].

(** [getOperatorsForField(fieldValue)]. *)
Definition getOperatorsForField (fieldValue : string) : list string :=
  match find (fun f => fst f =? fieldValue) FILTER_FIELDS with
  | None => TEXT_OPERATORS
  | Some (_, ft_number) => NUMBER_OPERATORS
  | Some (_, ft_select) => SELECT_OPERATORS
  | Some (_, ft_text) => TEXT_OPERATORS
  end.

(** *** Filter rows *)

(** A row of [filterRules]: a rule under the [id] it got from
    [Date.now()]. *)
Record RuleRow := {
  row_id : Z;
  row_rule : Rule
}.

(** The keys the page passes to [updateFilterRule]. *)
Inductive RuleKey := rk_field | rk_operator | rk_value | rk_value2.

(** [{ ...r, [key]: val }]. *)
Definition set_rule_key (r : Rule) (key : RuleKey) (val : string) : Rule :=
  match key with
  | rk_field =>
      {| rule_field := val; rule_operator := rule_operator r;
         rule_value := rule_value r; rule_value2 := rule_value2 r |}
  | rk_operator =>
      {| rule_field := rule_field r; rule_operator := val;
         rule_value := rule_value r; rule_value2 := rule_value2 r |}
  | rk_value =>
      {| rule_field := rule_field r; rule_operator := rule_operator r;
         rule_value := Some val; rule_value2 := rule_value2 r |}
  | rk_value2 =>
      {| rule_field := rule_field r; rule_operator := rule_operator r;
         rule_value := rule_value r; rule_value2 := Some val |}
  end.

(** [updated.value = ""; updated.value2 = ""]. *)
Definition clear_values (r : Rule) : Rule :=
  {| rule_field := rule_field r; rule_operator := rule_operator r;
     rule_value := Some ""; rule_value2 := Some "" |}.

(** The function [updateFilterRule] maps over the rows. *)
Definition update_rule (r : Rule) (key : RuleKey) (val : string) : Rule :=
  let updated := set_rule_key r key val in
  let updated :=
    match key with
    | rk_field =>
        let ops := getOperatorsForField val in
        clear_values
          {| rule_field := rule_field updated;
             rule_operator := or_default (hd_error ops) "contains";
             rule_value := rule_value updated;
             rule_value2 := rule_value2 updated |}
    | _ => updated
    end in
  match key with
  | rk_operator =>
      if mem val ["is_empty"; "is_not_empty"] then clear_values updated
      else updated
  | _ => updated
  end.

Definition updateFilterRule (prev : list RuleRow) (id : Z) (key : RuleKey)
           (val : string) : list RuleRow :=
  map (fun r =>
         if negb (row_id r =? id)%Z then r
         else {| row_id := row_id r; row_rule := update_rule (row_rule r) key val |})
      prev.

(** [addFilterRule], at the time [now] read off [Date.now()]. *)
Definition addFilterRule (prev : list RuleRow) (now : Z) : list RuleRow :=
  (prev ++ [ {| row_id := now;
                row_rule := {| rule_field := "title"; rule_operator := "contains";
                               rule_value := Some ""; rule_value2 := Some "" |} |} ])%list.

Definition removeFilterRule (prev : list RuleRow) (id : Z) : list RuleRow :=
  filter (fun r => negb (row_id r =? id)%Z) prev.

(** The memo [filtered] on the rows. *)
Definition filtered_by (products : list Product) (filterRules : list RuleRow)
  : list Product :=
  filtered products (map row_rule filterRules).

(** *** Selection *)

(** A [Set] of product ids: its elements in insertion order. *)
Definition IdSet := list string.

Definition has (s : IdSet) (id : string) : bool := mem id s.

Definition set_add (s : IdSet) (id : string) : IdSet :=
  if has s id then s else (s ++ [id])%list.

Definition set_delete (s : IdSet) (id : string) : IdSet :=
  filter (fun x => negb (x =? id)) s.

(** [toggleProduct(id)]. *)
Definition toggleProduct (selectedIds : IdSet) (id : string) : IdSet :=
  if has selectedIds id then set_delete selectedIds id
  else set_add selectedIds id.

(** [toggleAll()]. *)
Definition toggleAll (selectedIds : IdSet) (filtered : list Product) : IdSet :=
  if (Nat.eqb (List.length selectedIds) (List.length filtered)
      && Nat.ltb 0 (List.length filtered))%bool
  then []
  else dedup (map product_id filtered).

(** The memos [selected] and [totalVariants]. *)
Definition selected (filtered : list Product) (selectedIds : IdSet)
  : list Product :=
  filter (fun p => has selectedIds (product_id p)) filtered.

Definition totalVariants (selected : list Product) : nat :=
  fold_left (fun s p => (s + List.length (variants p))%nat) selected 0%nat.

(** [canPreview]. *)
Definition canPreview (selectedIds : IdSet) (modifications : list Mod) : bool :=
  (Nat.ltb 0 (List.length selectedIds)
   && Nat.ltb 0 (List.length modifications)
   && forallb (fun m => truthy (mod_value m)) modifications)%bool.

(** *** Live preview *)

(** An entry of the [examples] array. *)
Record Example := {
  ex_title : option string;
  ex_variant : option string;
  ex_field : string;
  ex_oldValue : string;
  ex_newValue : string
}.

(** The product-level branch of the loop body: the example pushed,
    if any. *)
Definition product_example (product : Product) (m : Mod) : option Example :=
  let cur := current_of product (mod_field m) in
  match calcValue (Some cur) m with
  | None => None
  | Some nv =>
      if nv =? cur then None
      else Some {| ex_title := title product; ex_variant := None;
                   ex_field := mod_field m; ex_oldValue := cur;
                   ex_newValue := nv |}
  end.

(** [variant.title !== "Default Title" ? variant.title : null]. *)
Definition shown_title (t : option string) : option string :=
  match t with
  | Some s => if s =? "Default Title" then None else Some s
  | None => None
  end.

(** The body of the loop over the variants, up to the test of the
    length. *)
Definition variant_example (fieldDef : FieldDef) (product : Product) (m : Mod)
           (variant : Variant) : option Example :=
  let cur := read_variant fieldDef variant in
  let num := is_numeric (category fieldDef) in
  match calcValue (Some (or_default cur (if num then "0" else ""))) m with
  | None => None
  | Some nv =>
      let same_value :=
        if num
        then JsNumber.eqb (parseFloat (or_default cur "0")) (parseFloat nv)
        else or_default cur "" =? nv in
      if same_value then None
      else Some {| ex_title := title product;
                   ex_variant := shown_title (variant_title variant);
                   ex_field := mod_field m;
                   ex_oldValue := or_default cur (if num then "0" else "(empty)");
                   ex_newValue := nv |}
  end.

(** [examples.length >= 10]. *)
Definition full (examples : list Example) : bool :=
  Nat.leb 10 (List.length examples).

(** The loop over [product.variants.edges], with its [break]. *)
Fixpoint preview_variants (fieldDef : FieldDef) (product : Product) (m : Mod)
         (vs : list Variant) (examples : list Example) : list Example :=
  match vs with
  | [] => examples
  | variant :: rest =>
      match variant_example fieldDef product m variant with
      | None => preview_variants fieldDef product m rest examples
      | Some ex =>
          let examples := (examples ++ [ex])%list in
          if full examples then examples
          else preview_variants fieldDef product m rest examples
      end
  end.

(** The loop over the modifications: a [continue] skips the test at
    the end of the body. *)
Fixpoint preview_mods (product : Product) (ms : list Mod)
         (examples : list Example) : list Example :=
  match ms with
  | [] => examples
  | m :: rest =>
      match getFieldDef (mod_field m) with
      | None => preview_mods product rest examples
      | Some fieldDef =>
          match level fieldDef with
          | productLevel =>
              match product_example product m with
              | None => preview_mods product rest examples
              | Some ex =>
                  let examples := (examples ++ [ex])%list in
                  if full examples then examples
                  else preview_mods product rest examples
              end
          | variantLevel =>
              let examples :=
                preview_variants fieldDef product m (variants product) examples in
              if full examples then examples
              else preview_mods product rest examples
          end
      end
  end.

(** The loop over [selected.slice(0, 8)]. *)
Fixpoint preview_products (ps : list Product) (modifications : list Mod)
         (examples : list Example) : list Example :=
  match ps with
  | [] => examples
  | product :: rest =>
      let examples := preview_mods product modifications examples in
      if full examples then examples
      else preview_products rest modifications examples
  end.

(** The memo [livePreview]. *)
Definition livePreview (selected : list Product) (modifications : list Mod)
  : list Example :=
  if (Nat.eqb (List.length modifications) 0
      || negb (forallb (fun m => truthy (mod_value m)) modifications))%bool
  then []
  else preview_products (firstn 8 selected) modifications [].

(** *** Impact summary *)

Record PriceImpact := {
  netChange : string;
  pctChange : string;
  avgOld : string;
  avgNew : string;
  increases : nat;
  decreases : nat;
  unchanged : nat;
  hasPriceFields : bool
}.

(** The locals of the loop over [numericChanges]. *)
Record Tally := {
  totalOld : number;
  totalNew : number;
  t_increases : nat;
  t_decreases : nat;
  t_unchanged : nat
}.

Definition tally_step (t : Tally) (c : Change) : Tally :=
  let o := parseFloat (oldValue c) in
  let n := parseFloat (newValue c) in
  {| totalOld := add (totalOld t) o;
     totalNew := add (totalNew t) n;
     t_increases := if JsNumber.ltb o n then S (t_increases t) else t_increases t;
     t_decreases :=
       if JsNumber.ltb o n then t_decreases t
       else if JsNumber.ltb n o then S (t_decreases t) else t_decreases t;
     t_unchanged :=
       if JsNumber.ltb o n then t_unchanged t
       else if JsNumber.ltb n o then t_unchanged t else S (t_unchanged t) |}.

Definition numericChanges (changes : list Change) : list Change :=
  filter (fun c => match getFieldDef (field c) with
                   | Some f => is_numeric (category f)
                   | None => false
                   end)
         changes.

(** The memo [priceImpact]; [None] is [null]. *)
Definition priceImpact (changes : list Change) : option PriceImpact :=
  let cs := numericChanges changes in
  match cs with
  | [] => None
  | _ =>
      let t := fold_left tally_step cs
                 {| totalOld := zero; totalNew := zero; t_increases := 0;
                    t_decreases := 0; t_unchanged := 0 |} in
      let len := of_Z (Z.of_nat (List.length cs)) in
      Some {| netChange := toFixed (sub (totalNew t) (totalOld t)) 2;
              pctChange :=
                if JsNumber.ltb zero (totalOld t)
                then toFixed (mul (div (sub (totalNew t) (totalOld t)) (totalOld t))
                                  hundred) 1
                else "0.0";
              avgOld :=
                if Nat.ltb 0 (List.length cs) then toFixed (div (totalOld t) len) 2
                else "0.00";
              avgNew :=
                if Nat.ltb 0 (List.length cs) then toFixed (div (totalNew t) len) 2
                else "0.00";
              increases := t_increases t;
              decreases := t_decreases t;
              unchanged := t_unchanged t;
              hasPriceFields :=
                existsb (fun c => mem (field c) ["price"; "compareAtPrice"; "cost"]) cs |}
  end.

End WizardPage.

(** ** The loader of the wizard route *)

Module Loader.

Import Executor.

(** *** Fetching the products page by page *)

(** [data.data.products] of one answer: the nodes of its edges and
    its [pageInfo]. *)
Record PageData := {
  pg_nodes : list Product;
  pg_hasNextPage : bool;
  pg_endCursor : option string
}.

(** What one call of [admin.graphql] on the products query gives:
    an answer, with or without [errors] and with or without
    [data.products], or an exception. *)
Inductive QueryAnswer :=
| Answered (errors : bool) (products : option PageData)
| QueryThrew.

(** The locals of the [while] loop; [asked] lists the queries sent so
    far, each with the flag [useWeightQuery] and the cursor it was
    sent with. *)
Record LoadState := {
  allProducts : list Product;
  cursor : option string;
  useWeightQuery : bool;
  asked : list (bool * option string)
}.

Inductive Loaded :=
| Products (ps : list Product)
| Rethrown.

Inductive Step :=
| Again (s : LoadState)
| Stop (r : Loaded).

Section Server.

(** The catalog's answer to the products query sent with or without
    the weight and after a cursor. *)
Variable server : bool -> option string -> QueryAnswer.

(** [useWeightQuery = false; continue]. *)
Definition fall_back (s : LoadState) (log : list (bool * option string)) : LoadState :=
  {| allProducts := allProducts s; cursor := cursor s;
     useWeightQuery := false; asked := log |}.

(** One turn of the [while (hasNextPage)] loop. *)
Definition load_step (s : LoadState) : Step :=
  let log := (asked s ++ [(useWeightQuery s, cursor s)])%list in
  match server (useWeightQuery s) (cursor s) with
  | QueryThrew =>
      if useWeightQuery s then Again (fall_back s log) else Stop Rethrown
  | Answered errors products =>
      if (errors && useWeightQuery s)%bool then Again (fall_back s log)
      else
        let nodes := match products with Some d => pg_nodes d | None => [] end in
        let hasNextPage :=
          match products with Some d => pg_hasNextPage d | None => false end in
        let endCursor :=
          match opt_bind products pg_endCursor with
          | Some c => if truthy c then Some c else None
          | None => None
          end in
        let all := (allProducts s ++ nodes)%list in
        if hasNextPage
        then Again {| allProducts := all; cursor := endCursor;
                      useWeightQuery := useWeightQuery s; asked := log |}
        else Stop (Products all)
  end.

(** The loop, for at most [fuel] turns; [None] when it has not ended
    by then. *)
Fixpoint load_loop (fuel : nat) (s : LoadState) : option (Loaded * list (bool * option string)) :=
  match fuel with
  | O => None
  | S f =>
      match load_step s with
      | Again s' => load_loop f s'
      | Stop r => Some (r, (asked s ++ [(useWeightQuery s, cursor s)])%list)
      end
  end.

Definition load_products (fuel : nat) : option (Loaded * list (bool * option string)) :=
  load_loop fuel {| allProducts := []; cursor := None; useWeightQuery := true;
                    asked := [] |}.

End Server.

(** *** The plan of the shop *)

(** The month and the year of a date. *)
Record YearMonth := {
  ym_year : Z;
  ym_month : Z
}.

Definition same_month (a b : YearMonth) : bool :=
  ((ym_month a =? ym_month b) && (ym_year a =? ym_year b))%Z%bool.

(** The row of [shopPlan] with its column [monthlyEditReset]. *)
Record PlanRow := {
  pr_row : ShopPlan;
  pr_monthlyEditReset : YearMonth
}.

(** What the loader returns about the plan. *)
Record PlanView := {
  currentPlan : string;
  view_monthlyEdits : Z;
  editsLimit : Limit;
  editsRemaining : Limit
}.

(** The plan part of the loader at the date [now]: the row it leaves
    in the table and the values it returns.  A row the loader creates
    is taken to be dated [now]; dated otherwise it would be reset to
    the same count of zero. *)
Definition load_plan (stored : option PlanRow) (now : YearMonth)
  : PlanRow * PlanView :=
  let shopPlan :=
    match stored with
    | Some r => r
    | None => {| pr_row := default_plan; pr_monthlyEditReset := now |}
    end in
  let shopPlan :=
    if negb (same_month now (pr_monthlyEditReset shopPlan))
    then {| pr_row := {| plan := plan (pr_row shopPlan); monthlyEdits := 0 |};
            pr_monthlyEditReset := now |}
    else shopPlan in
  let planName := or_default (plan (pr_row shopPlan)) "free" in
  let limit := editsLimitOf planName in
  let edits := monthlyEdits (pr_row shopPlan) in
  (shopPlan,
   {| currentPlan := planName;
      view_monthlyEdits := edits;
      editsLimit := limit;
      editsRemaining :=
        match limit with
        | Infinity => Infinity
        | Finite n => Finite (Z.max 0 (n - edits))
        | NoNumber => NoNumber
        end |}).

End Loader.

(** ** The webhook handler and its mutations *)

Module Automation.

Import Webhook.

Definition upper_ascii (c : ascii) : ascii :=
  let n := nat_of_ascii c in
  if (Nat.leb 97 n && Nat.leb n 122)%bool then ascii_of_nat (n - 32) else c.

(** [toUpperCase] on the ASCII letters. *)
Fixpoint toUpperCase (s : string) : string :=
  match s with
  | EmptyString => EmptyString
  | String c r => String (upper_ascii c) (toUpperCase r)
  end.

(** A variant of the [products/update] payload. *)
Record PayloadVariant := {
  pv_id : number;
  pv_title : option string;
  pv_price : option string;
  pv_compare_at_price : option string;
  pv_sku : option string;
  pv_barcode : option string;
  pv_inventory_quantity : option number
}.

(** The [products/update] payload. *)
Record Payload := {
  pl_id : number;
  pl_title : option string;
  pl_vendor : option string;
  pl_product_type : option string;
  pl_status : option string;
  pl_tags : option string;
  pl_variants : option (list PayloadVariant)
}.

(** [x || null] on an optional string. *)
Definition or_null (o : option string) : option string :=
  match o with
  | Some s => if truthy s then Some s else None
  | None => None
  end.

(** [n || 0] on an optional number. *)
Definition or_zero (o : option number) : number :=
  match o with
  | Some n => if js_truthy (JNumber n) then n else zero
  | None => zero
  end.

Definition snapshot_variant (v : PayloadVariant) : Variant :=
  {| variant_id := "gid://shopify/ProductVariant/" ++ toString (pv_id v);
     variant_title := Some (or_default (pv_title v) "");
     price := Some (or_default (pv_price v) "0");
     compareAtPrice := or_null (pv_compare_at_price v);
     sku := Some (or_default (pv_sku v) "");
     barcode := Some (or_default (pv_barcode v) "");
     inventoryQuantity := Some (or_zero (pv_inventory_quantity v));
     weight := None |}.

(** The object [product] the handler builds from the payload. *)
Definition snapshot (payload : Payload) : Product :=
  {| product_id := "gid://shopify/Product/" ++ toString (pl_id payload);
     title := Some (or_default (pl_title payload) "");
     handle := None;
     status := Some (toUpperCase (or_default (pl_status payload) "active"));
     productType := Some (or_default (pl_product_type payload) "");
     vendor := Some (or_default (pl_vendor payload) "");
     tags := Some (filter truthy
                     (map trim (split (or_default (pl_tags payload) "") ",")));
     templateSuffix := None;
     featuredMedia := false;
     variants := map snapshot_variant
                     (match pl_variants payload with Some l => l | None => [] end) |}.

(** *** [applyModifications] *)

(** [productInput[mod.field] = newValue], with the tags split;
    [mod.field] is a product-level field of the registry. *)
Definition set_input (inp : ProductInput) (f v : string) : ProductInput :=
  if f =? "tags" then
    {| in_title := in_title inp; in_vendor := in_vendor inp;
       in_productType := in_productType inp; in_status := in_status inp;
       in_tags := Some (map trim (split v ","));
       in_templateSuffix := in_templateSuffix inp |}
  else if f =? "title" then
    {| in_title := Some v; in_vendor := in_vendor inp;
       in_productType := in_productType inp; in_status := in_status inp;
       in_tags := in_tags inp; in_templateSuffix := in_templateSuffix inp |}
  else if f =? "vendor" then
    {| in_title := in_title inp; in_vendor := Some v;
       in_productType := in_productType inp; in_status := in_status inp;
       in_tags := in_tags inp; in_templateSuffix := in_templateSuffix inp |}
  else if f =? "productType" then
    {| in_title := in_title inp; in_vendor := in_vendor inp;
       in_productType := Some v; in_status := in_status inp;
       in_tags := in_tags inp; in_templateSuffix := in_templateSuffix inp |}
  else if f =? "status" then
    {| in_title := in_title inp; in_vendor := in_vendor inp;
       in_productType := in_productType inp; in_status := Some v;
       in_tags := in_tags inp; in_templateSuffix := in_templateSuffix inp |}
  else inp.

(** [existing[mod.field] = newValue]; [mod.field] is a variant-level
    field of the registry. *)
Definition set_update (u : VariantInput) (f x : string) : VariantInput :=
  if f =? "price" then
    {| vi_id := vi_id u; vi_price := Some x;
       vi_compareAtPrice := vi_compareAtPrice u; vi_sku := vi_sku u;
       vi_barcode := vi_barcode u; vi_weight := vi_weight u |}
  else if f =? "compareAtPrice" then
    {| vi_id := vi_id u; vi_price := vi_price u;
       vi_compareAtPrice := Some x; vi_sku := vi_sku u;
       vi_barcode := vi_barcode u; vi_weight := vi_weight u |}
  else if f =? "sku" then
    {| vi_id := vi_id u; vi_price := vi_price u;
       vi_compareAtPrice := vi_compareAtPrice u; vi_sku := Some x;
       vi_barcode := vi_barcode u; vi_weight := vi_weight u |}
  else if f =? "barcode" then
    {| vi_id := vi_id u; vi_price := vi_price u;
       vi_compareAtPrice := vi_compareAtPrice u; vi_sku := vi_sku u;
       vi_barcode := Some x; vi_weight := vi_weight u |}
  else u.

(** [variantUpdates.find(v => v.id === variant.id)], the entry made
    and pushed when there is none, and the assignment to it. *)
Fixpoint put_update (id f x : string) (us : list VariantInput) : list VariantInput :=
  match us with
  | [] => [set_update (Executor.new_variant (Some id)) f x]
  | u :: r =>
      if Executor.same_id (vi_id u) (Some id) then set_update u f x :: r
      else u :: put_update id f x r
  end.

(** The two locals [productInput] and [variantUpdates]. *)
Record Pending := {
  pd_input : ProductInput;
  pd_updates : list VariantInput
}.

Definition current_value (product : Product) (f : string) : string :=
  if f =? "tags"
  then join ", " (match tags product with Some l => l | None => [] end)
  else js_string (js_or (product_prop product f) (JString "")).

(** [fieldDef.accessor ? fieldDef.accessor(variant) : variant[mod.field]];
    no entry of the registry is without an accessor. *)
Definition variant_current (fieldDef : FieldDef) (m : Mod) (variant : Variant)
  : option string :=
  match accessor fieldDef with
  | Some a => a variant
  | None => match variant_prop variant (mod_field m) with
            | JString s => Some s
            | JNumber x => Some (toString x)
            | _ => None
            end
  end.

(** The body of the loop over the variants. *)
Definition update_step (fieldDef : FieldDef) (m : Mod) (us : list VariantInput)
           (variant : Variant) : list VariantInput :=
  match calcValue (variant_current fieldDef m variant) m with
  | None => us
  | Some newValue => put_update (variant_id variant) (mod_field m) newValue us
  end.

(** The body of the loop over the actions. *)
Definition action_step (product : Product) (p : Pending) (m : Mod) : Pending :=
  match getFieldDef (mod_field m) with
  | None => p
  | Some fieldDef =>
      match level fieldDef with
      | productLevel =>
          match calcValue (Some (current_value product (mod_field m))) m with
          | None => p
          | Some newValue =>
              {| pd_input := set_input (pd_input p) (mod_field m) newValue;
                 pd_updates := pd_updates p |}
          end
      | variantLevel =>
          {| pd_input := pd_input p;
             pd_updates := fold_left (update_step fieldDef m) (variants product)
                                     (pd_updates p) |}
      end
  end.

Definition pending (product : Product) (actions : list Mod) : Pending :=
  fold_left (action_step product) actions
            {| pd_input := Executor.empty_input; pd_updates := [] |}.

(** [Object.keys(productInput).length > 0]. *)
Definition has_keys (inp : ProductInput) : bool :=
  match in_title inp, in_vendor inp, in_productType inp, in_status inp,
        in_tags inp, in_templateSuffix inp with
  | None, None, None, None, None, None => false
  | _, _, _, _, _, _ => true
  end.

(** The mutations [applyModifications] is to send, in order. *)
Definition requests (product : Product) (actions : list Mod) : list Request :=
  let p := pending product actions in
  ((if has_keys (pd_input p)
    then [ProductUpdate (product_id product) (pd_input p)] else [])
   ++
   (match pd_updates p with
    | [] => []
    | us => [VariantsBulkUpdate (product_id product) us]
    end))%list.

Section Admin.

Variable catalog : Request -> Response.

(** The mutations awaited one after the other: those sent, and
    whether all of them returned; the [userErrors] are not read. *)
Fixpoint send (qs : list Request) : list Request * bool :=
  match qs with
  | [] => ([], true)
  | q :: r =>
      match catalog q with
      | Threw _ => ([q], false)
      | Replied _ => let '(s, ok) := send r in (q :: s, ok)
      end
  end.

Definition applyModifications (product : Product) (actions : list Mod)
  : list Request * bool :=
  send (requests product actions).

(** *** The handler *)

(** What [JSON.parse] makes of the column [conditions], which holds
    the text that was posted: it throws, and [conditions] stays the
    empty array; or it gives an array, whose elements are rules or
    [null]; or it gives a value that is no array and has no [every].
    An element that is no object has no field and no operator, as a
    rule that names an unknown field and an unknown operator. *)
Inductive Conditions :=
| Unparsed
| RuleArray (rules : list (option Rule))
| NotArray.

(** What [JSON.parse] makes of the column [actions]: it throws, and
    [actions] stays the empty array; or it gives an array, whose
    elements are modifications or [null]; or it gives a value the
    [for ... of] of [applyModifications] cannot iterate.  An element
    that is no object, and a character of a text, has no field, as a
    modification of a field the registry does not have. *)
Inductive Actions :=
| UnparsedActions
| ActionArray (mods : list (option Mod))
| NotIterable.

(** A row of [automationRule]. *)
Record AutomationRule := {
  ar_id : string;
  ar_name : string;
  ar_enabled : bool;
  ar_conditions : Conditions;
  ar_actions : Actions;
  ar_runCount : Z
}.

(** What the handler reads and writes: the plan row, the rules, the
    mutations sent and the names under which it asked for an audit
    row to be created. *)
Record AutoWorld := {
  aw_shopPlan : option ShopPlan;
  aw_rules : list AutomationRule;
  aw_mutations : list Request;
  aw_audit : list string
}.

Definition parsed {A} (o : option (list A)) : list A :=
  match o with Some l => l | None => [] end.

(** How [conditions.every(...)] ends: with [true], with [false], or
    with an exception. *)
Inductive Verdict := Holds | Fails | Throws.

(** [every] stops at the first condition that fails; reading the
    field of a [null] throws. *)
Fixpoint every (product : Product) (conditions : list (option Rule)) : Verdict :=
  match conditions with
  | [] => Holds
  | Some condition :: rest =>
      if evaluateFilter product condition then every product rest else Fails
  | None :: _ => Throws
  end.

Definition matches (product : Product) (rule : AutomationRule) : Verdict :=
  match ar_conditions rule with
  | Unparsed => Holds
  | RuleArray conditions => every product conditions
  | NotArray => Throws
  end.

(** [prisma.automationRule.update({ where: { id }, data: { runCount } })]. *)
Definition set_runCount (rules : list AutomationRule) (id : string) (n : Z)
  : list AutomationRule :=
  map (fun r =>
         if ar_id r =? id
         then {| ar_id := ar_id r; ar_name := ar_name r; ar_enabled := ar_enabled r;
                 ar_conditions := ar_conditions r; ar_actions := ar_actions r;
                 ar_runCount := n |}
         else r)
      rules.

(** The modifications up to the first [null], and whether there is
    a [null]. *)
Fixpoint all_mods (l : list (option Mod)) : option (list Mod) :=
  match l with
  | [] => Some []
  | Some m :: rest =>
      match all_mods rest with Some ms => Some (m :: ms) | None => None end
  | None :: _ => None
  end.

(** The modifications the loop of [applyModifications] goes through,
    [None] when it throws: reading the field of a [null] throws, and
    so does iterating what is not iterable. *)
Definition iterate (actions : Actions) : option (list Mod) :=
  match actions with
  | UnparsedActions => Some []
  | ActionArray mods => all_mods mods
  | NotIterable => None
  end.

(** [await applyModifications(admin, product, actions)]: what is
    sent, and whether the call returned.  The mutations are sent
    after the loop over the actions, so nothing is sent when the loop
    throws. *)
Definition attempt (product : Product) (rule : AutomationRule)
  : list Request * bool :=
  match iterate (ar_actions rule) with
  | Some actions => applyModifications product actions
  | None => ([], false)
  end.

(** The inner [try] of the loop, for a rule that matches. *)
Definition apply_rule (product : Product) (w : AutoWorld) (rule : AutomationRule)
  : AutoWorld :=
  let '(sent, ok) := attempt product rule in
  if ok then
    {| aw_shopPlan := aw_shopPlan w;
       aw_rules := set_runCount (aw_rules w) (ar_id rule) (ar_runCount rule + 1);
       aw_mutations := (aw_mutations w ++ sent)%list;
       aw_audit := (aw_audit w ++ [("Auto: " ++ ar_name rule)%string])%list |}
  else
    {| aw_shopPlan := aw_shopPlan w;
       aw_rules := aw_rules w;
       aw_mutations := (aw_mutations w ++ sent)%list;
       aw_audit := aw_audit w |}.

(** The loop over the rules: the conditions are evaluated outside the
    inner [try], so an exception there leaves the loop and is caught
    by the outer [try]. *)
Fixpoint run_rules (product : Product) (w : AutoWorld)
         (rules : list AutomationRule) : AutoWorld :=
  match rules with
  | [] => w
  | rule :: rest =>
      match matches product rule with
      | Throws => w
      | Fails => run_rules product w rest
      | Holds => run_rules product (apply_rule product w rule) rest
      end
  end.

Definition on_plus (sp : option ShopPlan) : bool :=
  match sp with
  | Some row => match plan row with Some p => p =? "plus" | None => false end
  | None => false
  end.

(** The handler of [products/update]. *)
Definition action (w : AutoWorld) (payload : Payload) : AutoWorld :=
  if negb (on_plus (aw_shopPlan w)) then w
  else
    let rules := filter ar_enabled (aw_rules w) in
    match rules with
    | [] => w
    | _ => run_rules (snapshot payload) w rules
    end.

End Admin.

End Automation.

(** * Properties *)

(** ** Generic facts *)

Lemma eqb_false_sym (a b : string) : (a =? b) = false -> (b =? a) = false.
Proof. rewrite String.eqb_sym. trivial. Qed.

Lemma world_eta (w : World) :
  {| shopPlan := shopPlan w; priceHistory := priceHistory w;
     bulkEdit := bulkEdit w; mutations := mutations w |} = w.
Proof. destruct w; reflexivity. Qed.


(** A registry lookup returns an entry of the table under its own name. *)
Lemma getFieldDefIn_spec (table : list FieldDef) (f : string) (fd : FieldDef) :
  getFieldDefIn table f = Some fd -> In fd table /\ fd_value fd = f.
Proof.
  unfold getFieldDefIn. intros H. apply find_some in H as [Hin Heq].
  split; trivial. now apply String.eqb_eq.
Qed.

(** ** Sets of strings in insertion order *)

Module SetFacts.

Local Open Scope list_scope.

Lemma mem_In (x : string) (l : list string) : mem x l = true <-> In x l.
Proof.
  unfold mem. rewrite existsb_exists. split.
  - intros [y [Hy He]]. apply String.eqb_eq in He. now subst.
  - intros H. exists x. split; [exact H | apply String.eqb_refl].
Qed.

Lemma mem_app (x : string) (a b : list string) :
  mem x (a ++ b) = (mem x a || mem x b)%bool.
Proof. unfold mem. apply existsb_app. Qed.

Lemma dedup_go_snoc (l : list string) :
  forall (seen : list string) (x : string),
    dedup_go seen (l ++ [x])
    = if (mem x seen || mem x l)%bool then dedup_go seen l
      else dedup_go seen l ++ [x].
Proof.
  induction l as [| y l IH]; intros seen x; simpl.
  - rewrite orb_false_r. fold (mem x seen). destruct (mem x seen); reflexivity.
  - fold (mem y seen). destruct (mem y seen) eqn:Hy.
    + rewrite IH. unfold mem at 2. simpl. fold (mem x l).
      destruct (String.eqb_spec x y) as [-> | Hne].
      * rewrite Hy. reflexivity.
      * reflexivity.
    + rewrite IH. unfold mem at 1 3. simpl. fold (mem x seen) (mem x l).
      destruct (String.eqb_spec x y) as [-> | Hne]; simpl.
      * rewrite orb_true_r. reflexivity.
      * destruct (mem x seen || mem x l)%bool; reflexivity.
Qed.

Lemma dedup_snoc (l : list string) (x : string) :
  dedup (l ++ [x]) = if mem x l then dedup l else dedup l ++ [x].
Proof. unfold dedup. rewrite dedup_go_snoc. reflexivity. Qed.

Lemma dedup_go_In (l : list string) :
  forall (seen : list string) (x : string),
    In x (dedup_go seen l) <-> In x l /\ mem x seen = false.
Proof.
  induction l as [| y l IH]; intros seen x; simpl; [tauto | ].
  fold (mem y seen). destruct (mem y seen) eqn:Hy.
  - rewrite IH. split.
    + intros [H1 H2]. tauto.
    + intros [[-> | H1] H2]; [congruence | tauto].
  - simpl. rewrite IH. unfold mem at 2. simpl. fold (mem x seen).
    destruct (String.eqb_spec x y) as [-> | Hne]; simpl.
    + split; [intros _; tauto | intros _; now left].
    + split.
      * intros [-> | [H1 H2]]; [congruence | tauto].
      * intros [[-> | H1] H2]; [congruence | tauto].
Qed.

Lemma dedup_In (l : list string) (x : string) : In x (dedup l) <-> In x l.
Proof. unfold dedup. rewrite dedup_go_In. simpl. tauto. Qed.

Lemma dedup_go_NoDup (l : list string) :
  forall seen : list string, NoDup (dedup_go seen l).
Proof.
  induction l as [| y l IH]; intros seen; simpl; [constructor | ].
  fold (mem y seen). destruct (mem y seen); [apply IH | ].
  constructor; [ | apply IH].
  rewrite dedup_go_In. unfold mem. simpl. rewrite String.eqb_refl. simpl.
  intros [_ H]. discriminate.
Qed.

Lemma dedup_NoDup (l : list string) : NoDup (dedup l).
Proof. apply dedup_go_NoDup. Qed.

Lemma dedup_go_fixed (l : list string) :
  forall seen : list string,
    NoDup l -> (forall x, In x l -> mem x seen = false) -> dedup_go seen l = l.
Proof.
  induction l as [| y l IH]; intros seen Hnd Hseen; simpl; [reflexivity | ].
  fold (mem y seen). rewrite (Hseen y (or_introl eq_refl)).
  inversion Hnd as [| ? ? Hy Hl]; subst. f_equal. apply IH; trivial.
  intros x Hx. unfold mem. simpl. fold (mem x seen).
  rewrite (Hseen x (or_intror Hx)).
  destruct (String.eqb_spec x y) as [-> | ]; [contradiction | reflexivity].
Qed.

Lemma dedup_fixed (l : list string) : NoDup l -> dedup l = l.
Proof. intros H. apply dedup_go_fixed; trivial. Qed.

End SetFacts.

(** ** Grouping the changes by product *)

Module GroupingProperties.

Import Executor SetFacts.
Local Open Scope list_scope.

(** The changes of [changes] made to the product [k]. *)
Definition of_product (changes : list Change) (k : string) : list Change :=
  filter (fun c => productId c =? k) changes.

Definition grouped (changes : list Change) : list (string * list Change) :=
  map (fun k => (k, of_product changes k)) (dedup (map productId changes)).

Lemma of_product_snoc (l : list Change) (c : Change) (k : string) :
  of_product (l ++ [c]) k
  = of_product l k ++ (if productId c =? k then [c] else []).
Proof. unfold of_product. rewrite filter_app. reflexivity. Qed.

Lemma of_product_none (l : list Change) (k : string) :
  ~ In k (map productId l) -> of_product l k = [].
Proof.
  intros H. unfold of_product. induction l as [| c l IH]; [reflexivity | ].
  simpl in *. destruct (String.eqb_spec (productId c) k) as [e | _].
  - exfalso. apply H. now left.
  - apply IH. tauto.
Qed.

(** Pushing a change whose product has no entry among [keys]. *)
Lemma push_change_new (l : list Change) (c : Change) (keys : list string) :
  ~ In (productId c) keys ->
  push_change c (map (fun k => (k, of_product l k)) keys)
  = map (fun k => (k, of_product (l ++ [c]) k)) keys ++ [(productId c, [c])].
Proof.
  induction keys as [| k keys IH]; intros Hk; simpl; [reflexivity | ].
  destruct (String.eqb_spec k (productId c)) as [e | ne].
  - exfalso. apply Hk. now left.
  - rewrite IH by (simpl in Hk; tauto).
    rewrite of_product_snoc.
    destruct (String.eqb_spec (productId c) k) as [e | _]; [congruence | ].
    now rewrite app_nil_r.
Qed.

(** Pushing a change whose product has its entry among [keys]. *)
Lemma push_change_old (l : list Change) (c : Change) (keys : list string) :
  NoDup keys -> In (productId c) keys ->
  push_change c (map (fun k => (k, of_product l k)) keys)
  = map (fun k => (k, of_product (l ++ [c]) k)) keys.
Proof.
  induction keys as [| k keys IH]; intros Hnd Hin; simpl; [contradiction | ].
  inversion Hnd as [| ? ? Hk Hrest]; subst.
  rewrite of_product_snoc.
  destruct (String.eqb_spec k (productId c)) as [e | ne].
  - subst k. rewrite String.eqb_refl. f_equal.
    apply map_ext_in. intros k Hkin. rewrite of_product_snoc.
    destruct (String.eqb_spec (productId c) k) as [e | _].
    + subst k. contradiction.
    + now rewrite app_nil_r.
  - destruct (String.eqb_spec (productId c) k) as [e | _]; [congruence | ].
    rewrite app_nil_r. f_equal. apply IH; trivial.
    destruct Hin as [e | Hin]; [congruence | exact Hin].
Qed.

Lemma changesByProduct_grouped (changes : list Change) :
  changesByProduct changes = grouped changes.
Proof.
  unfold changesByProduct, grouped.
  induction changes as [| c l IH] using rev_ind; [reflexivity | ].
  rewrite fold_left_app. simpl. rewrite IH.
  rewrite map_app. simpl. rewrite dedup_snoc.
  destruct (mem (productId c) (map productId l)) eqn:Hm.
  - apply push_change_old; [apply dedup_NoDup | ].
    apply dedup_In. now apply mem_In.
  - rewrite push_change_new.
    + rewrite map_app. simpl. f_equal. f_equal. f_equal.
      rewrite of_product_snoc, String.eqb_refl.
      rewrite of_product_none; [reflexivity | ].
      intros H. apply mem_In in H. congruence.
    + intros H. apply (proj1 (dedup_In _ _)) in H.
      apply (proj2 (mem_In _ _)) in H. congruence.
Qed.

(** X1. For changes whose product ids are plain keys,
    [changesByProduct] has one entry per product id that occurs in
    the changes, in the order in which the ids first occur; the entry
    of an id holds exactly the changes made to that product, in their
    order in the list, and is never empty. *)
Theorem changesByProduct_partitions (changes : list Change) :
  (forall c, In c changes -> plain_key (productId c) = true) ->
  let groups := changesByProduct changes in
  map fst groups = dedup (map productId changes)
  /\ NoDup (map fst groups)
  /\ (forall k cs, In (k, cs) groups ->
        cs = filter (fun c => productId c =? k) changes /\ cs <> [])
  /\ (forall c, In c changes ->
        exists cs, In (productId c, cs) groups /\ In c cs).
Proof.
  intros _ groups. subst groups. rewrite changesByProduct_grouped. unfold grouped.
  split; [ | split; [ | split]].
  - rewrite map_map. simpl. apply map_id.
  - rewrite map_map. simpl. rewrite map_id. apply dedup_NoDup.
  - intros k cs H. apply in_map_iff in H as [k' [e Hk]].
    inversion e; subst. split; [reflexivity | ].
    apply dedup_In, in_map_iff in Hk as [c [e' Hc]].
    intros Hnil.
    assert (Hin : In c (of_product changes k)).
    { apply filter_In. split; [exact Hc | ]. now apply String.eqb_eq. }
    rewrite Hnil in Hin. contradiction.
  - intros c Hc. exists (of_product changes (productId c)). split.
    + apply in_map_iff. exists (productId c). split; [reflexivity | ].
      apply dedup_In, in_map_iff. now exists c.
    + apply filter_In. split; [exact Hc | apply String.eqb_refl].
Qed.

(** A price change of the variant [vid] of the product [pid]. *)
Definition price_change (pid vid old new : string) : Change :=
  {| productId := pid; productTitle := Some "Mug"; variantId := Some vid;
     variantTitle := Some "Default Title"; field := "price";
     oldValue := old; newValue := new; modificationType := "exact" |}.

Definition interleaved : list Change :=
  [ price_change "gid://shopify/Product/2" "gid://shopify/ProductVariant/21"
                 "5.00" "6.00";
    price_change "gid://shopify/Product/1" "gid://shopify/ProductVariant/11"
                 "7.00" "8.00";
    price_change "gid://shopify/Product/2" "gid://shopify/ProductVariant/22"
                 "9.00" "6.00" ].

Lemma changesByProduct_partitions_witness :
  (forall c, In c interleaved -> plain_key (productId c) = true)
  /\ map fst (changesByProduct interleaved)
     = ["gid://shopify/Product/2"; "gid://shopify/Product/1"]%string.
Proof.
  assert (H : forall c, In c interleaved -> plain_key (productId c) = true).
  { intros c [<- | [<- | [<- | []]]]; reflexivity. }
  split; [exact H | ].
  exact (proj1 (changesByProduct_partitions interleaved H)).
Defined.

End GroupingProperties.

(** ** Quota precondition of [execute] *)

Module QuotaProperties.

Import Executor.

(** C8. When the shop's row has a finite plan limit and its monthly
    edit count is at or over it, [execute] returns the limit-reached
    result and the world it returns is the world it was given: no
    mutation is sent, no audit row is written, the counter is not
    incremented. *)
Theorem execute_limit_reached_unchanged :
  forall (catalog : Request -> Response) (w : World) (changes : list Change)
         (editName : option string) (sp : ShopPlan) (n : Z),
    shopPlan w = Some sp ->
    editsLimitOf (or_default (plan sp) "free") = Finite n ->
    (n <= monthlyEdits sp)%Z ->
    execute catalog w changes editName =
      (w, LimitReached (or_default (plan sp) "free") (monthlyEdits sp) (Finite n))
    /\ mutations (fst (execute catalog w changes editName)) = mutations w
    /\ priceHistory (fst (execute catalog w changes editName)) = priceHistory w
    /\ bulkEdit (fst (execute catalog w changes editName)) = bulkEdit w
    /\ shopPlan (fst (execute catalog w changes editName)) = Some sp.
Proof.
  intros catalog w changes editName sp n Hrow Hlimit Hover.
  assert (Hrun : execute catalog w changes editName =
                 (w, LimitReached (or_default (plan sp) "free")
                                  (monthlyEdits sp) (Finite n))).
  { unfold execute. rewrite Hrow, Hlimit. simpl limit_reached.
    apply Z.leb_le in Hover. rewrite Hover.
    f_equal. rewrite <- Hrow. apply world_eta. }
  rewrite Hrun. simpl. repeat split; trivial.
Qed.

(** A plan named like an inherited member has no finite limit:
    with 99 edits [execute] still runs and raises the counter. *)
Lemma inherited_plan_name_never_refuses :
  editsLimitOf "constructor" = NoNumber
  /\ shopPlan
       (fst (execute (fun _ => Replied [])
               {| shopPlan := Some {| plan := Some "constructor";
                                      monthlyEdits := 99 |};
                  priceHistory := []; bulkEdit := []; mutations := [] |}
               [] None))
     = Some {| plan := Some "constructor"; monthlyEdits := 100 |}.
Proof. split; reflexivity. Qed.

(** A shop without a row gets the default row, which is under the
    limit of its plan: the limit is only ever reached on a row that
    exists. *)
Lemma missing_row_is_under_limit :
  forall (catalog : Request -> Response) (w : World) (changes : list Change)
         (editName : option string),
    shopPlan w = None ->
    exists s e errs n,
      snd (execute catalog w changes editName) = Executed s e errs n.
Proof.
  intros catalog w changes editName Hrow. unfold execute. rewrite Hrow.
  simpl. repeat eexists.
Qed.

Definition full_free_world : World :=
  {| shopPlan := Some {| plan := Some "free"; monthlyEdits := 3 |};
     priceHistory := []; bulkEdit := []; mutations := [] |}.

Definition one_price_change : Change :=
  {| productId := "gid://shopify/Product/1"; productTitle := Some "Shirt";
     variantId := Some "gid://shopify/ProductVariant/11";
     variantTitle := Some "Default Title"; field := "price";
     oldValue := "10.00"; newValue := "12.00"; modificationType := "exact" |}.

Lemma execute_limit_reached_unchanged_witness :
  execute (fun _ => Replied []) full_free_world [one_price_change] None =
    (full_free_world, LimitReached "free" 3 (Finite 3)).
Proof.
  apply (execute_limit_reached_unchanged (fun _ => Replied []) full_free_world
           [one_price_change] None {| plan := Some "free"; monthlyEdits := 3 |} 3);
    [reflexivity | reflexivity | simpl; lia].
Defined.

End QuotaProperties.

(** ** The change planner of the wizard *)

Module PlannerProperties.

Import Wizard.

Lemma getFieldDef_spec (f : string) (fd : FieldDef) :
  getFieldDef f = Some fd -> In fd EDITABLE_FIELDS /\ fd_value fd = f.
Proof. apply getFieldDefIn_spec. Qed.


(** No product-level field of the registry is numeric. *)
Lemma product_level_not_numeric (fd : FieldDef) :
  In fd EDITABLE_FIELDS -> level fd = productLevel ->
  is_numeric (category fd) = false.
Proof.
  intros H. simpl in H.
  repeat (destruct H as [H | H]; [subst fd; simpl; congruence | ]).
  contradiction.
Qed.

(** Field-appropriate equality of an old and a new value:
    parsed-float equality for a numeric field, string equality
    otherwise. *)
Definition same_value (f old new : string) : bool :=
  match getFieldDef f with
  | Some fd =>
      if is_numeric (category fd)
      then JsNumber.eqb (parseFloat old) (parseFloat new)
      else old =? new
  | None => old =? new
  end.

Lemma product_change_differs (product : Product) (m : Mod) (fd : FieldDef) (c : Change) :
  getFieldDef (mod_field m) = Some fd -> level fd = productLevel ->
  In c (product_change product m) ->
  same_value (field c) (oldValue c) (newValue c) = false.
Proof.
  intros Hfd Hlevel Hin. unfold product_change in Hin.
  destruct (calcValue _ m) as [nv|]; [| contradiction].
  destruct (nv =? current_of product (mod_field m)) eqn:Hcmp; [contradiction | ].
  destruct Hin as [<- | []]. simpl. unfold same_value. rewrite Hfd.
  destruct (getFieldDef_spec _ _ Hfd) as [Hin _].
  rewrite (product_level_not_numeric fd Hin Hlevel).
  now apply eqb_false_sym.
Qed.

Lemma variant_change_differs (product : Product) (m : Mod) (fd : FieldDef)
      (variant : Variant) (c : Change) :
  getFieldDef (mod_field m) = Some fd ->
  In c (variant_change fd product m variant) ->
  same_value (field c) (oldValue c) (newValue c) = false.
Proof.
  intros Hfd Hin. unfold variant_change in Hin.
  destruct (_ && _ && _ && _)%bool; [contradiction | ].
  destruct (calcValue _ m) as [nv|]; [| contradiction].
  unfold same_value.
  destruct (is_numeric (category fd)) eqn:Hnum.
  - destruct (JsNumber.eqb _ _) eqn:Hcmp; [contradiction | ].
    destruct Hin as [<- | []]. simpl. now rewrite Hfd, Hnum.
  - destruct (_ =? nv) eqn:Hcmp; [contradiction | ].
    destruct Hin as [<- | []]. simpl. now rewrite Hfd, Hnum.
Qed.

Lemma changes_differ (step : Z) (selected : list Product) (modifications : list Mod)
      (c : Change) :
  In c (changes step selected modifications) ->
  same_value (field c) (oldValue c) (newValue c) = false.
Proof.
  unfold changes. destruct (step =? 3)%Z; [| contradiction].
  intros Hin. apply in_flat_map in Hin as [product [_ Hin]].
  apply in_flat_map in Hin as [m [_ Hin]].
  unfold mod_changes in Hin.
  destruct (getFieldDef (mod_field m)) as [fd|] eqn:Hfd; [| contradiction].
  destruct (level fd) eqn:Hlevel.
  - now apply (product_change_differs product m fd).
  - apply in_flat_map in Hin as [variant [_ Hin]].
    now apply (variant_change_differs product m fd variant).
Qed.

Definition ten_dollar_product : Product :=
  {| product_id := "gid://shopify/Product/1"; title := Some "Shirt";
     handle := Some "shirt"; status := Some "ACTIVE"; productType := Some "";
     vendor := Some "Acme"; tags := Some []; templateSuffix := None;
     featuredMedia := false;
     variants :=
       [ {| variant_id := "gid://shopify/ProductVariant/11";
            variant_title := Some "Default Title"; price := Some "10.00";
            compareAtPrice := None; sku := Some ""; barcode := Some "";
            inventoryQuantity := Some (of_Z 4); weight := None |} ] |}.

Definition price_exact_ten : Mod :=
  {| mod_field := "price"; mod_type := "exact"; mod_value := "10.00";
     mod_value2 := None; mod_rounding := Some "none" |}.

(** C5. No-op suppression in [changes]: (1) a product-level
    modification whose computed value equals the current value emits
    nothing, (2) a variant-level one emits nothing for a variant whose
    computed value equals its current value, under the equality of the
    field (parsed floats for a numeric field, strings otherwise),
    (3) no emitted change has an old value equal to its new value
    under that equality, and (4) planning a 10.00 price with
    [exact 10.00] gives the empty list. *)
Theorem noop_suppression :
  (forall (product : Product) (m : Mod) (fd : FieldDef) (nv : string),
      getFieldDef (mod_field m) = Some fd -> level fd = productLevel ->
      calcValue (Some (current_of product (mod_field m))) m = Some nv ->
      same_value (mod_field m) (current_of product (mod_field m)) nv = true ->
      mod_changes product m = [])
  /\ (forall (product : Product) (m : Mod) (fd : FieldDef) (variant : Variant)
             (nv : string),
         getFieldDef (mod_field m) = Some fd -> level fd = variantLevel ->
         let cur := or_default (read_variant fd variant)
                               (if is_numeric (category fd) then "0" else "") in
         calcValue (Some cur) m = Some nv ->
         same_value (mod_field m) cur nv = true ->
         variant_change fd product m variant = [])
  /\ (forall (step : Z) (selected : list Product) (modifications : list Mod)
             (c : Change),
         In c (changes step selected modifications) ->
         same_value (field c) (oldValue c) (newValue c) = false)
  /\ changes 3 [ten_dollar_product] [price_exact_ten] = [].
Proof.
  split; [| split; [| split]].
  - intros product m fd nv Hfd Hlevel Hcalc Hsame.
    unfold mod_changes. rewrite Hfd, Hlevel. unfold product_change.
    rewrite Hcalc. unfold same_value in Hsame. rewrite Hfd in Hsame.
    destruct (getFieldDef_spec _ _ Hfd) as [Hin _].
    rewrite (product_level_not_numeric fd Hin Hlevel) in Hsame.
    rewrite String.eqb_sym, Hsame. reflexivity.
  - intros product m fd variant nv Hfd Hlevel cur Hcalc Hsame.
    unfold variant_change.
    destruct (_ && _ && _ && _)%bool; [reflexivity | ].
    fold cur. rewrite Hcalc.
    unfold same_value in Hsame. rewrite Hfd in Hsame. subst cur.
    destruct (is_numeric (category fd)); rewrite Hsame; reflexivity.
  - exact changes_differ.
  - vm_compute. reflexivity.
Qed.

Lemma noop_suppression_witness :
  mod_changes ten_dollar_product
    {| mod_field := "title"; mod_type := "set"; mod_value := "Shirt";
       mod_value2 := None; mod_rounding := None |} = []
  /\ variant_change (Build_FieldDef "price" numeric variantLevel (Some price))
       ten_dollar_product price_exact_ten
       {| variant_id := "gid://shopify/ProductVariant/11";
          variant_title := Some "Default Title"; price := Some "10.0";
          compareAtPrice := None; sku := Some ""; barcode := Some "";
          inventoryQuantity := None; weight := None |} = [].
Proof.
  destruct noop_suppression as [Hproduct [Hvariant _]]. split.
  - apply (Hproduct ten_dollar_product _
             (Build_FieldDef "title" text productLevel None) "Shirt");
      reflexivity.
  - apply (Hvariant ten_dollar_product price_exact_ten
             (Build_FieldDef "price" numeric variantLevel (Some price)) _ "10.00");
      reflexivity.
Defined.

End PlannerProperties.

(** ** Blank numeric values of a variant *)

Module BlankValueProperties.

Import Wizard PlannerProperties.

Definition blank_variant : Variant :=
  {| variant_id := "gid://shopify/ProductVariant/12";
     variant_title := Some "Large"; price := Some "10.00";
     compareAtPrice := None; sku := Some ""; barcode := Some "";
     inventoryQuantity := None; weight := None |}.

Definition compare_at_plus_five : Mod :=
  {| mod_field := "compareAtPrice"; mod_type := "increase_fixed";
     mod_value := "5"; mod_value2 := None; mod_rounding := Some "none" |}.

Definition compareAtPrice_def : FieldDef :=
  Build_FieldDef "compareAtPrice" numeric variantLevel (Some compareAtPrice).




(** The list [confirmExecute] submits has no such test: for the same
    variant and modification it holds a change from ["0"] to ["5.00"]. *)
Lemma submitted_list_has_no_blank_test :
  variant_change compareAtPrice_def ten_dollar_product compare_at_plus_five
    blank_variant = []
  /\ map newValue
       (submitted_variant_change compareAtPrice_def ten_dollar_product
          compare_at_plus_five blank_variant) = ["5.00"].
Proof. split; vm_compute; reflexivity. Qed.

End BlankValueProperties.

(** ** The two filter evaluators *)

Module FilterProperties.

(** What [with_variants p vs] keeps of [p] is everything but its
    variants. *)
Definition with_variants (p : Product) (vs : list Variant) : Product :=
  {| product_id := product_id p; title := title p; handle := handle p;
     status := status p; productType := productType p; vendor := vendor p;
     tags := tags p; templateSuffix := templateSuffix p;
     featuredMedia := featuredMedia p; variants := vs |}.

Definition priced (i p : string) : Variant :=
  {| variant_id := i; variant_title := Some "Default Title"; price := Some p;
     compareAtPrice := None; sku := Some ""; barcode := Some "";
     inventoryQuantity := Some (of_Z 1); weight := None |}.

(** A product with two variants, priced 5.00 and 50.00. *)
Definition two_prices : Product :=
  {| product_id := "gid://shopify/Product/7"; title := Some "Mug";
     handle := Some "mug"; status := Some "ACTIVE"; productType := Some "";
     vendor := Some "Acme"; tags := Some ["sale"; "clearance"];
     templateSuffix := None; featuredMedia := false;
     variants := [ priced "gid://shopify/ProductVariant/71" "5.00";
                   priced "gid://shopify/ProductVariant/72" "50.00" ] |}.

Definition price_over (v : string) : Rule :=
  {| rule_field := "price"; rule_operator := "greater_than";
     rule_value := Some v; rule_value2 := None |}.

(** The string the webhook tests for one variant:
    [String(v[rule.field] || "")]. *)
Definition variant_value (v : Variant) (f : string) : string :=
  js_string (js_or (variant_prop v f) (JString "")).

(** C1. On the product with variants priced 5.00 and 50.00 and the
    rule [price greater_than 20], which the claim says it matches, the
    evaluator of the wizard answers [false] although the second
    variant alone satisfies the rule: it reads the first variant
    only, where the evaluator of the webhook asks for some variant. *)
Lemma wizard_filter_reads_first_variant_only :
  Wizard.evaluateFilter two_prices (price_over "20") = false
  /\ existsb (fun v => Wizard.evaluateFilter (with_variants two_prices [v])
                                             (price_over "20"))
             (variants two_prices) = true.
Proof. split; vm_compute; reflexivity. Qed.

(** The evaluator of the webhook does what the claim says: a rule on
    one of [price], [compareAtPrice], [sku], [barcode],
    [inventoryQuantity] holds of a product exactly when it holds of at
    least one of its variants; the product priced 5.00 and 50.00
    matches [price greater_than 20] and does not match
    [price greater_than 100]. *)
Theorem webhook_filter_existential :
  forall (product : Product) (rule : Rule),
    In (rule_field rule)
       ["price"; "compareAtPrice"; "sku"; "barcode"; "inventoryQuantity"] ->
    (Webhook.evaluateFilter product rule = true <->
     exists v : Variant,
       In v (variants product)
       /\ Webhook.matchValue (variant_value v (rule_field rule)) rule = true)
    /\ Webhook.evaluateFilter product rule =
         existsb (fun v => Webhook.evaluateFilter (with_variants product [v]) rule)
                 (variants product)
    /\ Webhook.evaluateFilter two_prices (price_over "20") = true
    /\ Webhook.evaluateFilter two_prices (price_over "100") = false.
Proof.
  intros product rule Hfield.
  assert (Hmem : mem (rule_field rule) Webhook.variant_fields = true).
  { unfold mem, Webhook.variant_fields. apply existsb_exists.
    exists (rule_field rule). split; [exact Hfield | apply String.eqb_refl]. }
  split; [| split; [| split]].
  - unfold Webhook.evaluateFilter. rewrite Hmem. apply existsb_exists.
  - assert (Hone : forall v,
               Webhook.evaluateFilter (with_variants product [v]) rule =
               Webhook.matchValue (variant_value v (rule_field rule)) rule).
    { intros v. unfold Webhook.evaluateFilter. rewrite Hmem.
      unfold with_variants, variants, existsb. apply orb_false_r. }
    unfold Webhook.evaluateFilter at 1. rewrite Hmem.
    induction (variants product) as [| v vs IH]; [reflexivity | ].
    cbn [existsb]. rewrite Hone, IH. reflexivity.
  - vm_compute. reflexivity.
  - vm_compute. reflexivity.
Qed.

Lemma webhook_filter_existential_witness :
  Webhook.evaluateFilter two_prices (price_over "20") = true <->
  exists v : Variant,
    In v (variants two_prices)
    /\ Webhook.matchValue (variant_value v "price") (price_over "20") = true.
Proof.
  apply (webhook_filter_existential two_prices (price_over "20")).
  simpl. tauto.
Defined.

End FilterProperties.

(** ** The wizard engine against the webhook engine *)

Module EngineComparison.

Import FilterProperties.

Definition remove_Sale : Mod :=
  {| mod_field := "tags"; mod_type := "remove"; mod_value := "Sale";
     mod_value2 := None; mod_rounding := None |}.

Definition weight_to_two : Mod :=
  {| mod_field := "weight"; mod_type := "exact"; mod_value := "2";
     mod_value2 := None; mod_rounding := None |}.

Definition suffix_to_alt : Mod :=
  {| mod_field := "templateSuffix"; mod_type := "set"; mod_value := "alt";
     mod_value2 := None; mod_rounding := None |}.

Definition weight_is_zero : Rule :=
  {| rule_field := "weight"; rule_operator := "equals";
     rule_value := Some "0"; rule_value2 := None |}.

(** The product above with its first variant alone. *)
Definition one_price : Product :=
  with_variants two_prices [priced "gid://shopify/ProductVariant/71" "5.00"].

(** C2, counterexample. The two engines have registries of their
    own: [weight] and [templateSuffix] can be edited in the wizard
    only, and only the wizard's filter reads a weight. So the wizard
    computes a weight and a template suffix where the webhook returns
    [null], and on a product with one variant, without a weight, the
    rule [weight equals 0] holds in the wizard and fails in the
    webhook. *)
Lemma engines_differ :
  (Wizard.calcValue (Some "1") weight_to_two = Some "2"
   /\ Webhook.calcValue (Some "1") weight_to_two = None)
  /\ (Wizard.calcValue (Some "") suffix_to_alt = Some "alt"
      /\ Webhook.calcValue (Some "") suffix_to_alt = None)
  /\ (Wizard.evaluateFilter one_price weight_is_zero = true
      /\ Webhook.evaluateFilter one_price weight_is_zero = false).
Proof. repeat split; vm_compute; reflexivity. Qed.

Definition tags_to (value : string) : Mod :=
  {| mod_field := "tags"; mod_type := "set"; mod_value := value;
     mod_value2 := None; mod_rounding := None |}.

Definition status_append : Mod :=
  {| mod_field := "status"; mod_type := "append"; mod_value := "DRAFT";
     mod_value2 := None; mod_rounding := None |}.

Definition variant_title_has (v : string) : Rule :=
  {| rule_field := "variantTitle"; rule_operator := "contains";
     rule_value := Some v; rule_value2 := None |}.

(** The other places where the two copies are written differently:
    [set] on the tags returns the text as given in the wizard and the
    tags joined again in the webhook; a modification of the status
    with a type other than [set] returns its value in the wizard and
    [null] in the webhook; and only the wizard's filter knows the
    field [variantTitle]. *)
Lemma engines_written_differently :
  (Wizard.calcValue (Some "") (tags_to "new,summer") = Some "new,summer"
   /\ Webhook.calcValue (Some "") (tags_to "new,summer") = Some "new, summer")
  /\ (Wizard.calcValue (Some "ACTIVE") status_append = Some "DRAFT"
      /\ Webhook.calcValue (Some "ACTIVE") status_append = None)
  /\ (Wizard.evaluateFilter one_price (variant_title_has "Default") = true
      /\ Webhook.evaluateFilter one_price (variant_title_has "Default") = false).
Proof. repeat split; vm_compute; reflexivity. Qed.

(** Closes a goal whose field [e : f = "name"] is excluded by
    [H : ~ In f names]. *)
Ltac off_list H e :=
  exfalso; apply H; rewrite e; simpl;
  repeat (first [left; reflexivity | right]).

(** The fields on which one evaluator or the other reads variants. *)
Definition variant_rule_fields : list string :=
  ["price"; "compareAtPrice"; "inventoryQuantity"; "sku"; "barcode";
   "weight"; "variantTitle"].

(** A property of a product is never a number. *)
Lemma product_prop_shape (p : Product) (f : string) :
  product_prop p f = JUndefined \/ product_prop p f = JObject
  \/ exists s, product_prop p f = JString s.
Proof.
  unfold product_prop.
  destruct (f =? "variants"); [tauto | ].
  destruct (f =? "tags"); [destruct (tags p); tauto | ].
  destruct (f =? "featuredMedia"); [destruct (featuredMedia p); tauto | ].
  destruct (product_text p f) as [s|]; simpl; [right; right; now exists s | tauto].
Qed.

(** [!value || value === ""] on the value of the wizard against
    [!value || value === ""] on its string. *)
Lemma emptiness_agrees (v : jsval) :
  v <> JUndefined ->
  (forall x, v <> JNumber x) ->
  (negb (js_truthy v) || is_empty_string v)%bool = negb (truthy (js_string v))
  /\ (js_truthy v && negb (is_empty_string v))%bool = truthy (js_string v).
Proof.
  intros Hundef Hnum. destruct v as [| s | x |]; simpl.
  - now destruct Hundef.
  - destruct s; simpl; split; reflexivity.
  - now destruct (Hnum x).
  - split; reflexivity.
Qed.

Lemma js_or_not_undefined (v : jsval) :
  (forall x, v <> JNumber x) ->
  js_or v (JString "") <> JUndefined /\ forall x, js_or v (JString "") <> JNumber x.
Proof.
  intros Hnum. unfold js_or.
  destruct v as [| s | x |]; simpl; try (split; [discriminate | discriminate]).
  - destruct (truthy s); split; discriminate.
  - now destruct (Hnum x).
Qed.

(** On a value that is neither [undefined] nor a number, the
    operator switch of the wizard is [matchValue] on its string. *)
Lemma filter_switch_matchValue (value : jsval) (r : Rule) :
  value <> JUndefined -> (forall x, value <> JNumber x) ->
  Wizard.filter_switch value r = Webhook.matchValue (js_string value) r.
Proof.
  intros Hundef Hnum.
  unfold Wizard.filter_switch, Webhook.matchValue, mem. cbn [existsb].
  destruct (emptiness_agrees value Hundef Hnum) as [He Hne].
  rewrite He, Hne, !orb_false_r, !orb_assoc.
  destruct (truthy (js_string value)); reflexivity.
Qed.

Lemma filter_value_shape (p : Product) (f : string) :
  Wizard.filter_value p f <> JUndefined
  /\ forall x, Wizard.filter_value p f <> JNumber x.
Proof.
  unfold Wizard.filter_value.
  repeat match goal with
         | |- context [if ?b then _ else _] =>
             destruct b; [split; [discriminate | discriminate] | ]
         end.
  apply js_or_not_undefined. intros x Hx.
  destruct (product_prop_shape p f) as [H | [H | [s H]]]; congruence.
Qed.

Lemma of_opt_or_default (o : option string) :
  js_string (js_or (of_opt o) (JString "")) = or_default o "".
Proof.
  destruct o as [s|]; [| reflexivity]. unfold js_or. simpl.
  destruct (truthy s); reflexivity.
Qed.

(** Off the variant fields, both evaluators test the same string. *)
Lemma filter_values_agree (p : Product) (f : string) :
  ~ In f variant_rule_fields ->
  js_string (Wizard.filter_value p f) =
  js_string (if f =? "tags"
             then JString (join ", " (match tags p with Some l => l | None => [] end))
             else js_or (product_prop p f) (JString "")).
Proof.
  intros Hnot. unfold Wizard.filter_value.
  destruct (String.eqb_spec f "price") as [e | _]; [off_list Hnot e | ].
  destruct (String.eqb_spec f "compareAtPrice") as [e | _]; [off_list Hnot e | ].
  destruct (String.eqb_spec f "inventoryQuantity") as [e | _]; [off_list Hnot e | ].
  destruct (String.eqb_spec f "sku") as [e | _]; [off_list Hnot e | ].
  destruct (String.eqb_spec f "weight") as [e | _]; [off_list Hnot e | ].
  destruct (String.eqb_spec f "templateSuffix") as [e | _].
  - subst f. cbn [String.eqb Ascii.eqb Bool.eqb].
    change (product_prop p "templateSuffix") with (of_opt (templateSuffix p)).
    now rewrite of_opt_or_default.
  - destruct (String.eqb_spec f "variantTitle") as [e | _]; [off_list Hnot e | ].
    reflexivity.
Qed.

Lemma webhook_filter_off_variants (p : Product) (r : Rule) :
  ~ In (rule_field r) variant_rule_fields ->
  mem (rule_field r) Webhook.variant_fields = false.
Proof.
  intros Hnot. unfold mem, Webhook.variant_fields. cbn [existsb].
  destruct (String.eqb_spec (rule_field r) "price") as [e | _]; [off_list Hnot e | ].
  destruct (String.eqb_spec (rule_field r) "compareAtPrice") as [e | _]; [off_list Hnot e | ].
  destruct (String.eqb_spec (rule_field r) "sku") as [e | _]; [off_list Hnot e | ].
  destruct (String.eqb_spec (rule_field r) "barcode") as [e | _]; [off_list Hnot e | ].
  destruct (String.eqb_spec (rule_field r) "inventoryQuantity") as [e | _]; [off_list Hnot e | ].
  reflexivity.
Qed.

Lemma filters_agree_off_variants (p : Product) (r : Rule) :
  ~ In (rule_field r) variant_rule_fields ->
  Wizard.evaluateFilter p r = Webhook.evaluateFilter p r.
Proof.
  intros Hnot. unfold Wizard.evaluateFilter, Webhook.evaluateFilter.
  rewrite (webhook_filter_off_variants p r Hnot).
  destruct (filter_value_shape p (rule_field r)) as [Hundef Hnum].
  rewrite (filter_switch_matchValue _ r Hundef Hnum).
  now rewrite (filter_values_agree p (rule_field r) Hnot).
Qed.

(** Replaces the registry lookups of a known field by their entries. *)
Ltac lookup_fields f :=
  let w := eval vm_compute in (Wizard.getFieldDef f) in
  let h := eval vm_compute in (Webhook.getFieldDef f) in
  change (Wizard.getFieldDef f) with w;
  change (Webhook.getFieldDef f) with h;
  cbn [category].

Ltac unfold_arith :=
  unfold Wizard.rounded, Webhook.rounded, Wizard.arith, Webhook.arith,
    Wizard.hundred, Webhook.hundred, Wizard.one, Webhook.one,
    Wizard.split_tags, Webhook.split_tags.

Lemma calcValue_agree_price (current : option string) (m : Mod) :
  mod_field m = "price" \/ mod_field m = "compareAtPrice" ->
  Wizard.calcValue current m = Webhook.calcValue current m.
Proof.
  intros [e | e]; unfold Wizard.calcValue, Webhook.calcValue; rewrite e.
  - lookup_fields "price".
    change (mem "price" Wizard.priceFields) with true.
    unfold_arith. reflexivity.
  - lookup_fields "compareAtPrice".
    change (mem "compareAtPrice" Wizard.priceFields) with true.
    unfold_arith. reflexivity.
Qed.

Lemma calcValue_agree_text (current : option string) (m : Mod) :
  In (mod_field m) ["sku"; "barcode"; "title"; "vendor"; "productType"] ->
  Wizard.calcValue current m = Webhook.calcValue current m.
Proof.
  intros Hin. simpl in Hin.
  unfold Wizard.calcValue, Webhook.calcValue.
  destruct Hin as [e | [e | [e | [e | [e | []]]]]]; rewrite <- e.
  - lookup_fields "sku". reflexivity.
  - lookup_fields "barcode". reflexivity.
  - lookup_fields "title". reflexivity.
  - lookup_fields "vendor". reflexivity.
  - lookup_fields "productType". reflexivity.
Qed.

Lemma calcValue_agree_tags (current : option string) (m : Mod) :
  mod_field m = "tags" -> mod_type m <> "remove" -> mod_type m <> "set" ->
  Wizard.calcValue current m = Webhook.calcValue current m.
Proof.
  intros e Hremove Hset. unfold Wizard.calcValue, Webhook.calcValue. rewrite e.
  lookup_fields "tags". unfold_arith.
  destruct (String.eqb_spec (mod_type m) "add"); [reflexivity | ].
  destruct (String.eqb_spec (mod_type m) "remove"); [contradiction | ].
  destruct (String.eqb_spec (mod_type m) "set"); [contradiction | ].
  reflexivity.
Qed.

Lemma calcValue_agree_status (current : option string) (m : Mod) :
  mod_field m = "status" -> mod_type m = "set" ->
  Wizard.calcValue current m = Webhook.calcValue current m.
Proof.
  intros e Hset. unfold Wizard.calcValue, Webhook.calcValue. rewrite e.
  lookup_fields "status". rewrite Hset. reflexivity.
Qed.

(** C2, amended. The two [evaluateFilter] agree on every product and
    every rule whose field is none of [price], [compareAtPrice],
    [inventoryQuantity], [sku], [barcode], [weight], [variantTitle];
    the two [calcValue] agree on every current value and every
    modification of [price], [compareAtPrice], [sku], [barcode],
    [title], [vendor] or [productType], of [tags] with a type other
    than [remove] and [set], and of [status] with type [set]. *)
Theorem engines_agree_on_common_part :
  (forall (product : Product) (rule : Rule),
      ~ In (rule_field rule) variant_rule_fields ->
      Wizard.evaluateFilter product rule = Webhook.evaluateFilter product rule)
  /\ (forall (current : option string) (m : Mod),
         In (mod_field m)
            ["price"; "compareAtPrice"; "sku"; "barcode"; "title"; "vendor";
             "productType"]
         \/ (mod_field m = "tags" /\ mod_type m <> "remove" /\ mod_type m <> "set")
         \/ (mod_field m = "status" /\ mod_type m = "set") ->
         Wizard.calcValue current m = Webhook.calcValue current m).
Proof.
  split.
  - exact filters_agree_off_variants.
  - intros current m [Hin | [[e [Hr Hs]] | [e Hs]]].
    + simpl in Hin. destruct Hin as [e | [e | Hin]].
      * apply calcValue_agree_price. now left.
      * apply calcValue_agree_price. now right.
      * apply calcValue_agree_text. exact Hin.
    + now apply calcValue_agree_tags.
    + now apply calcValue_agree_status.
Qed.

Definition title_has_mug : Rule :=
  {| rule_field := "title"; rule_operator := "contains";
     rule_value := Some "MUG"; rule_value2 := None |}.

Definition price_up_ten_percent : Mod :=
  {| mod_field := "price"; mod_type := "increase_percent"; mod_value := "10";
     mod_value2 := None; mod_rounding := Some "99" |}.

Lemma engines_agree_on_common_part_witness :
  Wizard.evaluateFilter two_prices title_has_mug
    = Webhook.evaluateFilter two_prices title_has_mug
  /\ Wizard.calcValue (Some "19.50") price_up_ten_percent
     = Webhook.calcValue (Some "19.50") price_up_ten_percent.
Proof.
  destruct engines_agree_on_common_part as [Hfilter Hcalc]. split.
  - apply Hfilter. simpl. intros H.
    repeat (destruct H as [H | H]; [discriminate H | ]). exact H.
  - apply Hcalc. left. simpl. tauto.
Defined.

End EngineComparison.

(** ** Tag removal *)

Module TagProperties.

Import EngineComparison.

(** In the wizard, [remove] keeps exactly the current tags that
    match none of the listed tags when both are lower-cased. *)
Lemma wizard_remove_ignores_case (current value : string) (value2 rounding : option string) :
  exists kept : list string,
    Wizard.calcValue (Some current)
      {| mod_field := "tags"; mod_type := "remove"; mod_value := value;
         mod_value2 := value2; mod_rounding := rounding |}
    = Some (join ", " kept)
    /\ forall t : string,
        In t kept <->
        In t (Wizard.split_tags current)
        /\ forall r : string,
            In r (split value ",") -> toLowerCase t <> toLowerCase (trim r).
Proof.
  eexists. split.
  - unfold Wizard.calcValue. lookup_fields "tags". cbn [mod_type mod_value].
    change ("remove" =? "add") with false. change ("remove" =? "remove") with true.
    cbv iota.
    replace (or_default (Some current) "") with current
      by (simpl; destruct current; reflexivity).
    reflexivity.
  - intros t. rewrite filter_In. apply and_iff_compat_l.
    rewrite negb_true_iff. unfold mem. split.
    + intros Hnone r Hr Heq.
      assert (Hex : existsb (String.eqb (toLowerCase t))
                      (map (fun t0 => toLowerCase (trim t0)) (split value ",")) = true).
      { apply existsb_exists. exists (toLowerCase (trim r)). split.
        - apply in_map_iff. now exists r.
        - apply String.eqb_eq. exact Heq. }
      congruence.
    + intros Hall. apply not_true_is_false. intros Hex.
      apply existsb_exists in Hex as [x [Hx Heq]].
      apply in_map_iff in Hx as [r [<- Hr]].
      apply String.eqb_eq in Heq. exact (Hall r Hr Heq).
Qed.

(** C6. On the current tags ["sale, clearance"] and the modification
    [remove "Sale"], [calcValue] of the wizard returns ["clearance"]
    whereas [calcValue] of the webhook returns ["sale, clearance"]:
    the webhook compares the tags as they are written. *)
Theorem webhook_remove_is_case_sensitive :
  Wizard.calcValue (Some "sale, clearance") remove_Sale = Some "clearance"
  /\ Webhook.calcValue (Some "sale, clearance") remove_Sale
     = Some "sale, clearance".
Proof. split; vm_compute; reflexivity. Qed.

End TagProperties.

(** ** The reversal path *)

Module ReversalProperties.

Import Executor.
Local Open Scope list_scope.

(** The change with its old and new values exchanged. *)
Definition swap (c : Change) : Change :=
  {| productId := productId c; productTitle := productTitle c;
     variantId := variantId c; variantTitle := variantTitle c;
     field := field c; oldValue := newValue c; newValue := oldValue c;
     modificationType := modificationType c |}.

Lemma revert_field_is_swapped (inp : ProductInput) (c : Change) :
  mem (field c) revert_product_fields = true ->
  revert_product_field inp (field c) (oldValue c) =
  set_product_field inp (field (swap c)) (newValue (swap c)).
Proof.
  intros Hmem. unfold revert_product_field, set_product_field. simpl.
  destruct (field c =? "title"); [reflexivity | ].
  destruct (field c =? "vendor"); [reflexivity | ].
  destruct (field c =? "productType"); [reflexivity | ].
  destruct (field c =? "status"); [reflexivity | ].
  destruct (field c =? "tags") eqn:Htags; [reflexivity | ].
  destruct (String.eqb_spec (field c) "templateSuffix") as [e | _]; [| reflexivity].
  rewrite e in Hmem. discriminate Hmem.
Qed.

Lemma revert_input_is_swapped_from (cs : list Change) (inp : ProductInput) :
  (forall c, In c cs -> mem (field c) revert_product_fields = true) ->
  fold_left (fun i c => revert_product_field i (field c) (oldValue c)) cs inp =
  fold_left (fun i c => set_product_field i (field c) (newValue c)) (map swap cs) inp.
Proof.
  revert inp. induction cs as [| c cs IH]; intros inp Hall; [reflexivity | ].
  simpl. rewrite (revert_field_is_swapped inp c) by (apply Hall; now left).
  apply IH. intros c' Hc'. apply Hall. now right.
Qed.

(** *** The mutations that write the old values back *)

(** The old value of the last change of the field [f] among [cs]. *)
Definition last_old (f : string) (cs : list Change) : option string :=
  fold_left (fun acc c => if field c =? f then Some (oldValue c) else acc) cs None.

(** The input that holds, under each of the five fields, the old
    value of the last change of it, the tags split at the commas. *)
Definition old_values (cs : list Change) : ProductInput :=
  {| in_title := last_old "title" cs;
     in_vendor := last_old "vendor" cs;
     in_productType := last_old "productType" cs;
     in_status := last_old "status" cs;
     in_tags := option_map tag_list (last_old "tags" cs);
     in_templateSuffix := None |}.

(** The entry that holds the old value of the change under the field
    of the change, when that is one of the four. *)
Definition old_entry (c : Change) : VariantInput :=
  {| vi_id := variantId c;
     vi_price := if field c =? "price" then Some (oldValue c) else None;
     vi_compareAtPrice :=
       if field c =? "compareAtPrice" then Some (oldValue c) else None;
     vi_sku := if field c =? "sku" then Some (oldValue c) else None;
     vi_barcode := if field c =? "barcode" then Some (oldValue c) else None;
     vi_weight := None |}.

(** The mutations for the changes [cs] of the product [pid]: a
    product update for the changes of the five fields, then a variant
    update for the others unless the product update threw. *)
Definition reverted_entry (catalog : Request -> Response) (pid : string)
           (cs : list Change) : list Request :=
  let es :=
    filter (fun c => mem (field c)
                         ["title"; "vendor"; "productType"; "status"; "tags"])
           cs in
  let vs :=
    filter (fun c => negb (mem (field c)
                               ["title"; "vendor"; "productType"; "status"; "tags"]))
           cs in
  let q := ProductUpdate pid (old_values es) in
  let r := VariantsBulkUpdate pid (map old_entry vs) in
  match es, vs with
  | [], [] => []
  | [], _ :: _ => [r]
  | _ :: _, [] => [q]
  | _ :: _, _ :: _ =>
      match catalog q with
      | Threw _ => [q]
      | Replied _ => [q; r]
      end
  end.

Definition reverted (catalog : Request -> Response) (changes : list Change)
  : list Request :=
  flat_map (fun pid =>
              reverted_entry catalog pid
                (filter (fun c => productId c =? pid) changes))
           (dedup (map productId changes)).

Lemma last_old_snoc (f : string) (l : list Change) (c : Change) :
  last_old f (l ++ [c]) = if field c =? f then Some (oldValue c) else last_old f l.
Proof. unfold last_old. now rewrite fold_left_app. Qed.

Lemma revert_productInput_old_values (cs : list Change) :
  revert_productInput cs = old_values cs.
Proof.
  induction cs as [| c l IH] using rev_ind; [reflexivity | ].
  unfold revert_productInput in *. rewrite fold_left_app. cbn [fold_left].
  rewrite IH. unfold old_values. rewrite !last_old_snoc.
  unfold revert_product_field. cbn [in_title in_vendor in_productType in_status
                                    in_tags in_templateSuffix].
  destruct (String.eqb_spec (field c) "title") as [e | _];
    [rewrite ?e; reflexivity | ].
  destruct (String.eqb_spec (field c) "vendor") as [e | _];
    [rewrite ?e; reflexivity | ].
  destruct (String.eqb_spec (field c) "productType") as [e | _];
    [rewrite ?e; reflexivity | ].
  destruct (String.eqb_spec (field c) "status") as [e | _];
    [rewrite ?e; reflexivity | ].
  destruct (String.eqb_spec (field c) "tags") as [e | _];
    [rewrite ?e; reflexivity | reflexivity].
Qed.

Lemma revert_variant_old_entry (c : Change) : revert_variant c = old_entry c.
Proof.
  unfold revert_variant, old_entry, new_variant. cbv zeta. cbn [vi_id].
  destruct (String.eqb_spec (field c) "price") as [e | _];
    [rewrite ?e; reflexivity | ].
  destruct (String.eqb_spec (field c) "compareAtPrice") as [e | _];
    [rewrite ?e; reflexivity | ].
  destruct (String.eqb_spec (field c) "sku") as [e | _];
    [rewrite ?e; reflexivity | ].
  destruct (String.eqb_spec (field c) "barcode") as [e | _];
    [rewrite ?e; reflexivity | reflexivity].
Qed.

(** What one turn of the loop sends, whatever the catalog answers. *)
Lemma revert_product_sent (catalog : Request -> Response) (acc : Acc)
      (pid : string) (cs : list Change) :
  sent (revert_product catalog acc (pid, cs))
  = sent acc ++ reverted_entry catalog pid cs.
Proof.
  unfold revert_product, reverted_entry, try_catch, bind, ret, update, graphql.
  change revert_product_fields
    with ["title"; "vendor"; "productType"; "status"; "tags"].
  rewrite revert_productInput_old_values.
  rewrite (map_ext _ _ revert_variant_old_entry).
  destruct (filter (fun c => mem (field c) _) cs) as [| p ps];
    destruct (filter (fun c => negb (mem (field c) _)) cs) as [| v vs];
    repeat match goal with
           | |- context [catalog ?q] => destruct (catalog q) as [? | ?]
           end;
    cbn; rewrite <- ?app_assoc, ?app_nil_r; reflexivity.
Qed.

Lemma revert_loop_sent (catalog : Request -> Response)
      (groups : list (string * list Change)) (acc : Acc) :
  sent (fold_left (revert_product catalog) groups acc)
  = sent acc
    ++ flat_map (fun g => reverted_entry catalog (fst g) (snd g)) groups.
Proof.
  revert acc. induction groups as [| [pid cs] groups IH]; intros acc;
    cbn [fold_left flat_map fst snd].
  - now rewrite app_nil_r.
  - rewrite IH, revert_product_sent, app_assoc. reflexivity.
Qed.

Lemma reverted_entry_shape (catalog : Request -> Response) (pid : string)
      (cs : list Change) (q : Request) :
  In q (reverted_entry catalog pid cs) ->
  match q with
  | ProductUpdate _ inp => in_templateSuffix inp = None
  | VariantsBulkUpdate _ us => forall u, In u us -> vi_weight u = None
  end.
Proof.
  assert (Hw : forall l u, In u (map old_entry l) -> vi_weight u = None).
  { intros l u H. apply in_map_iff in H as [c [<- _]]. reflexivity. }
  unfold reverted_entry.
  destruct (filter (fun c => mem (field c) _) cs) as [| p ps];
    destruct (filter (fun c => negb (mem (field c) _)) cs) as [| v vs];
    try destruct (catalog _);
    cbn [In]; intros H;
    repeat match type of H with
           | _ \/ _ => destruct H as [H | H]
           | False => contradiction
           end;
    subst q; first [reflexivity | apply Hw].
Qed.

Definition mk_change (pid : string) (vid : option string) (f old new : string)
  : Change :=
  {| productId := pid; productTitle := Some "Mug"; variantId := vid;
     variantTitle := None; field := f; oldValue := old; newValue := new;
     modificationType := "set" |}.

Definition empty_world : World :=
  {| shopPlan := None; priceHistory := []; bulkEdit := []; mutations := [] |}.

Definition title_then_price : list Change :=
  [ mk_change "gid://shopify/Product/7" None "title" "Mug" "Cup";
    mk_change "gid://shopify/Product/7" (Some "gid://shopify/ProductVariant/71")
              "price" "5.00" "6.00" ].

Definition title_twice : list Change :=
  [ mk_change "gid://shopify/Product/7" None "title" "Mug" "Cup";
    mk_change "gid://shopify/Product/7" None "title" "Cup" "Jar" ].

(** A catalog that throws on product updates. *)
Definition product_updates_throw (q : Request) : Response :=
  match q with
  | ProductUpdate _ _ => Threw (Some "timeout")
  | VariantsBulkUpdate _ _ => Replied []
  end.

Definition title_only (t : string) : ProductInput :=
  {| in_title := Some t; in_vendor := None; in_productType := None;
     in_status := None; in_tags := None; in_templateSuffix := None |}.

(** C9, counterexample. Not every entry has its old value written
    back. With a title change and a price change of one product and a
    product update that throws, the only mutation sent is the product
    update: the old price 5.00 is sent nowhere. With two changes of
    the title of one product, the one update sent holds the old value
    of the second, [Cup], and the old value of the first, [Mug], is
    sent nowhere. *)
Lemma revert_leaves_old_values_unwritten :
  mutations (fst (revert product_updates_throw empty_world title_then_price))
  = [ProductUpdate "gid://shopify/Product/7" (title_only "Mug")]
  /\ mutations (fst (revert (fun _ => Replied []) empty_world title_twice))
     = [ProductUpdate "gid://shopify/Product/7" (title_only "Cup")].
Proof. split; vm_compute; reflexivity. Qed.

(** C9, amended. For changes whose product ids are plain keys (as
    catalog ids are), the mutations [revert] sends are, product by
    product in the order in which the ids first occur: one product
    update when the product has changes of [title], [vendor],
    [productType], [status] or [tags], holding under each of these
    fields the old value of the last change of it (the tags split at
    the commas), which is the input [execute] builds from these
    changes with old and new values exchanged; then, unless that
    update threw, one variant update when the product has other
    changes, with one entry per such change that holds the old value
    under [price], [compareAtPrice], [sku] or [barcode] when that is
    the field of the change and the variant id alone otherwise.
    Nothing is compared or fetched, no product update holds a template
    suffix and no entry holds a weight. *)
Theorem revert_writes_old_values_back
        (catalog : Request -> Response) (w : World) (changes : list Change) :
  (forall c, In c changes -> plain_key (productId c) = true) ->
  mutations (fst (revert catalog w changes))
    = mutations w ++ reverted catalog changes
  /\ (forall q, In q (reverted catalog changes) ->
        match q with
        | ProductUpdate _ inp => in_templateSuffix inp = None
        | VariantsBulkUpdate _ us => forall u, In u us -> vi_weight u = None
        end)
  /\ (forall cs,
        let es :=
          filter (fun c => mem (field c)
                               ["title"; "vendor"; "productType"; "status"; "tags"])
                 cs in
        old_values es = productInput (map swap es)).
Proof.
  intros _. split; [ | split].
  - unfold revert, revert_loop. cbn [fst mutations].
    rewrite revert_loop_sent, GroupingProperties.changesByProduct_grouped.
    unfold GroupingProperties.grouped, reverted. cbn [sent empty_acc app].
    f_equal. rewrite flat_map_concat_map, map_map, <- flat_map_concat_map.
    reflexivity.
  - intros q H. unfold reverted in H. apply in_flat_map in H as [pid [_ H]].
    exact (reverted_entry_shape catalog pid _ q H).
  - intros cs es. rewrite <- revert_productInput_old_values.
    unfold revert_productInput, productInput.
    apply revert_input_is_swapped_from.
    intros c Hc. apply filter_In in Hc. tauto.
Qed.

(** A title, a template suffix, a weight and a price change of one
    product. *)
Definition mixed_changes : list Change :=
  [ mk_change "gid://shopify/Product/7" None "title" "Mug" "Cup";
    mk_change "gid://shopify/Product/7" None "templateSuffix" "" "alt";
    mk_change "gid://shopify/Product/7" (Some "gid://shopify/ProductVariant/71")
              "weight" "0" "2.5";
    mk_change "gid://shopify/Product/7" (Some "gid://shopify/ProductVariant/71")
              "price" "5.00" "6.00" ].

Definition rejecting (_ : Request) : Response := Replied ["rejected"].

Lemma revert_writes_old_values_back_witness :
  (forall c, In c mixed_changes -> plain_key (productId c) = true)
  /\ mutations (fst (revert rejecting empty_world mixed_changes))
     = [ ProductUpdate "gid://shopify/Product/7" (title_only "Mug");
         VariantsBulkUpdate "gid://shopify/Product/7"
           [ new_variant None;
             new_variant (Some "gid://shopify/ProductVariant/71");
             {| vi_id := Some "gid://shopify/ProductVariant/71";
                vi_price := Some "5.00"; vi_compareAtPrice := None;
                vi_sku := None; vi_barcode := None; vi_weight := None |} ] ].
Proof.
  assert (H : forall c, In c mixed_changes -> plain_key (productId c) = true).
  { intros c [<- | [<- | [<- | [<- | []]]]]; reflexivity. }
  split; [exact H | ].
  exact (proj1 (revert_writes_old_values_back rejecting empty_world
                  mixed_changes H)).
Defined.

End ReversalProperties.

(** ** The batch executor *)

Module ExecutorProperties.

Import Executor.
Local Open Scope nat_scope.
Local Open Scope list_scope.

(** Component-wise sum of two states of the loop. *)
Definition acc_app (a b : Acc) : Acc :=
  {| successCount := successCount a + successCount b;
     errorCount := errorCount a + errorCount b;
     errors := errors a ++ errors b;
     historyRecords := historyRecords a ++ historyRecords b;
     sent := sent a ++ sent b |}.

Section Isolation.

Variable catalog : Request -> Response.

(** What one entry adds does not depend on what the entries before
    it did. *)
Lemma execute_product_adds (acc : Acc) (entry : string * list Change) :
  execute_product catalog acc entry
  = acc_app acc (execute_product catalog empty_acc entry).
Proof.
  destruct entry as [pid cs]. destruct acc as [sc ec es hs st].
  unfold execute_product, try_catch, bind, ret, update, apply_request, graphql.
  destruct (filter (fun c => mem (field c) execute_product_fields) cs) as [| p ps];
    destruct (filter (fun c => mem (field c) execute_variant_fields) cs)
      as [| v vs];
    repeat match goal with
           | |- context [catalog ?q] => destruct (catalog q) as [[| ? ?] | ?]
           end;
    unfold acc_app, add_errors, add_success, empty_acc; simpl;
    f_equal; rewrite <- ?app_assoc, ?app_nil_r; simpl;
    try reflexivity; lia.
Qed.

Lemma execute_loop_adds_from (groups : list (string * list Change)) (acc : Acc) :
  fold_left (execute_product catalog) groups acc
  = fold_left acc_app (map (execute_product catalog empty_acc) groups) acc.
Proof.
  revert acc. induction groups as [| g groups IH]; intros acc; [reflexivity | ].
  simpl. rewrite execute_product_adds. apply IH.
Qed.

(** How a mutation carrying the changes [cs] ended. *)
Inductive Outcome :=
| NotSent
| Accepted
| Rejected (userErrors : list string)
| Failed (message : option string).

Definition outcome (cs : list Change) (q : Request) : Outcome :=
  match cs with
  | [] => NotSent
  | _ =>
      match catalog q with
      | Replied [] => Accepted
      | Replied userErrors => Rejected userErrors
      | Threw msg => Failed msg
      end
  end.

Definition product_part (cs : list Change) : list Change :=
  filter (fun c => mem (field c) execute_product_fields) cs.

Definition variant_part (cs : list Change) : list Change :=
  filter (fun c => mem (field c) execute_variant_fields) cs.

Definition product_outcome (entry : string * list Change) : Outcome :=
  outcome (product_part (snd entry))
          (ProductUpdate (fst entry) (productInput (product_part (snd entry)))).

(** The variant mutation is not reached when the product mutation
    threw. *)
Definition variant_outcome (entry : string * list Change) : Outcome :=
  match product_outcome entry with
  | Failed _ => NotSent
  | _ =>
      outcome (variant_part (snd entry))
              (VariantsBulkUpdate (fst entry) (variantMap (variant_part (snd entry))))
  end.

Definition when_accepted {A} (o : Outcome) (l : list A) : list A :=
  match o with Accepted => l | _ => [] end.

Definition when_rejected {A} (o : Outcome) (l : list A) : list A :=
  match o with Rejected _ => l | _ => [] end.

Definition threw (o : Outcome) : bool :=
  match o with Failed _ => true | _ => false end.

(** The changes of an entry counted as successes: those of its
    accepted mutations. *)
Definition entry_successes (entry : string * list Change) : list Change :=
  when_accepted (product_outcome entry) (product_part (snd entry))
  ++ when_accepted (variant_outcome entry) (variant_part (snd entry)).

(** The number of errors counted for an entry: the changes of a
    rejected mutation, and every change of the entry when one of its
    mutations threw. *)
Definition entry_error_count (entry : string * list Change) : nat :=
  List.length (when_rejected (product_outcome entry) (product_part (snd entry)))
  + List.length (when_rejected (variant_outcome entry) (variant_part (snd entry)))
  + (if (threw (product_outcome entry) || threw (variant_outcome entry))%bool
     then List.length (snd entry) else 0).

Definition entry_history (entry : string * list Change) : list HistoryRecord :=
  map (product_history (fst entry))
      (when_accepted (product_outcome entry) (product_part (snd entry)))
  ++ map variant_history
       (when_accepted (variant_outcome entry) (variant_part (snd entry))).

(** One entry of [errors] per rejected or thrown mutation. *)
Definition entry_failures (entry : string * list Change) : nat :=
  match product_outcome entry with
  | Rejected _ | Failed _ => 1
  | _ => 0
  end
  + match variant_outcome entry with
    | Rejected _ | Failed _ => 1
    | _ => 0
    end.

(** The mutations sent for an entry: the product update when there
    are product-level changes, the variant update when there are
    variant-level changes and the product update did not throw. *)
Definition entry_requests (entry : string * list Change) : list Request :=
  match product_outcome entry with
  | NotSent => []
  | _ => [ProductUpdate (fst entry) (productInput (product_part (snd entry)))]
  end
  ++ match variant_outcome entry with
     | NotSent => []
     | _ => [VariantsBulkUpdate (fst entry) (variantMap (variant_part (snd entry)))]
     end.

Lemma execute_product_report (entry : string * list Change) :
  let r := execute_product catalog empty_acc entry in
  successCount r = List.length (entry_successes entry)
  /\ errorCount r = entry_error_count entry
  /\ historyRecords r = entry_history entry
  /\ List.length (errors r) = entry_failures entry
  /\ sent r = entry_requests entry.
Proof.
  destruct entry as [pid cs].
  unfold entry_successes, entry_error_count, entry_history, entry_failures,
    entry_requests,
    variant_outcome, product_outcome, outcome, product_part, variant_part.
  unfold execute_product, try_catch, bind, ret, update, apply_request, graphql.
  cbn [fst snd].
  destruct (filter (fun c => mem (field c) execute_product_fields) cs) as [| p ps];
    destruct (filter (fun c => mem (field c) execute_variant_fields) cs)
      as [| v vs];
    repeat match goal with
           | |- context [catalog ?q] => destruct (catalog q) as [[| ? ?] | ?]
           end;
    simpl; rewrite ?app_nil_r, ?length_app, ?length_map; simpl;
    repeat split; try reflexivity; lia.
Qed.

Lemma fold_acc_app_fields (l : list Acc) (acc : Acc) :
  successCount (fold_left acc_app l acc)
    = successCount acc + list_sum (map successCount l)
  /\ errorCount (fold_left acc_app l acc)
     = errorCount acc + list_sum (map errorCount l)
  /\ historyRecords (fold_left acc_app l acc)
     = historyRecords acc ++ flat_map historyRecords l
  /\ List.length (errors (fold_left acc_app l acc))
     = List.length (errors acc)
       + list_sum (map (fun a => List.length (errors a)) l)
  /\ sent (fold_left acc_app l acc) = sent acc ++ flat_map sent l.
Proof.
  revert acc. induction l as [| a l IH]; intros acc; simpl.
  - now rewrite !Nat.add_0_r, !app_nil_r.
  - destruct (IH (acc_app acc a)) as [Hs [He [Hh [Hr Hq]]]].
    rewrite Hs, He, Hh, Hr, Hq. simpl.
    rewrite length_app, <- !app_assoc. repeat split; lia.
Qed.

(** The loop adds up what each entry gives on its own. *)
Lemma execute_loop_report (changes : list Change) :
  let groups := changesByProduct changes in
  let r := execute_loop catalog changes in
  successCount r = list_sum (map (fun g => List.length (entry_successes g)) groups)
  /\ errorCount r = list_sum (map entry_error_count groups)
  /\ historyRecords r = flat_map entry_history groups
  /\ List.length (errors r) = list_sum (map entry_failures groups)
  /\ sent r = flat_map entry_requests groups.
Proof.
  intros groups r. subst r. unfold execute_loop. fold groups.
  rewrite execute_loop_adds_from.
  destruct (fold_acc_app_fields (map (execute_product catalog empty_acc) groups)
              empty_acc) as [Hs [He [Hh [Hr Hq]]]].
  rewrite Hs, He, Hh, Hr, Hq. simpl. rewrite !map_map.
  assert (Hsent : flat_map sent (map (execute_product catalog empty_acc) groups)
                  = flat_map entry_requests groups).
  { clear. induction groups as [| g gs IH]; [reflexivity | ]. simpl.
    rewrite IH. f_equal.
    destruct (execute_product_report g) as [_ [_ [_ [_ Hq]]]]. exact Hq. }
  rewrite Hsent.
  assert (Hflat : flat_map historyRecords
                    (map (execute_product catalog empty_acc) groups)
                  = flat_map entry_history groups).
  { clear. induction groups as [| g gs IH]; [reflexivity | ]. simpl.
    rewrite IH. f_equal.
    destruct (execute_product_report g) as [_ [_ [Hh _]]]. exact Hh. }
  rewrite Hflat.
  repeat split; f_equal; apply map_ext; intros g;
    destruct (execute_product_report g) as [Hs' [He' [_ [Hr' _]]]]; assumption.
Qed.

End Isolation.

Import ReversalProperties.








End ExecutorProperties.

(** ** Facts on numbers and their decimal forms *)

Module NumberFacts.

Local Open Scope Z_scope.

(** *** Rounding never yields [NaN] *)

Lemma shr_1_nonneg (mrs : shr_record) : 0 <= shr_m mrs -> 0 <= shr_m (shr_1 mrs).
Proof.
  destruct mrs as [m r s]. simpl.
  destruct m as [| p | p]; [intros _; simpl; lia | | lia].
  intros _. destruct p; simpl; lia.
Qed.

Lemma iter_shr_1_nonneg (p : positive) (mrs : shr_record) :
  0 <= shr_m mrs -> 0 <= shr_m (iter_pos shr_1 p mrs).
Proof.
  revert mrs. induction p as [p IH | p IH |]; intros mrs H; simpl.
  - apply IH, IH, shr_1_nonneg, H.
  - apply IH, IH, H.
  - apply shr_1_nonneg, H.
Qed.

Lemma shr_fexp_nonneg (m e : Z) (l : location) :
  0 <= m -> 0 <= shr_m (fst (shr_fexp prec emax m e l)).
Proof.
  intros H. unfold shr_fexp, shr.
  assert (H0 : 0 <= shr_m (shr_record_of_loc m l)).
  { destruct l as [| []]; simpl; exact H. }
  destruct (fexp prec emax (Zdigits2 m + e) - e); simpl; trivial.
  now apply iter_shr_1_nonneg.
Qed.

Lemma round_nearest_even_nonneg (m : Z) (l : location) :
  0 <= m -> 0 <= round_nearest_even m l.
Proof.
  intros H. destruct l as [| []]; simpl; trivial; [| lia].
  destruct (Z.even m); lia.
Qed.

Lemma binary_round_aux_not_nan (sx : bool) (mx ex : Z) (lx : location) :
  0 <= mx -> isNaN (binary_round_aux prec emax sx mx ex lx) = false.
Proof.
  intros H. unfold binary_round_aux.
  pose proof (shr_fexp_nonneg mx ex lx H) as H1.
  destruct (shr_fexp prec emax mx ex lx) as [mrs' e'].
  simpl in H1.
  pose proof (shr_fexp_nonneg
                (round_nearest_even (shr_m mrs') (loc_of_shr_record mrs'))
                e' loc_Exact
                (round_nearest_even_nonneg _ _ H1)) as H2.
  destruct (shr_fexp prec emax _ e' loc_Exact) as [mrs'' e''].
  simpl in H2.
  destruct (shr_m mrs'') as [| p | p]; [reflexivity | | lia].
  destruct (e'' <=? emax - prec); reflexivity.
Qed.

Lemma binary_normalize_not_nan (m e : Z) (s : bool) :
  isNaN (binary_normalize prec emax m e s) = false.
Proof.
  destruct m as [| p | p]; simpl; [reflexivity | | ];
    unfold binary_round;
    destruct (shl_align _ _ _) as [mz ez];
    apply binary_round_aux_not_nan; lia.
Qed.

Lemma of_decimal_not_nan (neg : bool) (m e : Z) :
  isNaN (of_decimal neg m e) = false.
Proof.
  unfold of_decimal.
  destruct (m <=? 0) eqn:Hm; [reflexivity | ].
  apply Z.leb_gt in Hm.
  destruct (0 <=? e) eqn:He; [apply binary_normalize_not_nan | ].
  apply Z.leb_gt in He.
  unfold SFdiv_core_binary.
  set (s := _ - _ - _).
  set (m' := match s with Z.pos _ => Z.shiftl m s | Z0 => m | Z.neg _ => 0 end).
  assert (Hm' : 0 <= m').
  { subst m'. destruct s; try lia. apply Z.shiftl_nonneg. lia. }
  assert (Hp : 0 < 10 ^ (- e)) by (apply Z.pow_pos_nonneg; lia).
  pose proof (Z.div_pos m' (10 ^ (- e)) Hm' Hp) as Hq.
  unfold Z.div in Hq.
  destruct (Z.div_eucl m' (10 ^ (- e))) as [q r]. simpl in Hq.
  now apply binary_round_aux_not_nan.
Qed.

(** *** Digits *)

Definition head_is_digit (s : string) : bool :=
  match s with String c _ => is_digit c | EmptyString => false end.

Fixpoint all_digits (s : string) : bool :=
  match s with
  | String c r => (is_digit c && all_digits r)%bool
  | EmptyString => true
  end.

Lemma digit_char_is_digit (d : Z) : is_digit (digit_char d) = true.
Proof.
  destruct d as [| p | p]; try reflexivity.
  do 4 (destruct p as [p | p |]; try reflexivity).
Qed.

Lemma digits_go_all (fuel : nat) (n : Z) (acc : string) :
  all_digits acc = true -> all_digits (digits_go fuel n acc) = true.
Proof.
  revert n acc. induction fuel as [| f IH]; intros n acc Hacc; simpl; trivial.
  destruct (Z.div_eucl n 10) as [q r].
  assert (H : all_digits (String (digit_char r) acc) = true).
  { simpl. now rewrite digit_char_is_digit, Hacc. }
  destruct (q =? 0); [exact H | now apply IH].
Qed.

Lemma digits_go_head (fuel : nat) (n : Z) (acc : string) :
  head_is_digit (digits_go (S fuel) n acc) = true.
Proof.
  revert n acc. induction fuel as [| f IH]; intros n acc.
  - simpl. destruct (Z.div_eucl n 10) as [q r].
    destruct (q =? 0); simpl; apply digit_char_is_digit.
  - change (digits_go (S (S f)) n acc)
      with (let '(q, r) := Z.div_eucl n 10 in
            let acc' := String (digit_char r) acc in
            if q =? 0 then acc' else digits_go (S f) q acc').
    destruct (Z.div_eucl n 10) as [q r]. cbv zeta.
    destruct (q =? 0); [simpl; apply digit_char_is_digit | apply IH].
Qed.

Lemma digits_of_Z_all (n : Z) : all_digits (digits_of_Z n) = true.
Proof. apply digits_go_all. reflexivity. Qed.

Lemma digits_of_Z_head (n : Z) : head_is_digit (digits_of_Z n) = true.
Proof. apply digits_go_head. Qed.

Lemma all_digits_app (a b : string) :
  all_digits (a ++ b) = (all_digits a && all_digits b)%bool.
Proof.
  induction a as [| c a IH]; simpl; [reflexivity | ].
  now rewrite IH, andb_assoc.
Qed.

Lemma all_digits_zeros (k : nat) : all_digits (zeros k) = true.
Proof. induction k; simpl; trivial. Qed.

Lemma head_app (a b : string) :
  head_is_digit a = true -> head_is_digit (a ++ b) = true.
Proof. destruct a; simpl; [discriminate | trivial]. Qed.

Lemma head_all_app (a b : string) :
  all_digits a = true -> head_is_digit b = true -> head_is_digit (a ++ b) = true.
Proof.
  destruct a as [| c a]; simpl; trivial.
  intros H _. now apply andb_true_iff in H.
Qed.

(** *** Cutting a string in two *)

Lemma substring_whole (s : string) : String.substring 0 (String.length s) s = s.
Proof. induction s as [| c s IH]; simpl; [reflexivity | now rewrite IH]. Qed.

Lemma split_at_spec (k : nat) (s : string) :
  (k <= String.length s)%nat ->
  fst (split_at k s) ++ snd (split_at k s) = s
  /\ String.length (fst (split_at k s)) = k
  /\ String.length (snd (split_at k s)) = (String.length s - k)%nat.
Proof.
  unfold split_at. simpl. revert s.
  induction k as [| k IH]; intros s Hk.
  - rewrite Nat.sub_0_r, substring_whole. destruct s; simpl; repeat split;
      reflexivity.
  - destruct s as [| c s]; [simpl in Hk; lia | ]. simpl in Hk. simpl.
    destruct (IH s ltac:(lia)) as [H1 [H2 H3]].
    rewrite H1, H2, H3. repeat split.
Qed.

Lemma split_at_head (k : nat) (s : string) :
  (1 <= k)%nat -> head_is_digit s = true ->
  head_is_digit (fst (split_at k s)) = true.
Proof.
  intros Hk Hs. destruct s as [| c s]; [discriminate | ].
  destruct k as [| k]; [lia | ]. exact Hs.
Qed.

Lemma length_app (a b : string) :
  String.length (a ++ b) = (String.length a + String.length b)%nat.
Proof. induction a as [| c a IH]; simpl; [reflexivity | now rewrite IH]. Qed.

Lemma length_zeros (k : nat) : String.length (zeros k) = k.
Proof. induction k; simpl; congruence. Qed.

(** *** The shape of [toFixed(2)] *)

(** Digits, a point, two digits. *)
Definition two_decimals (s : string) : Prop :=
  exists a b : string,
    s = a ++ "." ++ b
    /\ head_is_digit a = true /\ all_digits a = true
    /\ all_digits b = true /\ String.length b = 2%nat.

Lemma fixed_digits_two (n : Z) : two_decimals (fixed_digits n 2).
Proof.
  unfold fixed_digits.
  set (ds := zeros (3 - String.length (digits_of_Z n)) ++ digits_of_Z n).
  assert (Hall : all_digits ds = true).
  { subst ds. now rewrite all_digits_app, all_digits_zeros, digits_of_Z_all. }
  assert (Hhead : head_is_digit ds = true).
  { subst ds. apply head_all_app; [apply all_digits_zeros | apply digits_of_Z_head]. }
  assert (Hlen : (3 <= String.length ds)%nat).
  { subst ds. rewrite length_app, length_zeros. lia. }
  destruct (split_at_spec (String.length ds - 2) ds ltac:(lia)) as [Happ [Hla Hlb]].
  destruct (split_at (String.length ds - 2) ds) as [a b] eqn:Hsplit.
  simpl in Happ, Hla, Hlb.
  exists a, b. split; [reflexivity | ].
  rewrite <- Happ, all_digits_app in Hall. apply andb_true_iff in Hall as [Ha Hb].
  repeat split; trivial.
  - replace a with (fst (split_at (String.length ds - 2) ds)) by now rewrite Hsplit.
    apply split_at_head; [lia | exact Hhead].
  - lia.
Qed.

(** *** The first character of [String(x)] and [x.toFixed(2)] *)

Lemma render_head (s n k : Z) : head_is_digit (render s n k) = true.
Proof.
  unfold render.
  pose proof (digits_of_Z_head s) as Hd.
  destruct ((k <=? n) && (n <=? 21))%bool; [now apply head_app | ].
  destruct ((0 <? n) && (n <=? 21))%bool eqn:Hn.
  - apply andb_true_iff in Hn as [Hn _]. apply Z.ltb_lt in Hn.
    pose proof (split_at_head (Z.to_nat n) (digits_of_Z s) ltac:(lia) Hd) as H.
    destruct (split_at (Z.to_nat n) (digits_of_Z s)) as [a b]. simpl in H.
    now apply head_app.
  - destruct ((-6 <? n) && (n <=? 0))%bool; [reflexivity | ].
    destruct (digits_of_Z s) as [| d r]; [discriminate | ].
    destruct r; exact Hd.
Qed.

Lemma toString_positive_head (m : positive) (e : Z) :
  head_is_digit (toString (S754_finite false m e)) = true.
Proof.
  unfold toString. destruct (shortest _ m e) as [[s n] k].
  apply render_head.
Qed.

(** The number after clamping at zero: [NaN], [+0], [+Infinity] or
    a positive finite number. *)
Inductive clamped : number -> Prop :=
| clamped_nan : clamped S754_nan
| clamped_zero : clamped (S754_zero false)
| clamped_infinity : clamped (S754_infinity false)
| clamped_finite (m : positive) (e : Z) : clamped (S754_finite false m e).

Definition sign_set_or_zero (x : number) : bool :=
  match x with
  | S754_zero _ => true
  | S754_infinity s | S754_finite s _ _ => s
  | S754_nan => false
  end.

Lemma max_zero_clamped (x : number) : clamped (Math_max zero x).
Proof. destruct x as [[] | [] | | [] m e]; constructor. Qed.

Lemma max_zero_of_negative (x : number) :
  sign_set_or_zero x = true -> Math_max zero x = zero.
Proof.
  destruct x as [[] | [] | | [] m e]; intros H; try discriminate H; reflexivity.
Qed.

Definition head_is_minus (s : string) : bool :=
  match s with String "-" _ => true | _ => false end.

Lemma digit_head_not_minus (s : string) :
  head_is_digit s = true -> head_is_minus s = false.
Proof.
  destruct s as [| c s]; [reflexivity | ].
  destruct c as [[] [] [] [] [] [] [] []]; simpl; trivial; discriminate.
Qed.

Lemma fixed_digits_head (n : Z) : head_is_digit (fixed_digits n 2) = true.
Proof.
  destruct (fixed_digits_two n) as [a [b [-> [Ha _]]]]. now apply head_app.
Qed.

Lemma toFixed_clamped_head (x : number) :
  clamped x -> head_is_minus (toFixed x 2) = false.
Proof.
  intros [| | | m e]; try reflexivity.
  unfold toFixed. cbn [append].
  apply digit_head_not_minus.
  destruct (ge_1e21 m e);
    [apply toString_positive_head | apply fixed_digits_head].
Qed.

Lemma toFixed_clamped_two (x : number) :
  clamped x ->
  match x with
  | S754_zero _ => True
  | S754_finite _ m e => ge_1e21 m e = false
  | _ => False
  end ->
  two_decimals (toFixed x 2).
Proof.
  intros [| | | m e] H; try contradiction.
  - apply fixed_digits_two.
  - unfold toFixed. rewrite H. apply fixed_digits_two.
Qed.

(** *** [parseFloat] of what [toFixed] prints *)

Lemma read_digits_count (s : string) (acc cnt : Z) :
  cnt <= snd (fst (read_digits s acc cnt)).
Proof.
  revert acc cnt.
  induction s as [| c s IH]; intros acc cnt; cbn [read_digits];
    [cbn [fst snd]; lia | ].
  destruct (is_digit c); [| cbn [fst snd]; lia].
  eapply Z.le_trans; [| apply IH]. lia.
Qed.

Lemma parseFloat_digit_head (s : string) :
  head_is_digit s = true -> isNaN (parseFloat s) = false.
Proof.
  destruct s as [| c s]; [discriminate | ]. intros Hc.
  assert (Hshape :
            trimStart (String c s) = String c s
            /\ read_sign (String c s) = (false, String c s)
            /\ String.prefix "Infinity" (String c s) = false
            /\ read_digits (String c s) 0 0
               = read_digits s (10 * 0 + digit_val c) (0 + 1)).
  { simpl in Hc. unfold read_digits at 1. fold read_digits. rewrite Hc.
    destruct c as [[] [] [] [] [] [] [] []]; try discriminate Hc;
      repeat split. }
  destruct Hshape as [Ht [Hs [Hp Hr]]].
  unfold parseFloat. rewrite Ht, Hs, Hp, Hr.
  pose proof (read_digits_count s (10 * 0 + digit_val c) (0 + 1)) as H1.
  destruct (read_digits s _ _) as [[ip n1] s2]. simpl in H1.
  assert (Hfrac : forall r, 0 <= snd (fst (read_digits r ip 0)))
    by (intros r; apply read_digits_count).
  destruct s2 as [| d r].
  - replace (n1 + 0 =? 0) with false by (symmetry; apply Z.eqb_neq; lia).
    apply of_decimal_not_nan.
  - destruct (Ascii.eqb_spec d ".") as [-> | Hd].
    + specialize (Hfrac r).
      destruct (read_digits r ip 0) as [[m n2] s3]. simpl in Hfrac.
      replace (n1 + n2 =? 0) with false by (symmetry; apply Z.eqb_neq; lia).
      apply of_decimal_not_nan.
    + assert (Hother :
                match String d r with
                | String "." r0 => read_digits r0 ip 0
                | _ => (ip, 0, String d r)
                end = (ip, 0, String d r)).
      { destruct d as [[] [] [] [] [] [] [] []]; try reflexivity.
        now destruct Hd. }
      rewrite Hother.
      replace (n1 + 0 =? 0) with false by (symmetry; apply Z.eqb_neq; lia).
      apply of_decimal_not_nan.
Qed.

(** What [toFixed(2)] prints for a clamped number other than [NaN]
    reads back as a number. *)
Lemma parseFloat_toFixed_clamped (x : number) :
  clamped x -> isNaN x = false -> isNaN (parseFloat (toFixed x 2)) = false.
Proof.
  intros [| | | m e] Hnan; try reflexivity; try discriminate.
  apply parseFloat_digit_head. unfold toFixed. cbn [append].
  destruct (ge_1e21 m e);
    [apply toString_positive_head | apply fixed_digits_head].
Qed.

Lemma toFixed_clamped_truthy (x : number) :
  clamped x -> truthy (toFixed x 2) = true.
Proof.
  intros [| | | m e]; try reflexivity.
  unfold toFixed. cbn [append].
  assert (H : head_is_digit (if ge_1e21 m e
                             then toString (S754_finite false m e)
                             else fixed_digits (scaled_round m e 2) 2) = true).
  { destruct (ge_1e21 m e);
      [apply toString_positive_head | apply fixed_digits_head]. }
  destruct (if ge_1e21 m e then _ else _); [discriminate | reflexivity].
Qed.

Lemma eqb_refl_not_nan (x : number) : isNaN x = false -> JsNumber.eqb x x = true.
Proof.
  destruct x as [s | s | | s m e]; simpl; try discriminate; intros _.
  - reflexivity.
  - unfold JsNumber.eqb, SFeqb, SFcompare. destruct s; reflexivity.
  - unfold JsNumber.eqb, SFeqb, SFcompare.
    rewrite Z.compare_refl, Pos.compare_cont_refl. destruct s; reflexivity.
Qed.

Lemma toString_truthy (x : number) : truthy (toString x) = true.
Proof.
  destruct x as [s | s | | s m e]; try reflexivity; [destruct s; reflexivity | ].
  pose proof (toString_positive_head m e) as H.
  unfold toString in *. destruct (shortest _ m e) as [[d n] k].
  destruct s; [reflexivity | ].
  cbn [append]. destruct (render d n k); [discriminate | reflexivity].
Qed.

End NumberFacts.

(** ** Rounding of doubles and decimal digits

    The facts behind the two-decimal strings of the price rounding:
    how [binary_round_aux] rounds in the normal range, that integers
    below [2^53] are doubles, how far the sum of an integer and a
    fraction is from the exact sum, and the decimal digits of
    [100 n + k]. *)

Module FloatFacts.

Import NumberFacts.
Local Open Scope Z_scope.

Lemma digits2_pos_size (p : positive) : digits2_pos p = Pos.size p.
Proof. induction p; simpl; congruence. Qed.

Lemma Zdigits2_log2 (n : Z) : 0 < n -> Zdigits2 n = Z.log2 n + 1.
Proof.
  destruct n as [| p | p]; try lia. intros _. simpl.
  rewrite digits2_pos_size. destruct p; simpl; lia.
Qed.

Lemma Zdigits2_bounds (n : Z) :
  0 < n -> 2 ^ (Zdigits2 n - 1) <= n < 2 ^ Zdigits2 n.
Proof.
  intros H. rewrite Zdigits2_log2 by exact H.
  replace (Z.log2 n + 1 - 1) with (Z.log2 n) by lia.
  replace (Z.log2 n + 1) with (Z.succ (Z.log2 n)) by lia.
  apply Z.log2_spec. exact H.
Qed.

(** The state of a right shift by [K] of the integer [X]. *)
Definition shifted (X K : Z) (mrs : shr_record) : Prop :=
  shr_m mrs = X / 2 ^ K
  /\ Z.b2z (shr_r mrs) = (if K =? 0 then 0 else (X / 2 ^ (K - 1)) mod 2)
  /\ shr_s mrs = (if K =? 0 then false else negb (X mod 2 ^ (K - 1) =? 0)).

Lemma shr_1_shifted (X K : Z) (mrs : shr_record) :
  0 <= X -> 0 <= K -> shifted X K mrs -> shifted X (K + 1) (shr_1 mrs).
Proof.
  unfold shifted. intros HX HK [Hm [Hr Hs]].
  assert (Hpow : 2 ^ (K + 1) = 2 ^ K * 2) by (rewrite Z.pow_add_r; lia).
  assert (Hpos : 0 < 2 ^ K) by (apply Z.pow_pos_nonneg; lia).
  assert (Hdiv : X / 2 ^ (K + 1) = X / 2 ^ K / 2).
  { rewrite Hpow. rewrite Z.div_div; lia. }
  assert (Hm0 : 0 <= shr_m mrs) by (rewrite Hm; apply Z.div_pos; lia).
  replace (K + 1 =? 0) with false by (symmetry; apply Z.eqb_neq; lia).
  replace (K + 1 - 1) with K by lia.
  rewrite Hdiv, <- Hm.
  assert (Hsticky : (shr_r mrs || shr_s mrs)%bool = negb (X mod 2 ^ K =? 0)).
  { destruct (Z.eqb_spec K 0) as [-> | HK0].
    - destruct (shr_r mrs); simpl in Hr; try lia. rewrite Hs.
      simpl. rewrite Z.mod_1_r. reflexivity.
    - assert (Hp1 : 0 < 2 ^ (K - 1)) by (apply Z.pow_pos_nonneg; lia).
      assert (Hsplit : X mod 2 ^ K
                       = X mod 2 ^ (K - 1) + 2 ^ (K - 1) * ((X / 2 ^ (K - 1)) mod 2)).
      { assert (HpK : 2 ^ K = 2 ^ (K - 1) * 2).
        { rewrite Z.mul_comm, <- Z.pow_succ_r by lia. f_equal. lia. }
        rewrite HpK. apply Z.rem_mul_r; lia. }
      pose proof (Z.mod_pos_bound X (2 ^ (K - 1)) Hp1) as Hb.
      rewrite Hsplit, <- Hr, Hs.
      destruct (shr_r mrs); simpl.
      + symmetry. apply negb_true_iff, Z.eqb_neq. lia.
      + rewrite Z.mul_0_r, Z.add_0_r. reflexivity. }
  rewrite <- Hsticky. clear Hm Hr Hs Hdiv Hsticky.
  destruct mrs as [m r s]. simpl in Hm0. simpl shr_m at 2 3. 
  destruct m as [| p | p]; [ | | lia].
  - repeat split.
  - destruct p as [p | p |]; simpl shr_m; simpl shr_r; simpl shr_s.
    + repeat split.
      * rewrite Pos2Z.inj_xI. apply Z.div_unique with 1; lia.
      * rewrite Pos2Z.inj_xI. simpl Z.b2z.
        apply Z.mod_unique with (Zpos p); lia.
    + repeat split.
      * rewrite Pos2Z.inj_xO. apply Z.div_unique with 0; lia.
      * rewrite Pos2Z.inj_xO. simpl Z.b2z.
        apply Z.mod_unique with (Zpos p); lia.
    + repeat split.
Qed.

Lemma iter_shr_1_shifted (p : positive) :
  forall X K mrs, 0 <= X -> 0 <= K -> shifted X K mrs ->
  shifted X (K + Zpos p) (iter_pos shr_1 p mrs).
Proof.
  induction p as [p IH | p IH |]; intros X K mrs HX HK H; simpl iter_pos.
  - replace (K + Zpos p~1) with (K + 1 + Zpos p + Zpos p) by lia.
    apply IH; try lia. apply IH; try lia. apply shr_1_shifted; trivial.
  - replace (K + Zpos p~0) with (K + Zpos p + Zpos p) by lia.
    apply IH; try lia. apply IH; trivial.
  - apply shr_1_shifted; trivial.
Qed.

Lemma shifted_start (X : Z) :
  shifted X 0 {| shr_m := X; shr_r := false; shr_s := false |}.
Proof. unfold shifted. simpl. rewrite Z.div_1_r. repeat split. Qed.

(** Rounding to nearest even after a shift is within half a unit. *)
Lemma round_nearest_even_shifted (X K : Z) (mrs : shr_record) :
  0 <= X -> 0 <= K -> shifted X K mrs ->
  let R := round_nearest_even (shr_m mrs) (loc_of_shr_record mrs) in
  X / 2 ^ K <= R <= X / 2 ^ K + 1
  /\ 2 * Z.abs (R * 2 ^ K - X) <= 2 ^ K.
Proof.
  intros HX HK H. cbv zeta. destruct H as [Hm [Hr Hs]].
  assert (Hpos : 0 < 2 ^ K) by (apply Z.pow_pos_nonneg; lia).
  pose proof (Z.div_mod X (2 ^ K) ltac:(lia)) as Hdm.
  pose proof (Z.mod_pos_bound X (2 ^ K) Hpos) as Hb.
  destruct (Z.eqb_spec K 0) as [-> | HK0].
  - change (2 ^ 0) with 1 in *. rewrite Z.div_1_r in *.
    destruct mrs as [m r s].
    cbn [shr_m shr_r shr_s Z.eqb] in *. subst s m.
    destruct r; cbn [Z.b2z] in Hr; try lia.
    cbn [loc_of_shr_record round_nearest_even shr_m]. lia.
  - assert (Hp1 : 0 < 2 ^ (K - 1)) by (apply Z.pow_pos_nonneg; lia).
    assert (HpK : 2 ^ K = 2 ^ (K - 1) * 2).
    { rewrite Z.mul_comm, <- Z.pow_succ_r by lia. f_equal. lia. }
    assert (Hsplit : X mod 2 ^ K
                     = X mod 2 ^ (K - 1) + 2 ^ (K - 1) * ((X / 2 ^ (K - 1)) mod 2)).
    { rewrite HpK. apply Z.rem_mul_r; lia. }
    pose proof (Z.mod_pos_bound X (2 ^ (K - 1)) Hp1) as Hb1.
    rewrite <- Hr in Hsplit.
    destruct mrs as [m r s].
    cbn [shr_m shr_r shr_s] in *. rewrite <- Hm in *.
    destruct r, s; cbn [loc_of_shr_record round_nearest_even shr_m Z.b2z] in *.
    + symmetry in Hs. apply negb_true_iff, Z.eqb_neq in Hs. nia.
    + symmetry in Hs. apply negb_false_iff, Z.eqb_eq in Hs.
      destruct (Z.even m); nia.
    + symmetry in Hs. apply negb_true_iff, Z.eqb_neq in Hs. nia.
    + symmetry in Hs. apply negb_false_iff, Z.eqb_eq in Hs. nia.
Qed.

Lemma Zdigits2_unique (n d : Z) :
  0 < d -> 2 ^ (d - 1) <= n < 2 ^ d -> Zdigits2 n = d.
Proof.
  intros Hd H.
  assert (0 < n).
  { assert (0 < 2 ^ (d - 1)) by (apply Z.pow_pos_nonneg; lia). lia. }
  rewrite Zdigits2_log2 by assumption.
  rewrite (Z.log2_unique n (d - 1)); try lia.
  replace (Z.succ (d - 1)) with d by lia. exact H.
Qed.

Lemma fexp_normal (e : Z) :
  -1021 <= e -> fexp prec emax e = e - 53.
Proof. unfold fexp, emin, prec, emax. lia. Qed.

(** In the normal range, rounding a mantissa of at least 53 bits gives
    a finite number within half a unit in the last place. *)
Lemma binary_round_aux_normal (mx : positive) (ex : Z) :
  let d := Zdigits2 (Zpos mx) in
  53 <= d -> -1021 <= d + ex <= 1023 ->
  exists m e,
    binary_round_aux prec emax false (Zpos mx) ex loc_Exact = S754_finite false m e
    /\ ex + (d - 53) <= e
    /\ 2 * Z.abs (Zpos m * 2 ^ (e - ex) - Zpos mx) <= 2 ^ (d - 53).
Proof.
  intros d Hd He.
  pose proof (Zdigits2_bounds (Zpos mx) ltac:(lia)) as Hb. fold d in Hb.
  unfold binary_round_aux, shr_fexp. fold d.
  rewrite fexp_normal by lia.
  replace (d + ex - 53 - ex) with (d - 53) by lia.
  cbn [shr_record_of_loc].
  set (start := {| shr_m := Zpos mx; shr_r := false; shr_s := false |}).
  assert (Hfirst : exists mrs,
             shr start ex (d - 53) = (mrs, ex + (d - 53))
             /\ shifted (Zpos mx) (d - 53) mrs).
  { destruct (d - 53) as [| p | p] eqn:HK; try lia.
    - exists start. split; [simpl; f_equal; lia | apply shifted_start].
    - exists (iter_pos shr_1 p start). split; [reflexivity | ].
      change (Zpos p) with (0 + Zpos p).
      apply iter_shr_1_shifted; try lia. apply shifted_start. }
  destruct Hfirst as [mrs [-> Hsh]].
  destruct (round_nearest_even_shifted (Zpos mx) (d - 53) mrs) as [HR Herr];
    try lia; try exact Hsh.
  set (R := round_nearest_even (shr_m mrs) (loc_of_shr_record mrs)) in *.
  assert (HpK : 0 < 2 ^ (d - 53)) by (apply Z.pow_pos_nonneg; lia).
  assert (Hpd : 2 ^ d = 2 ^ 53 * 2 ^ (d - 53)).
  { rewrite <- Z.pow_add_r by lia. f_equal. lia. }
  assert (Hpd1 : 2 ^ (d - 1) = 2 ^ 52 * 2 ^ (d - 53)).
  { rewrite <- Z.pow_add_r by lia. f_equal. lia. }
  assert (Hq : 2 ^ 52 <= Zpos mx / 2 ^ (d - 53) < 2 ^ 53).
  { split.
    - apply Z.div_le_lower_bound; lia.
    - apply Z.div_lt_upper_bound; lia. }
  destruct (Z_lt_le_dec R (2 ^ 53)) as [Hlt | Hge].
  - assert (HdR : Zdigits2 R = 53) by (apply Zdigits2_unique; lia).
    rewrite HdR. rewrite fexp_normal by lia.
    replace (53 + (ex + (d - 53)) - 53 - (ex + (d - 53))) with 0 by lia.
    cbn [shr shr_m].
    destruct R as [| m | m] eqn:ER; try lia.
    replace (ex + (d - 53) <=? emax - prec) with true
      by (symmetry; apply Z.leb_le; unfold emax, prec; lia).
    exists m, (ex + (d - 53)). split; [reflexivity | ]. split; [lia | ].
    replace (ex + (d - 53) - ex) with (d - 53) by lia. exact Herr.
  - assert (ER : R = 2 ^ 53) by lia.
    rewrite ER in *.
    assert (HdR : Zdigits2 (2 ^ 53) = 54) by reflexivity.
    rewrite HdR. rewrite fexp_normal by lia.
    replace (54 + (ex + (d - 53)) - 53 - (ex + (d - 53))) with 1 by lia.
    cbn [shr iter_pos].
    change (shr_m (shr_1 {| shr_m := 2 ^ 53; shr_r := false; shr_s := false |}))
      with (2 ^ 52).
    change (2 ^ 52) with (Zpos 4503599627370496) at 1. cbv iota.
    replace (ex + (d - 53) + 1 <=? emax - prec) with true
      by (symmetry; apply Z.leb_le; unfold emax, prec; lia).
    exists 4503599627370496%positive, (ex + (d - 53) + 1).
    split; [reflexivity | ]. split; [lia | ].
    replace (ex + (d - 53) + 1 - ex) with (d - 53 + 1) by lia.
    rewrite Z.pow_add_r by lia.
    change (Zpos 4503599627370496) with (2 ^ 52).
    replace (2 ^ 52 * (2 ^ (d - 53) * 2 ^ 1)) with (2 ^ 53 * 2 ^ (d - 53)) by
      (change (2 ^ 53) with (2 ^ 52 * 2); change (2 ^ 1) with 2; ring).
    exact Herr.
Qed.

Lemma iter_xO (k p : positive) : Zpos (Pos.iter xO p k) = Zpos p * 2 ^ Zpos k.
Proof.
  induction k as [| k IH] using Pos.peano_ind.
  - simpl. lia.
  - rewrite Pos.iter_succ, Pos2Z.inj_xO, IH, Pos2Z.inj_succ, Z.pow_succ_r by lia.
    ring.
Qed.

Lemma shl_align_value (m : positive) (e e' : Z) :
  e' <= e ->
  Zpos (fst (shl_align m e e')) = Zpos m * 2 ^ (e - e')
  /\ snd (shl_align m e e') = e'.
Proof.
  intros H. unfold shl_align.
  destruct (e' - e) as [| d | d] eqn:E; try lia; cbn [fst snd].
  - replace (e - e') with 0 by lia. split; lia.
  - rewrite iter_xO. replace (e - e') with (Zpos d) by lia. split; trivial.
Qed.

Lemma shl_align_same (m : positive) (e e' : Z) :
  e <= e' -> shl_align m e e' = (m, e).
Proof.
  intros H. unfold shl_align. destruct (e' - e) eqn:E; try lia; reflexivity.
Qed.

(** An integer below [2^53] is a double. *)
Lemma of_Z_exact (n : Z) :
  0 < n < 2 ^ 53 ->
  exists m e,
    of_Z n = S754_finite false m e /\ -53 <= e
    /\ Zpos m * 2 ^ (e + 53) = n * 2 ^ 53.
Proof.
  intros Hn. destruct n as [| p | p]; try lia.
  unfold of_Z, binary_normalize, binary_round.
  change (Zpos (digits2_pos p)) with (Zdigits2 (Zpos p)).
  pose proof (Zdigits2_bounds (Zpos p) ltac:(lia)) as Hb.
  set (d := Zdigits2 (Zpos p)) in *.
  assert (Hd : 1 <= d <= 53).
  { split.
    - unfold d. simpl. lia.
    - destruct (Z_le_gt_dec d 53); trivial.
      assert (2 ^ 53 <= 2 ^ (d - 1)) by (apply Z.pow_le_mono_r; lia). lia. }
  rewrite fexp_normal by lia. rewrite Z.add_0_r.
  destruct (shl_align_value p 0 (d - 53) ltac:(lia)) as [Hm He].
  destruct (shl_align p 0 (d - 53)) as [mz ez]. cbn [fst snd] in Hm, He. subst ez.
  replace (0 - (d - 53)) with (53 - d) in Hm by lia.
  assert (Hp : 2 ^ 53 = 2 ^ d * 2 ^ (53 - d)).
  { rewrite <- Z.pow_add_r by lia. f_equal. lia. }
  assert (Hp1 : 2 ^ 52 = 2 ^ (d - 1) * 2 ^ (53 - d)).
  { rewrite <- Z.pow_add_r by lia. f_equal. lia. }
  assert (Hpk : 0 < 2 ^ (53 - d)) by (apply Z.pow_pos_nonneg; lia).
  assert (Hdz : Zdigits2 (Zpos mz) = 53).
  { apply Zdigits2_unique; try lia. rewrite Hm.
    change (53 - 1) with 52. nia. }
  destruct (binary_round_aux_normal mz (d - 53)) as [m [e [Hr [He Herr]]]].
  - rewrite Hdz. lia.
  - rewrite Hdz. lia.
  - rewrite Hdz in Herr, He. change (2 ^ (53 - 53)) with 1 in Herr.
    exists m, e. split; [exact Hr | ]. split; [lia | ].
    assert (Hex : Zpos m * 2 ^ (e - (d - 53)) = Zpos mz) by lia.
    replace (e + 53) with (e - (d - 53) + d) by lia.
    rewrite Z.pow_add_r by lia. rewrite Z.mul_assoc, Hex, Hm, Hp. ring.
Qed.

(** An integer plus a fraction of at least one half: the sum is the
    double nearest to it, here within [2^45] units of [2^-53]. *)
Lemma add_fraction (n : Z) (c : positive) :
  0 < n < 2 ^ 46 -> 2 ^ 52 <= Zpos c < 2 ^ 53 ->
  exists m e,
    add (of_Z n) (S754_finite false c (-53)) = S754_finite false m e
    /\ -53 <= e
    /\ Z.abs (Zpos m * 2 ^ (e + 53) - (n * 2 ^ 53 + Zpos c)) <= 2 ^ 45.
Proof.
  intros Hn Hc.
  destruct (of_Z_exact n) as [m1 [e1 [-> [He1 Hv1]]]]; [lia | ].
  unfold add, SFadd. cbn [cond_Zopp].
  replace (Z.min e1 (-53)) with (-53) by lia.
  destruct (shl_align_value m1 e1 (-53) ltac:(lia)) as [Hm _].
  replace (e1 - -53) with (e1 + 53) in Hm by lia.
  rewrite Hm, Hv1. rewrite shl_align_same by lia. cbn [fst].
  destruct (n * 2 ^ 53 + Zpos c) as [| X | X] eqn:EX; try lia.
  unfold binary_normalize, binary_round.
  change (Zpos (digits2_pos X)) with (Zdigits2 (Zpos X)).
  pose proof (Zdigits2_bounds (Zpos X) ltac:(lia)) as Hb.
  set (d := Zdigits2 (Zpos X)) in *.
  assert (Hd : 54 <= d <= 99).
  { split.
    - destruct (Z_le_gt_dec 54 d); trivial.
      assert (2 ^ d <= 2 ^ 53) by (apply Z.pow_le_mono_r; lia). lia.
    - destruct (Z_le_gt_dec d 99); trivial.
      assert (2 ^ 99 <= 2 ^ (d - 1)) by (apply Z.pow_le_mono_r; lia).
      change (2 ^ 99) with (2 ^ 46 * 2 ^ 53) in *. lia. }
  rewrite fexp_normal by lia.
  rewrite shl_align_same by lia.
  destruct (binary_round_aux_normal X (-53)) as [m [e [Hr [He Herr]]]];
    fold d; try lia.
  fold d in Herr, He. replace (e - -53) with (e + 53) in Herr by lia.
  exists m, e. split; [exact Hr | ]. split; [lia | ].
  assert (Hpd : 2 ^ (d - 53) <= 2 ^ 46) by (apply Z.pow_le_mono_r; lia).
  change (2 ^ 46) with (2 * 2 ^ 45) in Hpd. lia.
Qed.

(** From [2^46] to [2^47] the doubles are the multiples of [2^-6]:
    the sum is one of them, within [2^46] units of [2^-53]. *)
Lemma add_fraction_band (n : Z) (c : positive) :
  2 ^ 46 <= n < 2 ^ 47 -> 2 ^ 52 <= Zpos c < 2 ^ 53 ->
  exists m e q,
    add (of_Z n) (S754_finite false c (-53)) = S754_finite false m e
    /\ -53 <= e
    /\ Zpos m * 2 ^ (e + 53) = q * 2 ^ 47
    /\ Z.abs (q * 2 ^ 47 - (n * 2 ^ 53 + Zpos c)) <= 2 ^ 46.
Proof.
  intros Hn Hc.
  destruct (of_Z_exact n) as [m1 [e1 [-> [He1 Hv1]]]].
  { change (2 ^ 46) with 70368744177664 in Hn.
    change (2 ^ 47) with 140737488355328 in Hn.
    change (2 ^ 53) with 9007199254740992. lia. }
  unfold add, SFadd. cbn [cond_Zopp].
  replace (Z.min e1 (-53)) with (-53) by lia.
  destruct (shl_align_value m1 e1 (-53) ltac:(lia)) as [Hm _].
  replace (e1 - -53) with (e1 + 53) in Hm by lia.
  rewrite Hm, Hv1. rewrite shl_align_same by lia. cbn [fst].
  destruct (n * 2 ^ 53 + Zpos c) as [| X | X] eqn:EX; try lia.
  unfold binary_normalize, binary_round.
  change (Zpos (digits2_pos X)) with (Zdigits2 (Zpos X)).
  assert (Hd : Zdigits2 (Zpos X) = 100).
  { apply Zdigits2_unique; [lia | ]. rewrite <- EX.
    change (2 ^ (100 - 1)) with (2 ^ 46 * 2 ^ 53).
    change (2 ^ 100) with (2 ^ 47 * 2 ^ 53).
    change (2 ^ 46) with 70368744177664 in *.
    change (2 ^ 47) with 140737488355328 in *.
    change (2 ^ 52) with 4503599627370496 in *.
    change (2 ^ 53) with 9007199254740992 in *. lia. }
  rewrite Hd. rewrite fexp_normal by lia.
  rewrite shl_align_same by lia.
  destruct (binary_round_aux_normal X (-53)) as [m [e [Hr [He Herr]]]];
    rewrite ?Hd; try lia.
  rewrite Hd in He, Herr. replace (e - -53) with (e + 53) in Herr by lia.
  change (2 ^ (100 - 53)) with (2 * 2 ^ 46) in Herr.
  exists m, e, (Zpos m * 2 ^ (e + 53 - 47)).
  split; [exact Hr | ]. split; [lia | ].
  assert (Hgrid : Zpos m * 2 ^ (e + 53) = Zpos m * 2 ^ (e + 53 - 47) * 2 ^ 47).
  { rewrite <- Z.mul_assoc, <- Z.pow_add_r by lia. do 2 f_equal. lia. }
  split; [exact Hgrid | ]. rewrite <- Hgrid. lia.
Qed.

(** [toFixed(2)] of [m * 2^e], from the position of its value in units
    of [2^-53]. *)
Lemma scaled_round_near (m : positive) (e N : Z) :
  -53 <= e ->
  N * 2 ^ 54 <= 200 * (Zpos m * 2 ^ (e + 53)) + 2 ^ 53 < (N + 1) * 2 ^ 54 ->
  scaled_round m e 2 = N.
Proof.
  intros He H. unfold scaled_round. change (10 ^ Z.of_nat 2) with 100.
  destruct (Z.leb_spec 0 e) as [Hpos | Hneg].
  - rewrite Z.shiftl_mul_pow2 by lia.
    rewrite Z.pow_add_r in H by lia.
    set (M := Zpos m * 2 ^ e) in *.
    replace (Zpos m * (2 ^ e * 2 ^ 53)) with (M * 2 ^ 53) in H by (unfold M; ring).
    change (2 ^ 54) with (2 * 2 ^ 53) in H. lia.
  - rewrite Z.shiftl_mul_pow2, Z.shiftr_div_pow2 by lia.
    rewrite Z.mul_1_l.
    set (q := 2 ^ (- e)). set (s := 2 ^ (e + 53)) in *.
    assert (Hq : 0 < q) by (apply Z.pow_pos_nonneg; lia).
    assert (Hs : 0 < s) by (apply Z.pow_pos_nonneg; lia).
    assert (Hqs : q * s = 2 ^ 53).
    { unfold q, s. rewrite <- Z.pow_add_r by lia. f_equal. lia. }
    replace (2 ^ (- e + 1)) with (q * 2)
      by (unfold q; rewrite Z.pow_add_r by lia; reflexivity).
    symmetry.
    apply Z.div_unique with (2 * (Zpos m * 100) + q - q * 2 * N); [| ring].
    left.
    change (2 ^ 54) with (2 * 2 ^ 53) in H. rewrite <- Hqs in H.
    split.
    + apply (Z.mul_le_mono_pos_r _ _ s Hs). lia.
    + apply (Z.mul_lt_mono_pos_r s _ _ Hs). lia.
Qed.

Lemma ge_1e21_small (m : positive) (e : Z) :
  -53 <= e -> Zpos m * 2 ^ (e + 53) < 2 ^ 53 * 10 ^ 21 ->
  ge_1e21 m e = false.
Proof.
  intros He H. unfold ge_1e21.
  destruct (Z.leb_spec 0 e) as [Hpos | Hneg].
  - rewrite Z.shiftl_mul_pow2 by lia. apply Z.leb_gt.
    rewrite Z.pow_add_r in H by lia.
    set (M := Zpos m * 2 ^ e) in *.
    replace (Zpos m * (2 ^ e * 2 ^ 53)) with (M * 2 ^ 53) in H by (unfold M; ring).
    lia.
  - rewrite Z.shiftl_mul_pow2 by lia. apply Z.leb_gt.
    set (q := 2 ^ (- e)). set (s := 2 ^ (e + 53)) in *.
    assert (Hs : 0 < s) by (apply Z.pow_pos_nonneg; lia).
    assert (Hqs : q * s = 2 ^ 53).
    { unfold q, s. rewrite <- Z.pow_add_r by lia. f_equal. lia. }
    apply (Z.mul_lt_mono_pos_r s _ _ Hs).
    replace (10 ^ 21 * q * s) with (2 ^ 53 * 10 ^ 21) by (rewrite <- Hqs; ring).
    exact H.
Qed.

Local Open Scope string_scope.

Lemma append_assoc (a b c : string) : (a ++ b) ++ c = a ++ (b ++ c).
Proof. induction a as [| x a IH]; simpl; [reflexivity | now rewrite IH]. Qed.

Lemma split_at_app (a b : string) : split_at (String.length a) (a ++ b) = (a, b).
Proof.
  unfold split_at. induction a as [| x a IH]; simpl.
  - rewrite Nat.sub_0_r, substring_whole. now destruct b.
  - injection IH as H1 H2. now rewrite H1, H2.
Qed.

Lemma div_eucl_ten (a b : Z) :
  (0 <= b < 10)%Z -> Z.div_eucl (10 * a + b) 10 = (a, b).
Proof.
  intros Hb.
  pose proof (Z.div_unique (10 * a + b) 10 a b ltac:(lia) eq_refl) as Hq.
  pose proof (Z.mod_unique (10 * a + b) 10 a b ltac:(lia) eq_refl) as Hr.
  unfold Z.div, Z.modulo in Hq, Hr.
  destruct (Z.div_eucl (10 * a + b) 10) as [q r]. now subst.
Qed.

Lemma digits_go_app (fuel : nat) :
  forall n acc, digits_go fuel n acc = digits_go fuel n "" ++ acc.
Proof.
  induction fuel as [| f IH]; intros n acc; simpl; [reflexivity | ].
  destruct (Z.div_eucl n 10) as [q r].
  destruct (q =? 0)%Z; [reflexivity | ].
  rewrite (IH q (String (digit_char r) acc)), (IH q (String (digit_char r) "")).
  now rewrite append_assoc.
Qed.

Lemma digits_go_fuel (f1 : nat) :
  forall f2 n acc,
    (0 <= n < 10 ^ Z.of_nat (S f1))%Z -> (n < 10 ^ Z.of_nat (S f2))%Z ->
    digits_go (S f1) n acc = digits_go (S f2) n acc.
Proof.
  induction f1 as [| f1 IH]; intros f2 n acc H1 H2.
  - change (10 ^ Z.of_nat 1)%Z with 10%Z in H1.
    replace n with (10 * 0 + n)%Z by lia.
    cbn [digits_go]. rewrite div_eucl_ten by lia. reflexivity.
  - rewrite (Z.div_mod n 10) by lia.
    pose proof (Z.mod_pos_bound n 10 ltac:(lia)) as Hr.
    set (q := (n / 10)%Z) in *. set (r := (n mod 10)%Z) in *.
    assert (Hq : (0 <= q)%Z) by (apply Z.div_pos; lia).
    cbn [digits_go]. rewrite div_eucl_ten by lia.
    destruct (Z.eqb_spec q 0) as [| Hq0]; [reflexivity | ].
    assert (Hn : n = (10 * q + r)%Z) by (apply Z.div_mod; lia).
    rewrite Nat2Z.inj_succ, Z.pow_succ_r in H1, H2 by lia.
    destruct f2 as [| f2].
    + change (10 ^ Z.of_nat 0)%Z with 1%Z in H2. lia.
    + apply IH; lia.
Qed.

Lemma enough_fuel (n : Z) (f : nat) :
  (0 <= n)%Z -> (Z.log2 n < Z.of_nat f)%Z -> (n < 10 ^ Z.of_nat f)%Z.
Proof.
  intros Hn Hf.
  destruct (Z.eq_dec n 0) as [-> | Hne].
  - apply Z.pow_pos_nonneg; lia.
  - pose proof (Z.log2_spec n ltac:(lia)) as [_ Hup].
    assert (2 ^ Z.succ (Z.log2 n) <= 2 ^ Z.of_nat f)%Z
      by (apply Z.pow_le_mono_r; lia).
    assert (2 ^ Z.of_nat f <= 10 ^ Z.of_nat f)%Z
      by (apply Z.pow_le_mono_l; lia).
    lia.
Qed.

(** The decimal digits of [10 a + b] are those of [a] and then [b]. *)
Lemma digits_of_Z_snoc (a b : Z) :
  (1 <= a)%Z -> (0 <= b < 10)%Z ->
  digits_of_Z (10 * a + b) = digits_of_Z a ++ String (digit_char b) "".
Proof.
  intros Ha Hb. unfold digits_of_Z.
  cbn [digits_go]. rewrite div_eucl_ten by lia.
  destruct (Z.eqb_spec a 0) as [| _]; [lia | ].
  rewrite digits_go_app. f_equal.
  assert (Hlog : (Z.log2 a + 1 <= Z.log2 (10 * a + b))%Z).
  { replace (Z.log2 a + 1)%Z with (Z.log2 (2 * a))
      by (rewrite Z.log2_double; lia).
    apply Z.log2_le_mono. lia. }
  pose proof (Z.log2_nonneg a) as Hla.
  destruct (Z.to_nat (Z.log2 (10 * a + b))) as [| F] eqn:EF; [lia | ].
  apply digits_go_fuel.
  - split; [lia | ]. apply enough_fuel; lia.
  - apply enough_fuel; lia.
Qed.

Lemma digits_of_Z_nonempty (n : Z) : (1 <= String.length (digits_of_Z n))%nat.
Proof.
  unfold digits_of_Z. cbn [digits_go].
  destruct (Z.div_eucl n 10) as [q r].
  destruct (q =? 0)%Z; [simpl; lia | ].
  rewrite digits_go_app, length_app. simpl. lia.
Qed.

(** Two decimals after the digits of the hundreds. *)
Lemma fixed_digits_hundreds (n a b : Z) :
  (1 <= n)%Z -> (0 <= a < 10)%Z -> (0 <= b < 10)%Z ->
  fixed_digits (100 * n + (10 * a + b)) 2
  = digits_of_Z n ++ "." ++ String (digit_char a) (String (digit_char b) "").
Proof.
  intros Hn Ha Hb. unfold fixed_digits.
  replace (100 * n + (10 * a + b))%Z with (10 * (10 * n + a) + b)%Z by ring.
  rewrite digits_of_Z_snoc, digits_of_Z_snoc by lia.
  rewrite append_assoc. cbn [append].
  set (D := digits_of_Z n).
  set (t := String (digit_char a) (String (digit_char b) "")).
  pose proof (digits_of_Z_nonempty n) as HD. fold D in HD.
  assert (Hlen : String.length (D ++ t) = (String.length D + 2)%nat)
    by (rewrite length_app; reflexivity).
  rewrite Hlen.
  replace (3 - (String.length D + 2))%nat with 0%nat by lia.
  cbn [zeros append]. rewrite Hlen.
  replace (String.length D + 2 - 2)%nat with (String.length D) by lia.
  rewrite split_at_app. reflexivity.
Qed.

Local Open Scope Z_scope.

(** The integer parts for which the sum with [0.99] is printed with
    these two decimals: below [2^46] the doubles are at most [2^-7]
    apart, and at [2^46] the sum with [0.99] is printed with [.98]. *)
Definition integer_bound : Z := 2 ^ 46.

(** The same for [0.95]: from [2^46] to [2^47] the double nearest to
    the sum is [61/64] above the integer, and at [2^47] the sum is
    printed with [.94]. *)
Definition integer_bound_95 : Z := 2 ^ 47.

Lemma max_zero_positive (m : positive) (e : Z) :
  Math_max zero (S754_finite false m e) = S754_finite false m e.
Proof. reflexivity. Qed.

(** [n + c 2^-53] printed with two decimals, for a fraction [c 2^-53]
    next to the decimal [0.ab]. *)
Lemma integer_plus_cents (n : Z) (c : positive) (a b : Z) :
  1 <= n < integer_bound -> 2 ^ 52 <= Zpos c < 2 ^ 53 ->
  0 <= a < 10 -> 0 <= b < 10 ->
  (10 * a + b) * 2 ^ 54 + 200 * 2 ^ 45 <= 200 * Zpos c + 2 ^ 53 ->
  200 * Zpos c + 2 ^ 53 + 200 * 2 ^ 45 < (10 * a + b + 1) * 2 ^ 54 ->
  toFixed (Math_max zero (add (of_Z n) (S754_finite false c (-53)))) 2
  = (digits_of_Z n ++ "." ++ String (digit_char a) (String (digit_char b) ""))%string.
Proof.
  unfold integer_bound. intros Hn Hc Ha Hb Hlow Hhigh.
  destruct (add_fraction n c) as [m [e [-> [He Herr]]]]; try lia.
  rewrite max_zero_positive. unfold toFixed.
  set (Y := Zpos m * 2 ^ (e + 53)) in *.
  change (2 ^ 46) with 70368744177664 in *.
  change (2 ^ 45) with 35184372088832 in *.
  change (2 ^ 52) with 4503599627370496 in *.
  change (2 ^ 53) with 9007199254740992 in *.
  change (2 ^ 54) with 18014398509481984 in *.
  rewrite ge_1e21_small; [ | exact He | fold Y ].
  - rewrite (scaled_round_near m e (100 * n + (10 * a + b))); [ | exact He | fold Y ].
    + cbn [append]. apply fixed_digits_hundreds; lia.
    + change (2 ^ 53) with 9007199254740992.
      change (2 ^ 54) with 18014398509481984. lia.
  - change (2 ^ 53 * 10 ^ 21) with 9007199254740992000000000000000000000. lia.
Qed.

End FloatFacts.

(** ** Rounding and clamping of prices *)

Module RoundingProperties.

Import Wizard NumberFacts FloatFacts EngineComparison.
Local Open Scope Z_scope.

Lemma parse_099 : parseFloat "0.99" = S754_finite false 8917127262193582 (-53).
Proof. vm_compute. reflexivity. Qed.

Lemma parse_095 : parseFloat "0.95" = S754_finite false 8556839292003942 (-53).
Proof. vm_compute. reflexivity. Qed.

Lemma floor_plus_99 (n : Z) :
  0 <= n < integer_bound ->
  toFixed (Math_max zero (add (of_Z n) (parseFloat "0.99"))) 2
  = (digits_of_Z n ++ ".99")%string.
Proof.
  intros Hn. rewrite parse_099.
  destruct (Z.eq_dec n 0) as [-> | Hne]; [vm_compute; reflexivity | ].
  apply (integer_plus_cents n _ 9 9); unfold integer_bound in *; lia.
Qed.

Lemma floor_plus_95 (n : Z) :
  0 <= n < integer_bound_95 ->
  toFixed (Math_max zero (add (of_Z n) (parseFloat "0.95"))) 2
  = (digits_of_Z n ++ ".95")%string.
Proof.
  intros Hn. rewrite parse_095.
  destruct (Z.eq_dec n 0) as [-> | Hne]; [vm_compute; reflexivity | ].
  destruct (Z_lt_le_dec n (2 ^ 46)) as [Hlow | Hband].
  { apply (integer_plus_cents n _ 9 5); unfold integer_bound in *; lia. }
  unfold integer_bound_95 in Hn.
  destruct (add_fraction_band n 8556839292003942) as [m [e [q [-> [He [Hq Herr]]]]]];
    try lia.
  rewrite max_zero_positive. unfold toFixed.
  change (2 ^ 46) with 70368744177664 in *.
  change (2 ^ 47) with 140737488355328 in *.
  change (2 ^ 53) with 9007199254740992 in *.
  assert (Eq : q = 64 * n + 61) by lia. subst q.
  rewrite ge_1e21_small; [ | exact He | rewrite Hq ].
  - rewrite (scaled_round_near m e (100 * n + (10 * 9 + 5))); [ | exact He | rewrite Hq ].
    + cbn [append]. apply (fixed_digits_hundreds n 9 5); lia.
    + change (2 ^ 53) with 9007199254740992.
      change (2 ^ 54) with 18014398509481984. lia.
  - change (2 ^ 53 * 10 ^ 21) with 9007199254740992000000000000000000000. lia.
Qed.

(** The integer a number is, when it is one. *)
Definition integer_value (x : number) : option Z :=
  match x with
  | S754_zero _ => Some 0
  | S754_finite s m e =>
      if 0 <=? e then Some (cond_Zopp s (Zpos m * 2 ^ e))
      else if Zpos m mod 2 ^ (- e) =? 0
           then Some (cond_Zopp s (Zpos m / 2 ^ (- e)))
           else None
  | _ => None
  end.

Lemma whole_value (x : number) (n : Z) :
  integer_value x = Some n -> 0 <= n < 10 ^ 21 ->
  toFixed (Math_max zero x) 2 = (digits_of_Z n ++ ".00")%string.
Proof.
  intros Hx Hn. destruct x as [s | s | | s m e]; try discriminate.
  - injection Hx as <-. destruct s; reflexivity.
  - unfold integer_value in Hx.
    assert (Hs : s = false /\
                 ((0 <= e /\ n = Zpos m * 2 ^ e)
                  \/ (e < 0 /\ Zpos m = n * 2 ^ (- e)))).
    { destruct (Z.leb_spec 0 e) as [He | He].
      - assert (Hv : 0 < Zpos m * 2 ^ e)
          by (apply Z.mul_pos_pos; [lia | apply Z.pow_pos_nonneg; lia]).
        set (v := Zpos m * 2 ^ e) in *. injection Hx as Hx.
        destruct s; cbn [cond_Zopp] in Hx; [lia | ]. split; [reflexivity | ].
        left. lia.
      - assert (Hk : 0 < 2 ^ (- e)) by (apply Z.pow_pos_nonneg; lia).
        destruct (Z.eqb_spec (Zpos m mod 2 ^ (- e)) 0) as [Hmod | _];
          [ | discriminate].
        pose proof (Z.div_mod (Zpos m) (2 ^ (- e)) ltac:(lia)) as Hdm.
        rewrite Hmod, Z.add_0_r in Hdm.
        assert (Hv : 0 < Zpos m / 2 ^ (- e)) by nia.
        set (v := Zpos m / 2 ^ (- e)) in *. injection Hx as Hx.
        destruct s; cbn [cond_Zopp] in Hx; [lia | ]. split; [reflexivity | ].
        right. split; [lia | ]. rewrite <- Hx. lia. }
    destruct Hs as [-> Hval]. rewrite max_zero_positive. unfold toFixed.
    assert (Hpos : 1 <= n).
    { destruct Hval as [[He ->] | [He Hm]].
      - assert (0 < Zpos m * 2 ^ e)
          by (apply Z.mul_pos_pos; [lia | apply Z.pow_pos_nonneg; lia]). lia.
      - assert (Hk : 0 < 2 ^ (- e)) by (apply Z.pow_pos_nonneg; lia). nia. }
    assert (Hbelow : ge_1e21 m e = false).
    { unfold ge_1e21. destruct Hval as [[He Hv] | [He Hm]].
      - replace (0 <=? e) with true by (symmetry; apply Z.leb_le; lia).
        rewrite Z.shiftl_mul_pow2 by lia. apply Z.leb_gt. lia.
      - replace (0 <=? e) with false by (symmetry; apply Z.leb_gt; lia).
        rewrite Z.shiftl_mul_pow2 by lia. apply Z.leb_gt.
        assert (Hk : 0 < 2 ^ (- e)) by (apply Z.pow_pos_nonneg; lia).
        rewrite Hm. apply Z.mul_lt_mono_pos_r; lia. }
    rewrite Hbelow.
    assert (Hscaled : scaled_round m e 2 = 100 * n + (10 * 0 + 0)).
    { unfold scaled_round. change (10 ^ Z.of_nat 2) with 100.
      destruct Hval as [[He Hv] | [He Hm]].
      - replace (0 <=? e) with true by (symmetry; apply Z.leb_le; lia).
        rewrite Z.shiftl_mul_pow2 by lia. lia.
      - replace (0 <=? e) with false by (symmetry; apply Z.leb_gt; lia).
        rewrite Z.shiftl_mul_pow2, Z.shiftr_div_pow2 by lia.
        rewrite Z.mul_1_l.
        assert (Hk : 0 < 2 ^ (- e)) by (apply Z.pow_pos_nonneg; lia).
        replace (2 ^ (- e + 1)) with (2 ^ (- e) * 2)
          by (rewrite Z.pow_add_r by lia; reflexivity).
        rewrite Hm. symmetry.
        apply Z.div_unique with (2 ^ (- e)); [lia | ring]. }
    rewrite Hscaled. apply (fixed_digits_hundreds n 0 0); lia.
Qed.

(** A number [toFixed(2)] prints with digits: zero or finite and
    below [10^21]. *)
Definition below_1e21 (x : number) : Prop :=
  match x with
  | S754_zero _ => True
  | S754_finite _ m e => ge_1e21 m e = false
  | _ => False
  end.

Definition price_mod (ty value : string) (rounding : string) : Mod :=
  {| mod_field := "price"; mod_type := ty; mod_value := value;
     mod_value2 := None; mod_rounding := Some rounding |}.

(** C4, counterexample. With the rounding written [round_99], as
    the claim writes it, 19.50 increased by 5 gives 24.50: the modes
    of the code are written ["99"], ["95"], ["whole"] and ["none"].
    With an integer part of [2^46] the mode ["99"] gives a value that
    ends in [.98]: the double nearest to the sum is 0.984375 above the
    integer. With an integer part of [2^47] the mode ["95"] gives a
    value that ends in [.94]. And a result of [10^21] is printed as
    [1e+21], without decimals, in the mode ["whole"] as in the others. *)
Lemma rounding_as_claimed_fails :
  calcValue (Some "19.50"%string) (price_mod "increase_fixed" "5" "round_99")
  = Some "24.50"%string
  /\ calcValue (Some "70368744177664"%string) (price_mod "increase_fixed" "0" "99")
     = Some "70368744177664.98"%string
  /\ calcValue (Some "140737488355328"%string) (price_mod "increase_fixed" "0" "95")
     = Some "140737488355328.94"%string
  /\ calcValue (Some "1e21"%string) (price_mod "increase_fixed" "0" "whole")
     = Some "1e+21"%string
  /\ calcValue (Some "1e21"%string) (price_mod "increase_fixed" "0" "none")
     = Some "1e+21"%string.
Proof. repeat split; vm_compute; reflexivity. Qed.

(** C4, amended. [calcValue] on a price field ([price],
    [compareAtPrice]) with a modification whose value parses to a
    number. Writing [r] for the arithmetic result: the value returned,
    by the wizard and by the webhook alike, is [toFixed(2)] of the
    rounded result clamped at zero; the modes ["none"] and absent leave
    [r] as it is; in mode ["99"], when [Math.floor(r)] is the
    integer [n] with [0 <= n < 2^46], the [integer_bound], the value
    is the digits of [n] followed by [.99]; in mode ["95"], when
    [Math.floor(r)] is the integer [n] with [0 <= n < 2^47], the
    [integer_bound_95], it is the digits of [n] followed by [.95]; in
    mode ["whole"], when [Math.round(r)] is the integer [n] with
    [0 <= n < 10^21], it is the digits of [n] followed by [.00]; a
    rounded result that is negative or zero gives ["0.00"]; the value
    never starts with a minus sign; and whenever the clamped number is
    finite and below [10^21] the value is digits, a point and two
    digits. Concretely, 19.50 increased by 5 gives 24.99 in mode
    ["99"] and 25.00 in mode ["whole"], and 19.50 decreased by 25
    gives 0.00. *)
Theorem price_rounding_and_clamping :
  (forall (current : option string) (m : Mod),
      In (mod_field m) ["price"; "compareAtPrice"]%string ->
      isNaN (parseFloat (mod_value m)) = false ->
      let r := arith (mod_type m) (parseFloat (or_default current "0"))
                     (parseFloat (mod_value m)) in
      let r' := rounded (mod_rounding m) r in
      exists out : string,
        calcValue current m = Some out
        /\ Webhook.calcValue current m = Some out
        /\ out = toFixed (Math_max zero r') 2
        /\ (mod_rounding m = Some "none"%string \/ mod_rounding m = None -> r' = r)
        /\ (forall n : Z,
               mod_rounding m = Some "99"%string -> Math_floor r = of_Z n ->
               0 <= n < integer_bound ->
               out = (digits_of_Z n ++ ".99")%string)
        /\ (forall n : Z,
               mod_rounding m = Some "95"%string -> Math_floor r = of_Z n ->
               0 <= n < integer_bound_95 ->
               out = (digits_of_Z n ++ ".95")%string)
        /\ (forall n : Z,
               mod_rounding m = Some "whole"%string ->
               integer_value (Math_round r) = Some n ->
               0 <= n < 10 ^ 21 ->
               out = (digits_of_Z n ++ ".00")%string)
        /\ (sign_set_or_zero r' = true -> out = "0.00"%string)
        /\ head_is_minus out = false
        /\ (below_1e21 (Math_max zero r') -> two_decimals out))
  /\ calcValue (Some "19.50"%string) (price_mod "increase_fixed" "5" "99")
     = Some "24.99"%string
  /\ calcValue (Some "19.50"%string) (price_mod "increase_fixed" "5" "whole")
     = Some "25.00"%string
  /\ calcValue (Some "19.50"%string) (price_mod "decrease_fixed" "25" "none")
     = Some "0.00"%string.
Proof.
  split; [| repeat split; vm_compute; reflexivity].
  intros current m Hfield Hvalue r r'.
  exists (toFixed (Math_max zero r') 2).
  assert (Hcalc : calcValue current m = Some (toFixed (Math_max zero r') 2)).
  { unfold calcValue. simpl in Hfield.
    destruct Hfield as [e | [e | []]]; rewrite <- e.
    - lookup_fields "price"%string. rewrite Hvalue.
      change (mem "price" priceFields) with true. reflexivity.
    - lookup_fields "compareAtPrice"%string. rewrite Hvalue.
      change (mem "compareAtPrice" priceFields) with true. reflexivity. }
  split; [exact Hcalc | ].
  split.
  { rewrite <- Hcalc. symmetry. apply calcValue_agree_price.
    simpl in Hfield. destruct Hfield as [e | [e | []]]; auto. }
  split; [reflexivity | ].
  split.
  { subst r'. intros [H | H]; rewrite H; reflexivity. }
  split.
  { intros n Hmode Hfloor Hn. subst r'. rewrite Hmode. unfold rounded.
    change ("99" =? "99")%string with true. cbv iota.
    rewrite Hfloor. now apply floor_plus_99. }
  split.
  { intros n Hmode Hfloor Hn. subst r'. rewrite Hmode. unfold rounded.
    change ("95" =? "99")%string with false.
    change ("95" =? "95")%string with true. cbv iota.
    rewrite Hfloor. now apply floor_plus_95. }
  split.
  { intros n Hmode Hround Hn. subst r'. rewrite Hmode. unfold rounded.
    change ("whole" =? "99")%string with false.
    change ("whole" =? "95")%string with false.
    change ("whole" =? "whole")%string with true. cbv iota.
    now apply whole_value. }
  split.
  { intros Hneg. now rewrite (max_zero_of_negative r' Hneg). }
  split.
  { apply toFixed_clamped_head, max_zero_clamped. }
  intros Hbelow. apply toFixed_clamped_two; [apply max_zero_clamped | exact Hbelow].
Qed.

Lemma price_rounding_and_clamping_witness :
  calcValue (Some "19.50"%string) (price_mod "increase_fixed" "5" "99")
  = Some (digits_of_Z 24 ++ ".99")%string
  /\ calcValue (Some "19.50"%string) (price_mod "increase_fixed" "5" "whole")
     = Some (digits_of_Z 25 ++ ".00")%string.
Proof.
  split.
  - destruct (proj1 price_rounding_and_clamping (Some "19.50"%string)
                (price_mod "increase_fixed" "5" "99"))
      as [out [Hcalc [_ [_ [_ [H99 _]]]]]].
    + simpl. tauto.
    + vm_compute. reflexivity.
    + rewrite Hcalc. f_equal. apply (H99 24).
      * reflexivity.
      * vm_compute. reflexivity.
      * split; [lia | reflexivity].
  - destruct (proj1 price_rounding_and_clamping (Some "19.50"%string)
                (price_mod "increase_fixed" "5" "whole"))
      as [out [Hcalc [_ [_ [_ [_ [_ [Hwhole _]]]]]]]].
    + simpl. tauto.
    + vm_compute. reflexivity.
    + rewrite Hcalc. f_equal. apply (Hwhole 25).
      * reflexivity.
      * vm_compute. reflexivity.
      * split; [lia | reflexivity].
Defined.

End RoundingProperties.

(** ** [split], [join] and [trim] *)

Module StringFacts.

Lemma append_nil_r (s : string) : s ++ "" = s.
Proof. induction s as [| c s IH]; simpl; [reflexivity | now rewrite IH]. Qed.

(** [s] without its first [k] characters. *)
Fixpoint drop (k : nat) (s : string) : string :=
  match k, s with
  | O, _ => s
  | S j, String _ r => drop j r
  | S _, EmptyString => EmptyString
  end.

Lemma prefix_drop (p s : string) :
  String.prefix p s = true -> s = p ++ drop (String.length p) s.
Proof.
  revert s. induction p as [| c p IH]; intros s H; [reflexivity | ].
  destruct s as [| d s]; [discriminate | ]. simpl in H.
  destruct (Ascii.ascii_dec c d) as [-> | ne].
  - simpl. f_equal. now apply IH.
  - discriminate.
Qed.

Lemma split_go_nonempty (sep s : string) (k : nat) (tok : string) :
  split_go sep s k tok <> [].
Proof.
  revert k tok. induction s as [| c r IH]; intros k tok; cbn [split_go]; [easy | ].
  destruct k; [ | apply IH].
  destruct (String.prefix sep (String c r)); [easy | apply IH].
Qed.

Lemma join_cons (sep x : string) (l : list string) :
  l <> [] -> join sep (x :: l) = x ++ sep ++ join sep l.
Proof. destruct l; [congruence | reflexivity]. Qed.

(** Joining what [split_go] returns gives the token read so far and
    the text after the characters still to be passed over. *)
Lemma join_split_go (c0 : ascii) (sep' : string) (s : string) :
  forall (k : nat) (tok : string),
    join (String c0 sep') (split_go (String c0 sep') s k tok) = tok ++ drop k s.
Proof.
  induction s as [| c r IH]; intros k tok.
  - simpl. destruct k; simpl; now rewrite append_nil_r.
  - destruct k as [| k]; [ | apply IH].
    cbn [split_go drop].
    destruct (String.prefix (String c0 sep') (String c r)) eqn:Hp.
    + rewrite join_cons by apply split_go_nonempty.
      rewrite IH. cbn [append pred String.length].
      apply prefix_drop in Hp. cbn [String.length drop append] in Hp.
      now rewrite <- Hp.
    + rewrite IH. cbn [drop]. rewrite FloatFacts.append_assoc. reflexivity.
Qed.

Lemma join_chars (s : string) : join "" (chars s) = s.
Proof.
  induction s as [| c r IH]; [reflexivity | ].
  cbn [chars]. destruct r as [| d r'].
  - reflexivity.
  - unfold join in *. cbn [chars String.concat] in *. cbn [append].
    f_equal. exact IH.
Qed.

(** [s.split(sep).join(sep)] is [s]. *)
Lemma join_split (s sep : string) : join sep (split s sep) = s.
Proof.
  destruct sep as [| c0 sep']; [apply join_chars | ].
  unfold split. now rewrite join_split_go.
Qed.

(** Where [sep] does not occur, nothing is split off. *)
Lemma split_go_absent (sep s : string) :
  forall tok : string,
    includes s sep = false -> split_go sep s 0 tok = [tok ++ s].
Proof.
  induction s as [| c r IH]; intros tok H.
  - simpl. now rewrite append_nil_r.
  - cbn [includes] in H. apply orb_false_iff in H as [Hp Hr].
    cbn [split_go]. rewrite Hp. rewrite IH by exact Hr.
    now rewrite FloatFacts.append_assoc.
Qed.

Lemma split_absent (s sep : string) :
  sep <> "" -> includes s sep = false -> split s sep = [s].
Proof.
  intros Hne H. destruct sep as [| c0 sep']; [congruence | ].
  unfold split. now rewrite split_go_absent.
Qed.

(** *** [trim] *)

Definition head_not_space (s : string) : Prop :=
  match s with
  | EmptyString => True
  | String c _ => is_space c = false
  end.

Lemma trimStart_head (s : string) : head_not_space (trimStart s).
Proof.
  induction s as [| c r IH]; simpl; [exact I | ].
  destruct (is_space c) eqn:E; [exact IH | exact E].
Qed.

Lemma trimStart_fixed (s : string) : head_not_space s -> trimStart s = s.
Proof. destruct s as [| c r]; simpl; [reflexivity | ]. now intros ->. Qed.

Lemma trimEnd_cons (c : ascii) (r : string) :
  trimEnd (String c r)
  = match trimEnd r with
    | EmptyString => if is_space c then EmptyString else String c EmptyString
    | r' => String c r'
    end.
Proof. reflexivity. Qed.

Lemma trimEnd_idem (s : string) : trimEnd (trimEnd s) = trimEnd s.
Proof.
  induction s as [| c r IH]; [reflexivity | ].
  rewrite trimEnd_cons. destruct (trimEnd r) as [| d r'] eqn:E.
  - destruct (is_space c) eqn:Ec; [reflexivity | ].
    rewrite trimEnd_cons. cbn [trimEnd]. now rewrite Ec.
  - rewrite trimEnd_cons, IH. reflexivity.
Qed.

Lemma trimEnd_head (s : string) : head_not_space s -> head_not_space (trimEnd s).
Proof.
  destruct s as [| c r]; [trivial | ]. rewrite trimEnd_cons.
  cbn [head_not_space]. intros Hc.
  destruct (trimEnd r); [now rewrite Hc | exact Hc].
Qed.

Lemma trim_idem (s : string) : trim (trim s) = trim s.
Proof.
  unfold trim.
  rewrite (trimStart_fixed (trimEnd (trimStart s)))
    by apply trimEnd_head, trimStart_head.
  apply trimEnd_idem.
Qed.

End StringFacts.

(** ** Tag lists and their text *)

Module TagFacts.

Import StringFacts SetFacts.

(** [s.split(",").map(t => t.trim()).filter(Boolean)], the reading
    of a tag text shared by the wizard, the webhook and the executor. *)
Definition read_tags (s : string) : list string :=
  filter truthy (map trim (split s ",")).

Definition comma_free (t : string) : Prop := includes t "," = false.

(** A tag as [read_tags] returns it: not empty, trimmed, without a
    comma. *)
Definition tidy (t : string) : Prop :=
  t <> "" /\ trim t = t /\ comma_free t.

Lemma comma_free_cons (c : ascii) (r : string) :
  comma_free (String c r) <-> c <> ","%char /\ comma_free r.
Proof.
  unfold comma_free. cbn [includes String.prefix].
  destruct (Ascii.ascii_dec "," c) as [<- | ne].
  - destruct r; simpl; split; try discriminate; intros [H _]; congruence.
  - simpl. split; [intros H; split; [congruence | exact H] | tauto].
Qed.

Lemma comma_free_app (a b : string) :
  comma_free a -> comma_free b -> comma_free (a ++ b).
Proof.
  induction a as [| c a IH]; intros Ha Hb; [exact Hb | ].
  cbn [append]. apply comma_free_cons. apply comma_free_cons in Ha as [Hc Ha].
  split; [exact Hc | now apply IH].
Qed.

Lemma comma_free_trimStart (s : string) : comma_free s -> comma_free (trimStart s).
Proof.
  induction s as [| c r IH]; intros H; [exact H | ].
  cbn [trimStart]. destruct (is_space c); [ | exact H].
  apply IH. now apply comma_free_cons in H.
Qed.

Lemma comma_free_trimEnd (s : string) : comma_free s -> comma_free (trimEnd s).
Proof.
  induction s as [| c r IH]; intros H; [exact H | ].
  rewrite trimEnd_cons. apply comma_free_cons in H as [Hc Hr].
  specialize (IH Hr). destruct (trimEnd r) as [| d r'].
  - destruct (is_space c); [reflexivity | ].
    apply comma_free_cons. split; [exact Hc | reflexivity].
  - apply comma_free_cons. split; [exact Hc | exact IH].
Qed.

Lemma comma_free_trim (s : string) : comma_free s -> comma_free (trim s).
Proof. intros H. now apply comma_free_trimEnd, comma_free_trimStart. Qed.

(** On the separator [","] the count of characters to pass over is
    always zero. *)
Lemma split_go_comma (c : ascii) (r tok : string) :
  split_go "," (String c r) 0 tok
  = if Ascii.eqb c "," then tok :: split_go "," r 0 ""
    else split_go "," r 0 (tok ++ String c "").
Proof.
  cbn [split_go String.prefix String.length pred].
  destruct (Ascii.ascii_dec "," c) as [<- | ne].
  - destruct r; reflexivity.
  - destruct (Ascii.eqb_spec c ","); [congruence | reflexivity].
Qed.

Lemma split_go_tokens (s : string) :
  forall tok t : string,
    comma_free tok -> In t (split_go "," s 0 tok) -> comma_free t.
Proof.
  induction s as [| c r IH]; intros tok t Htok Hin.
  - simpl in Hin. destruct Hin as [<- | []]. exact Htok.
  - rewrite split_go_comma in Hin. destruct (Ascii.eqb_spec c ",") as [-> | ne].
    + destruct Hin as [<- | Hin]; [exact Htok | ].
      apply (IH "" t); [reflexivity | exact Hin].
    + apply (IH (tok ++ String c "") t); [ | exact Hin].
      apply comma_free_app; [exact Htok | ].
      apply comma_free_cons. split; [exact ne | reflexivity].
Qed.

Lemma truthy_nonempty (s : string) : truthy s = true <-> s <> "".
Proof. destruct s; simpl; split; congruence. Qed.

(** Every tag read off a text is tidy. *)
Lemma read_tags_tidy (s t : string) : In t (read_tags s) -> tidy t.
Proof.
  unfold read_tags. intros H. apply filter_In in H as [H Ht].
  apply in_map_iff in H as [x [<- Hx]].
  split; [now apply truthy_nonempty | ].
  split; [apply trim_idem | ].
  apply comma_free_trim. unfold split in Hx.
  apply (split_go_tokens s "" x); [reflexivity | exact Hx].
Qed.

Lemma split_go_skip (t : string) :
  forall s tok : string,
    comma_free t -> split_go "," (t ++ s) 0 tok = split_go "," s 0 (tok ++ t).
Proof.
  induction t as [| c t IH]; intros s tok H.
  - now rewrite append_nil_r.
  - cbn [append]. apply comma_free_cons in H as [Hc Ht].
    rewrite split_go_comma.
    destruct (Ascii.eqb_spec c ","); [contradiction | ].
    rewrite IH by exact Ht. now rewrite FloatFacts.append_assoc.
Qed.

Lemma trim_after_space (t : string) : trim (String " " t) = trim t.
Proof. reflexivity. Qed.

(** The tokens after the first one: each tag with the space that
    follows the comma. *)
Lemma split_go_spaced (l : list string) :
  Forall tidy l -> l <> [] ->
  map trim (split_go "," (String " " (join ", " l)) 0 "") = l.
Proof.
  induction l as [| t l IH]; intros Hall Hne; [congruence | ].
  inversion Hall as [| ? ? [Ht0 [Ht1 Ht2]] Hrest]; subst.
  destruct l as [| t' l'].
  - change (join ", " [t]) with t.
    rewrite <- (append_nil_r (String " " t)).
    rewrite split_go_skip.
    + cbn [split_go map append]. now rewrite trim_after_space, Ht1.
    + apply comma_free_cons. split; [discriminate | exact Ht2].
  - rewrite join_cons by discriminate.
    change (String " " (t ++ ", " ++ join ", " (t' :: l')))
      with (String " " t ++ String "," (String " " (join ", " (t' :: l')))).
    rewrite split_go_skip
      by (apply comma_free_cons; split; [discriminate | exact Ht2]).
    rewrite split_go_comma. cbn [Ascii.eqb Bool.eqb andb].
    cbn [map append]. rewrite trim_after_space, Ht1. f_equal.
    apply IH; [exact Hrest | discriminate].
Qed.

(** Reading a text written with [join(", ")] from tidy tags gives
    the tags back. *)
Lemma read_tags_join (l : list string) :
  Forall tidy l -> read_tags (join ", " l) = l.
Proof.
  intros Hall. unfold read_tags.
  assert (Hmap : l <> [] -> map trim (split (join ", " l) ",") = l).
  { intros Hne. destruct l as [| t l]; [congruence | ].
    inversion Hall as [| ? ? [Ht0 [Ht1 Ht2]] Hrest]; subst.
    unfold split. destruct l as [| t' l'].
    - change (join ", " [t]) with t. rewrite <- (append_nil_r t) at 1.
      rewrite split_go_skip by exact Ht2. cbn [split_go map append].
      now rewrite Ht1.
    - rewrite join_cons by discriminate.
      change (t ++ ", " ++ join ", " (t' :: l'))
        with (t ++ String "," (String " " (join ", " (t' :: l')))).
      rewrite split_go_skip by exact Ht2.
      rewrite split_go_comma. cbn [Ascii.eqb Bool.eqb andb].
      cbn [map append]. rewrite Ht1. f_equal.
      apply split_go_spaced; [exact Hrest | discriminate]. }
  destruct l as [| t l]; [reflexivity | ].
  rewrite Hmap by discriminate.
  apply forallb_filter_id. apply forallb_forall. intros x Hx.
  rewrite Forall_forall in Hall. apply truthy_nonempty. now apply Hall.
Qed.

End TagFacts.

(** ** Text and tag modifications *)

Module ModificationProperties.

Import StringFacts SetFacts TagFacts EngineComparison.

Lemma or_default_some_string (s : string) : or_default (Some s) "" = s.
Proof. destruct s; reflexivity. Qed.

Lemma dedup_absorbs (r n : list string) :
  NoDup r -> (forall x, In x n -> In x r) -> dedup (r ++ n)%list = r.
Proof.
  intros Hr. induction n as [| x n IH] using rev_ind; intros Hn.
  - rewrite app_nil_r. now apply dedup_fixed.
  - rewrite app_assoc, dedup_snoc.
    assert (Hx : mem x (r ++ n)%list = true).
    { apply mem_In, in_or_app. left. apply Hn, in_or_app. right. now left. }
    rewrite Hx. apply IH. intros y Hy. apply Hn, in_or_app. now left.
Qed.

Definition add_tags (value : string) : Mod :=
  {| mod_field := "tags"; mod_type := "add"; mod_value := value;
     mod_value2 := None; mod_rounding := None |}.

(** X2. Adding tags: for a modification of [tags] with type [add],
    the text [calcValue] returns reads back as the current tags
    followed by the new ones, each tag once; computing again from
    that text with the same modification returns the same text, in
    the wizard and in the webhook. *)
Theorem add_tags_idempotent (current : option string) (m : Mod) (out : string) :
  mod_field m = "tags" -> mod_type m = "add" ->
  Wizard.calcValue current m = Some out ->
  read_tags out
    = dedup (read_tags (or_default current "") ++ read_tags (mod_value m))%list
  /\ Wizard.calcValue (Some out) m = Some out
  /\ Webhook.calcValue current m = Some out
  /\ Webhook.calcValue (Some out) m = Some out.
Proof.
  intros Hf Ht Hcalc.
  assert (Hw : forall c, Wizard.calcValue c m
                         = Some (join ", " (dedup (read_tags (or_default c "")
                                                   ++ read_tags (mod_value m))%list))).
  { intros c. unfold Wizard.calcValue. rewrite Hf. lookup_fields "tags".
    rewrite Ht. reflexivity. }
  assert (Hh : forall c, Webhook.calcValue c m = Wizard.calcValue c m).
  { intros c. unfold Wizard.calcValue, Webhook.calcValue. rewrite Hf.
    lookup_fields "tags". rewrite Ht. reflexivity. }
  rewrite Hw in Hcalc. injection Hcalc as Hout.
  set (R := dedup (read_tags (or_default current "") ++ read_tags (mod_value m))%list)
    in *.
  assert (Htidy : Forall tidy R).
  { apply Forall_forall. intros t Hin. unfold R in Hin.
    apply dedup_In, in_app_or in Hin as [H | H]; eapply read_tags_tidy; exact H. }
  assert (Hread : read_tags out = R) by (subst out; now apply read_tags_join).
  assert (Hagain : Wizard.calcValue (Some out) m = Some out).
  { rewrite Hw, or_default_some_string, Hread. f_equal. rewrite <- Hout.
    f_equal. apply dedup_absorbs; [apply dedup_NoDup | ].
    intros x Hx. apply dedup_In, in_or_app. now right. }
  repeat split.
  - exact Hread.
  - exact Hagain.
  - rewrite Hh, Hw. now f_equal.
  - now rewrite Hh.
Qed.

Lemma add_tags_idempotent_witness :
  Wizard.calcValue (Some "sale, new") (add_tags "new,summer")
    = Some "sale, new, summer"
  /\ Wizard.calcValue (Some "sale, new, summer") (add_tags "new,summer")
     = Some "sale, new, summer".
Proof.
  assert (H : Wizard.calcValue (Some "sale, new") (add_tags "new,summer")
              = Some "sale, new, summer") by (vm_compute; reflexivity).
  split; [exact H | ].
  exact (proj1 (proj2 (add_tags_idempotent (Some "sale, new") (add_tags "new,summer")
                         "sale, new, summer" eq_refl eq_refl H))).
Defined.

(** *** Find and replace *)

Definition text_fields : list string :=
  ["sku"; "barcode"; "title"; "vendor"; "productType"; "templateSuffix"].

Lemma text_calcValue (cur : string) (m : Mod) :
  In (mod_field m) text_fields -> mod_type m = "find_replace" ->
  Wizard.calcValue (Some cur) m
  = Some (join (or_default (mod_value2 m) "") (split cur (mod_value m))).
Proof.
  intros Hin Ht. unfold Wizard.calcValue. simpl in Hin.
  destruct Hin as [e | [e | [e | [e | [e | [e | []]]]]]]; rewrite <- e.
  - lookup_fields "sku". rewrite Ht, or_default_some_string. reflexivity.
  - lookup_fields "barcode". rewrite Ht, or_default_some_string. reflexivity.
  - lookup_fields "title". rewrite Ht, or_default_some_string. reflexivity.
  - lookup_fields "vendor". rewrite Ht, or_default_some_string. reflexivity.
  - lookup_fields "productType". rewrite Ht, or_default_some_string. reflexivity.
  - lookup_fields "templateSuffix". rewrite Ht, or_default_some_string. reflexivity.
Qed.

Definition replace_in (f find by_ : string) : Mod :=
  {| mod_field := f; mod_type := "find_replace"; mod_value := find;
     mod_value2 := Some by_; mod_rounding := None |}.

(** X3. Find and replace on a text field leaves the current value as
    it is when the text looked for is not empty and does not occur in
    it, and when the replacement is the text looked for (whatever that
    text is, the empty one included). *)
Theorem find_replace_unchanged (cur : string) (m : Mod) :
  In (mod_field m) text_fields -> mod_type m = "find_replace" ->
  (mod_value m <> "" /\ includes cur (mod_value m) = false)
  \/ mod_value2 m = Some (mod_value m) ->
  Wizard.calcValue (Some cur) m = Some cur.
Proof.
  intros Hin Ht Hcase. rewrite text_calcValue by assumption. f_equal.
  destruct Hcase as [[Hne Habs] | Hsame].
  - rewrite split_absent by assumption. reflexivity.
  - rewrite Hsame.
    replace (or_default (Some (mod_value m)) "") with (mod_value m)
      by (symmetry; apply or_default_some_string).
    apply join_split.
Qed.

Lemma find_replace_unchanged_witness :
  Wizard.calcValue (Some "Blue Mug") (replace_in "title" "Cup" "Glass")
    = Some "Blue Mug"
  /\ includes "Blue Mug" "Cup" = false.
Proof.
  split; [ | reflexivity].
  apply (find_replace_unchanged "Blue Mug" (replace_in "title" "Cup" "Glass")).
  - simpl. tauto.
  - reflexivity.
  - left. split; [discriminate | reflexivity].
Defined.

End ModificationProperties.

(** ** Planning again after applying *)

Module IdempotenceProperties.

Import Wizard NumberFacts SetFacts TagFacts EngineComparison PlannerProperties.
Local Open Scope list_scope.

(** What the loader reads for a product after [productUpdate] has
    written [v] under [f], the assignment [execute] puts in
    [productInput].  The queries of the loader ask for the title, the
    status, the product type, the vendor and the tags; they do not ask
    for [templateSuffix], so what is written under it never shows. *)
Definition store_product_field (p : Product) (f v : string) : Product :=
  if f =? "title" then
    {| product_id := product_id p; title := Some v; handle := handle p;
       status := status p; productType := productType p; vendor := vendor p;
       tags := tags p; templateSuffix := templateSuffix p;
       featuredMedia := featuredMedia p; variants := variants p |}
  else if f =? "vendor" then
    {| product_id := product_id p; title := title p; handle := handle p;
       status := status p; productType := productType p; vendor := Some v;
       tags := tags p; templateSuffix := templateSuffix p;
       featuredMedia := featuredMedia p; variants := variants p |}
  else if f =? "productType" then
    {| product_id := product_id p; title := title p; handle := handle p;
       status := status p; productType := Some v; vendor := vendor p;
       tags := tags p; templateSuffix := templateSuffix p;
       featuredMedia := featuredMedia p; variants := variants p |}
  else if f =? "status" then
    {| product_id := product_id p; title := title p; handle := handle p;
       status := Some v; productType := productType p; vendor := vendor p;
       tags := tags p; templateSuffix := templateSuffix p;
       featuredMedia := featuredMedia p; variants := variants p |}
  else if f =? "tags" then
    {| product_id := product_id p; title := title p; handle := handle p;
       status := status p; productType := productType p; vendor := vendor p;
       tags := Some (Executor.tag_list v); templateSuffix := templateSuffix p;
       featuredMedia := featuredMedia p; variants := variants p |}
  else p.

(** What the loader reads for a variant after
    [productVariantsBulkUpdate] has written [x] under [f]; the weight
    is sent as [parseFloat(newValue)] and read with the query that asks
    for it. *)
Definition store_variant_field (v : Variant) (f x : string) : Variant :=
  if f =? "price" then
    {| variant_id := variant_id v; variant_title := variant_title v;
       price := Some x; compareAtPrice := compareAtPrice v; sku := sku v;
       barcode := barcode v; inventoryQuantity := inventoryQuantity v;
       weight := weight v |}
  else if f =? "compareAtPrice" then
    {| variant_id := variant_id v; variant_title := variant_title v;
       price := price v; compareAtPrice := Some x; sku := sku v;
       barcode := barcode v; inventoryQuantity := inventoryQuantity v;
       weight := weight v |}
  else if f =? "sku" then
    {| variant_id := variant_id v; variant_title := variant_title v;
       price := price v; compareAtPrice := compareAtPrice v; sku := Some x;
       barcode := barcode v; inventoryQuantity := inventoryQuantity v;
       weight := weight v |}
  else if f =? "barcode" then
    {| variant_id := variant_id v; variant_title := variant_title v;
       price := price v; compareAtPrice := compareAtPrice v; sku := sku v;
       barcode := Some x; inventoryQuantity := inventoryQuantity v;
       weight := weight v |}
  else if f =? "weight" then
    {| variant_id := variant_id v; variant_title := variant_title v;
       price := price v; compareAtPrice := compareAtPrice v; sku := sku v;
       barcode := barcode v; inventoryQuantity := inventoryQuantity v;
       weight := Some (parseFloat x) |}
  else v.

(** The variant a variant-level change addresses. *)
Definition targets_variant (c : Change) (v : Variant) : bool :=
  Executor.same_id (variantId c) (Some (variant_id v)).

Definition apply_to_variant (c : Change) (v : Variant) : Variant :=
  if targets_variant c v then store_variant_field v (field c) (newValue c) else v.

Definition set_variants (p : Product) (vs : list Variant) : Product :=
  {| product_id := product_id p; title := title p; handle := handle p;
     status := status p; productType := productType p; vendor := vendor p;
     tags := tags p; templateSuffix := templateSuffix p;
     featuredMedia := featuredMedia p; variants := vs |}.

(** The snapshot of a product after one change has been applied by
    the catalog and the product loaded again: a change of another
    product leaves it as it is, a change on a product field of
    [execute] writes that field, a change on a variant field of
    [execute] writes it on the variant it addresses. *)
Definition apply_change (c : Change) (p : Product) : Product :=
  if productId c =? product_id p then
    if mem (field c) Executor.execute_product_fields then
      store_product_field p (field c) (newValue c)
    else if mem (field c) Executor.execute_variant_fields then
      set_variants p (map (apply_to_variant c) (variants p))
    else p
  else p.

Definition apply_changes (cs : list Change) (p : Product) : Product :=
  fold_left (fun q c => apply_change c q) cs p.

(** Modelled from the spec: [plan_apply], the entities as the
    loader reads them once the catalog, which is external, has stored
    every planned new value as [execute] sends it. *)
Definition plan_apply (entities : list Product) (modifications : list Mod)
  : list Product :=
  map (apply_changes (changes 3 entities modifications)) entities.

Definition modification (f ty value : string) (value2 : option string) : Mod :=
  {| mod_field := f; mod_type := ty; mod_value := value; mod_value2 := value2;
     mod_rounding := Some "none" |}.

Definition price_plus_five : Mod := modification "price" "increase_fixed" "5" None.

(** The old and new values of the changes planned for the product priced
    10.00, and of those planned again once they have been applied. *)
Definition first_plan (modifications : list Mod) : list (string * string) :=
  map (fun c => (oldValue c, newValue c))
      (changes 3 [ten_dollar_product] modifications).

Definition replanned (modifications : list Mod) : list (string * string) :=
  map (fun c => (oldValue c, newValue c))
      (changes 3 (plan_apply [ten_dollar_product] modifications) modifications).

(** C3, counterexample. A modification that computes from the
    current value is planned again after it has been applied. A price
    of 10.00 increased by 5 is planned to 15.00; once applied,
    planning again with the same modification gives a change from
    15.00 to 20.00. The same holds of a decrease by an amount, of an
    increase and a decrease by a percentage, on the weight as on the
    price, and of [prepend], [append] and [find_replace] on a text.
    Two modifications of one field are planned again as well: of
    [set A] and [set B] on the title the second is applied last, so
    the first is planned again. *)
Lemma planning_again_after_relative :
  first_plan [price_plus_five] = [("10.00", "15.00")]
  /\ replanned [price_plus_five] = [("15.00", "20.00")]
  /\ replanned [modification "price" "decrease_fixed" "5" None]
     = [("5.00", "0.00")]
  /\ replanned [modification "price" "increase_percent" "10" None]
     = [("11.00", "12.10")]
  /\ replanned [modification "price" "decrease_percent" "10" None]
     = [("9.00", "8.10")]
  /\ replanned [modification "weight" "increase_fixed" "1" None]
     = [("1", "2")]
  /\ replanned [modification "title" "prepend" "New " None]
     = [("New Shirt", "New New Shirt")]
  /\ replanned [modification "title" "append" "!" None]
     = [("Shirt!", "Shirt!!")]
  /\ replanned [modification "title" "find_replace" "S" (Some "SS")]
     = [("SShirt", "SSSShirt")]
  /\ replanned [modification "title" "set" "A" None;
                modification "title" "set" "B" None]
     = [("B", "A")].
Proof. repeat split; vm_compute; reflexivity. Qed.

(** What the loader does not read back as it was written is
    planned again however often it is applied: the template suffix,
    which its queries do not ask for, and a tag text set in another
    form than the one the page shows. *)
Lemma unread_values_are_planned_again :
  first_plan [suffix_to_alt] = [("", "alt")]
  /\ replanned [suffix_to_alt] = [("", "alt")]
  /\ replanned [modification "tags" "set" "new,summer" None]
     = [("new, summer", "new,summer")].
Proof. repeat split; vm_compute; reflexivity. Qed.

(** *** Modifications that settle the value they write *)

Definition product_targets : list string :=
  ["title"; "vendor"; "productType"; "status"; "tags"].

Definition variant_targets : list string :=
  ["price"; "compareAtPrice"; "sku"; "barcode"; "weight"].

(** The text [changes] reads for the product field [f] once [v] has
    been written under it: the tags are stored as a list and shown
    joined by a comma and a space. *)
Definition stored_text (f v : string) : string :=
  if f =? "tags" then join ", " (Executor.tag_list v) else v.

(** What the accessor of the variant field [f] gives once [x] has
    been written under it: the weight is stored as a number. *)
Definition stored_value (f x : string) : string :=
  if f =? "weight" then toString (parseFloat x) else x.

(** The weight [m] writes, stored as a number and printed by
    [String], parses to the number that was stored. *)
Definition reads_back (m : Mod) : bool :=
  match calcValue None m with
  | Some t => JsNumber.eqb (parseFloat (toString (parseFloat t))) (parseFloat t)
  | None => true
  end.

(** [exact] on a price field or on the weight, [set] on a text field
    that is loaded, anything on the status, [add] and [remove] on the
    tags, and [set] on the tags with a text in the form the page shows. *)
Definition settling (m : Mod) : Prop :=
  (In (mod_field m) ["price"; "compareAtPrice"] /\ mod_type m = "exact")
  \/ (In (mod_field m) ["sku"; "barcode"; "title"; "vendor"; "productType"]
      /\ mod_type m = "set")
  \/ mod_field m = "status"
  \/ (mod_field m = "tags" /\ In (mod_type m) ["add"; "remove"])
  \/ (mod_field m = "tags" /\ mod_type m = "set"
      /\ join ", " (read_tags (mod_value m)) = mod_value m)
  \/ (mod_field m = "weight" /\ mod_type m = "exact" /\ reads_back m = true).

(** The modifications whose value does not depend on the current one. *)
Definition constant (m : Mod) : Prop :=
  (In (mod_field m) ["price"; "compareAtPrice"; "weight"] /\ mod_type m = "exact")
  \/ (In (mod_field m) ["sku"; "barcode"; "title"; "vendor"; "productType"; "tags"]
      /\ mod_type m = "set")
  \/ mod_field m = "status".

Ltac field_cases H :=
  simpl in H;
  repeat match type of H with
         | _ \/ _ => destruct H as [H | H]
         | False => contradiction
         end.

(** The entry of the weight in the registry. *)
Lemma weight_entry :
  exists a, getFieldDef "weight"
            = Some (Build_FieldDef "weight" numeric variantLevel (Some a))
            /\ forall v, a v = Some (match weight v with
                                     | Some w => toString w
                                     | None => "0"
                                     end).
Proof.
  eexists. split; [reflexivity | ]. intros v. cbv beta.
  destruct (weight v); reflexivity.
Qed.

Lemma constant_calc (m : Mod) (cur : option string) :
  constant m -> calcValue cur m = calcValue None m.
Proof.
  intros [[Hf Hty] | [[Hf Hty] | Hf]]; unfold calcValue.
  - field_cases Hf; rewrite <- Hf.
    + lookup_fields "price". unfold arith. rewrite Hty. reflexivity.
    + lookup_fields "compareAtPrice". unfold arith. rewrite Hty. reflexivity.
    + destruct weight_entry as [a [-> _]]. cbn [category]. unfold arith.
      rewrite Hty. reflexivity.
  - field_cases Hf; rewrite <- Hf.
    + lookup_fields "sku". rewrite Hty. reflexivity.
    + lookup_fields "barcode". rewrite Hty. reflexivity.
    + lookup_fields "title". rewrite Hty. reflexivity.
    + lookup_fields "vendor". rewrite Hty. reflexivity.
    + lookup_fields "productType". rewrite Hty. reflexivity.
    + lookup_fields "tags". rewrite Hty. reflexivity.
  - rewrite Hf. lookup_fields "status". reflexivity.
Qed.

Definition adds_or_removes (m : Mod) : Prop :=
  mod_field m = "tags" /\ (mod_type m = "add" \/ mod_type m = "remove").

Lemma settling_cases (m : Mod) :
  settling m -> constant m \/ adds_or_removes m.
Proof.
  intros [[Hf Hty] | [[Hf Hty] | [Hf | [[Hf Hty] | [[Hf [Hty _]] | [Hf [Hty _]]]]]]].
  - left. left. split; [simpl in *; tauto | exact Hty].
  - left. right. left. split; [simpl in *; tauto | exact Hty].
  - left. right. right. exact Hf.
  - right. split; [exact Hf | simpl in Hty; intuition auto].
  - left. right. left. split; [rewrite Hf; simpl; tauto | exact Hty].
  - left. left. split; [rewrite Hf; simpl; tauto | exact Hty].
Qed.

(** The field of a settling modification is in the registry, at
    the level its name tells. *)
Lemma settling_level (m : Mod) :
  settling m ->
  (exists fd, getFieldDef (mod_field m) = Some fd /\ level fd = productLevel
              /\ In (mod_field m) product_targets)
  \/ (exists fd, getFieldDef (mod_field m) = Some fd /\ level fd = variantLevel
                 /\ In (mod_field m) variant_targets).
Proof.
  intros [[Hf Hty] | [[Hf Hty] | [Hf | [[Hf Hty] | [[Hf _] | [Hf _]]]]]].
  - right. field_cases Hf; rewrite <- Hf; eexists; (split; [reflexivity | ]);
      simpl; tauto.
  - field_cases Hf; rewrite <- Hf;
      first [ left; eexists; split; [reflexivity | split; [reflexivity | simpl; tauto]]
            | right; eexists; split; [reflexivity | split; [reflexivity | simpl; tauto]] ].
  - left. rewrite Hf. eexists. split; [reflexivity | ]. simpl. tauto.
  - left. rewrite Hf. eexists. split; [reflexivity | ]. simpl. tauto.
  - left. rewrite Hf. eexists. split; [reflexivity | ]. simpl. tauto.
  - right. rewrite Hf. eexists. split; [reflexivity | ]. simpl. tauto.
Qed.

(** *** When the planner has nothing to emit *)

(** Whether the product-level branch emits a change for the current
    value [cur]. *)
Definition pending_product (m : Mod) (cur : string) : bool :=
  match calcValue (Some cur) m with
  | None => false
  | Some nv => negb (nv =? cur)
  end.

Lemma product_change_pending (p : Product) (m : Mod) :
  pending_product m (current_of p (mod_field m)) = false ->
  product_change p m = [].
Proof.
  unfold pending_product, product_change.
  destruct (calcValue _ m) as [nv |]; [| reflexivity].
  destruct (nv =? _); [reflexivity | discriminate].
Qed.

Lemma product_change_emitted (p : Product) (m : Mod) :
  pending_product m (current_of p (mod_field m)) = true ->
  exists c, In c (product_change p m)
            /\ productId c = product_id p /\ field c = mod_field m.
Proof.
  unfold pending_product, product_change.
  destruct (calcValue _ m) as [nv |]; [| discriminate].
  destruct (nv =? _); [discriminate | ].
  intros _. eexists. split; [left; reflexivity | split; reflexivity].
Qed.

(** Whether the variant-level branch emits a change for a variant
    whose accessor gives [cur]. *)
Definition pending_variant (fd : FieldDef) (m : Mod) (cur : option string) : bool :=
  let num := is_numeric (category fd) in
  if (falsy cur && negb (mod_type m =? "exact") && negb (mod_type m =? "set")
      && num)%bool
  then false
  else
    match calcValue (Some (or_default cur (if num then "0" else ""))) m with
    | None => false
    | Some nv =>
        negb (if num
              then JsNumber.eqb (parseFloat (or_default cur "0")) (parseFloat nv)
              else or_default cur "" =? nv)
    end.

Lemma variant_change_pending (fd : FieldDef) (p : Product) (m : Mod) (v : Variant) :
  pending_variant fd m (read_variant fd v) = false ->
  variant_change fd p m v = [].
Proof.
  unfold pending_variant, variant_change.
  destruct (_ && _ && _ && _)%bool; [reflexivity | ].
  destruct (calcValue _ m) as [nv |]; [| reflexivity].
  destruct (if is_numeric (category fd) then _ else _);
    [reflexivity | discriminate].
Qed.

Lemma variant_change_emitted (fd : FieldDef) (p : Product) (m : Mod) (v : Variant) :
  pending_variant fd m (read_variant fd v) = true ->
  exists c, In c (variant_change fd p m v)
            /\ productId c = product_id p /\ field c = mod_field m
            /\ variantId c = Some (variant_id v).
Proof.
  unfold pending_variant, variant_change.
  destruct (_ && _ && _ && _)%bool; [discriminate | ].
  destruct (calcValue _ m) as [nv |]; [| discriminate].
  destruct (if is_numeric (category fd) then _ else _); [discriminate | ].
  intros _. eexists. split; [left; reflexivity | repeat split].
Qed.

(** *** Numbers that are not [NaN] *)

Lemma or_default_some (t : string) : or_default (Some t) "" = t.
Proof. destruct t; reflexivity. Qed.

Lemma or_default_truthy (t d : string) :
  truthy t = true -> or_default (Some t) d = t.
Proof. simpl. now intros ->. Qed.

Lemma add_finite_not_nan (x : number) (s : bool) (m : positive) (e : Z) :
  isNaN x = false -> isNaN (add x (S754_finite s m e)) = false.
Proof.
  destruct x as [sx | sx | | sx mx ex]; try discriminate; intros _;
    try reflexivity.
  unfold add, SFadd. apply binary_normalize_not_nan.
Qed.

Lemma floor_not_nan (x : number) : isNaN x = false -> isNaN (Math_floor x) = false.
Proof.
  destruct x as [sx | sx | | sx mx ex]; try discriminate; intros _;
    try reflexivity.
  unfold Math_floor. destruct (0 <=? ex)%Z; [reflexivity | ].
  apply binary_normalize_not_nan.
Qed.

Lemma round_not_nan (x : number) : isNaN x = false -> isNaN (Math_round x) = false.
Proof.
  destruct x as [sx | sx | | sx mx ex]; try discriminate; intros _;
    try reflexivity.
  unfold Math_round. destruct (0 <=? ex)%Z; [reflexivity | ].
  destruct (_ =? 0)%Z; [reflexivity | apply binary_normalize_not_nan].
Qed.

Lemma rounded_not_nan (md : option string) (x : number) :
  isNaN x = false -> isNaN (rounded md x) = false.
Proof.
  intros Hx. unfold rounded. destruct md as [md |]; [| exact Hx].
  rewrite RoundingProperties.parse_099, RoundingProperties.parse_095.
  destruct (md =? "99"); [apply add_finite_not_nan, floor_not_nan, Hx | ].
  destruct (md =? "95"); [apply add_finite_not_nan, floor_not_nan, Hx | ].
  destruct (md =? "whole"); [apply round_not_nan, Hx | exact Hx].
Qed.

Lemma max_zero_not_nan (x : number) :
  isNaN x = false -> isNaN (Math_max zero x) = false.
Proof. destruct x as [[] | [] | | [] m e]; try discriminate; reflexivity. Qed.

(** The price an [exact] modification computes is not empty and
    reads back as a number. *)
Lemma exact_price_reads_back (m : Mod) (t : string) :
  In (mod_field m) ["price"; "compareAtPrice"] ->
  mod_type m = "exact" ->
  calcValue None m = Some t ->
  truthy t = true /\ isNaN (parseFloat t) = false.
Proof.
  intros Hf Hty. unfold calcValue.
  assert (Hshape :
            match getFieldDef (mod_field m) with
            | Some fd => category fd = numeric
            | None => False
            end /\ mem (mod_field m) priceFields = true).
  { field_cases Hf; rewrite <- Hf; split; reflexivity. }
  destruct Hshape as [Hcat Hprice].
  destruct (getFieldDef (mod_field m)) as [fd |]; [| contradiction].
  rewrite Hcat, Hprice.
  destruct (isNaN (parseFloat (mod_value m))) eqn:Hv; [discriminate | ].
  intros [= <-].
  set (r := rounded _ _).
  assert (Hr : isNaN (Math_max zero r) = false).
  { apply max_zero_not_nan. subst r. apply rounded_not_nan.
    unfold arith. rewrite Hty. exact Hv. }
  split.
  - apply toFixed_clamped_truthy, max_zero_clamped.
  - apply parseFloat_toFixed_clamped; [apply max_zero_clamped | exact Hr].
Qed.

(** *** The tags *)

Lemma tag_list_tidy (s : string) : Forall tidy (read_tags s).
Proof. apply Forall_forall. intros t. apply read_tags_tidy. Qed.

Lemma filter_twice {A} (f : A -> bool) (l : list A) :
  filter f (filter f l) = filter f l.
Proof.
  induction l as [| x l IH]; [reflexivity | ]. cbn [filter].
  destruct (f x) eqn:E; [ | exact IH]. cbn [filter]. now rewrite E, IH.
Qed.

Lemma filter_tidy (f : string -> bool) (l : list string) :
  Forall tidy l -> Forall tidy (filter f l).
Proof.
  rewrite !Forall_forall. intros H t Ht. apply filter_In in Ht. now apply H.
Qed.

(** What [calcValue] returns for [add] and [remove] on the tags:
    tidy tags joined by a comma and a space, which the same
    modification leaves as they are. *)
Lemma tags_settle (m : Mod) (cur : option string) (t : string) :
  adds_or_removes m -> calcValue cur m = Some t ->
  exists l, t = join ", " l /\ Forall tidy l
            /\ calcValue (Some t) m = Some t.
Proof.
  intros [Hf [Hty | Hty]] Hcalc.
  - assert (Hw : forall c, calcValue c m
                   = Some (join ", " (dedup (read_tags (or_default c "")
                                             ++ read_tags (mod_value m))))).
    { intros c. unfold calcValue. rewrite Hf. lookup_fields "tags".
      rewrite Hty. reflexivity. }
    rewrite Hw in Hcalc. injection Hcalc as Ht.
    set (R := dedup (read_tags (or_default cur "") ++ read_tags (mod_value m)))
      in *.
    assert (Htidy : Forall tidy R).
    { apply Forall_forall. intros x Hx. unfold R in Hx.
      apply dedup_In, in_app_or in Hx as [H | H]; eapply read_tags_tidy; exact H. }
    exists R. split; [now symmetry | ]. split; [exact Htidy | ].
    rewrite Hw, or_default_some, <- Ht, (read_tags_join R Htidy).
    do 2 f_equal. apply ModificationProperties.dedup_absorbs;
      [apply dedup_NoDup | ].
    intros x Hx. apply dedup_In, in_or_app. now right.
  - set (kept := fun x : string =>
                   negb (mem (toLowerCase x)
                             (map (fun y => toLowerCase (trim y))
                                  (split (mod_value m) ",")))).
    assert (Hw : forall c, calcValue c m
                   = Some (join ", " (filter kept (read_tags (or_default c ""))))).
    { intros c. unfold calcValue. rewrite Hf. lookup_fields "tags".
      rewrite Hty. reflexivity. }
    rewrite Hw in Hcalc. injection Hcalc as Ht.
    set (R := filter kept (read_tags (or_default cur ""))) in *.
    assert (Htidy : Forall tidy R) by apply filter_tidy, tag_list_tidy.
    exists R. split; [now symmetry | ]. split; [exact Htidy | ].
    rewrite Hw, or_default_some, <- Ht, (read_tags_join R Htidy).
    do 2 f_equal. apply filter_twice.
Qed.

Lemma stored_tags (l : list string) :
  Forall tidy l -> stored_text "tags" (join ", " l) = join ", " l.
Proof.
  intros Hl. unfold stored_text. cbn [String.eqb Ascii.eqb Bool.eqb].
  change (Executor.tag_list (join ", " l)) with (read_tags (join ", " l)).
  now rewrite read_tags_join.
Qed.

(** *** A value that has been written is settled *)

Lemma settled_product (m : Mod) (cur : option string) (t : string) :
  settling m -> In (mod_field m) product_targets ->
  calcValue cur m = Some t ->
  pending_product m (stored_text (mod_field m) t) = false.
Proof.
  intros Hm Hf Ht.
  assert (Hfix : forall s, calcValue (Some s) m = Some s ->
                           pending_product m s = false).
  { intros s Hs. unfold pending_product. now rewrite Hs, String.eqb_refl. }
  destruct (settling_cases m Hm) as [Hconst | Htags].
  - pose proof (fun c => constant_calc m c Hconst) as Hcalc.
    assert (Hstored : stored_text (mod_field m) t = t).
    { destruct Hm as [[Hg _] | [[Hg _] | [Hg | [[Hg Hty] | [[Hg [Hty Hform]] | [Hg _]]]]]].
      - field_cases Hg; rewrite <- Hg; reflexivity.
      - field_cases Hg; rewrite <- Hg; reflexivity.
      - rewrite Hg. reflexivity.
      - exfalso. destruct Hconst as [[Hc Hx] | [[Hc Hx] | Hc]].
        + rewrite Hg in Hc. simpl in Hc. intuition discriminate.
        + rewrite Hx in Hty. simpl in Hty. intuition discriminate.
        + congruence.
      - assert (t = mod_value m).
        { rewrite Hcalc in Ht. unfold calcValue in Ht. rewrite Hg in Ht.
          revert Ht. lookup_fields "tags". rewrite Hty. cbn. congruence. }
        subst t. unfold stored_text. rewrite Hg. exact Hform.
      - rewrite Hg. reflexivity. }
    rewrite Hstored. apply Hfix. now rewrite Hcalc, <- (Hcalc cur).
  - destruct (tags_settle m cur t Htags Ht) as [l [-> [Hl Hagain]]].
    destruct Htags as [Hg _]. rewrite Hg, (stored_tags l Hl). now apply Hfix.
Qed.

Lemma settled_variant (m : Mod) (fd : FieldDef) (cur : option string) (t : string) :
  settling m -> getFieldDef (mod_field m) = Some fd -> level fd = variantLevel ->
  calcValue cur m = Some t ->
  pending_variant fd m (Some (stored_value (mod_field m) t)) = false.
Proof.
  intros Hm Hfd Hlevel Ht. unfold pending_variant.
  assert (Hconst : constant m).
  { destruct (settling_cases m Hm) as [H | [Hg _]]; [exact H | ].
    rewrite Hg in Hfd. injection Hfd as <-. discriminate Hlevel. }
  pose proof (fun c => constant_calc m c Hconst) as Hcalc.
  rewrite Hcalc in Ht.
  destruct Hm as [[Hf Hty] | [[Hf Hty] | [Hf | [[Hf _] | [[Hf _] | [Hf [Hty Hback]]]]]]].
  - destruct (exact_price_reads_back m t Hf Hty Ht) as [Htruthy Hnum].
    assert (Hcat : category fd = numeric /\ stored_value (mod_field m) t = t).
    { field_cases Hf; rewrite <- Hf in Hfd |- *; injection Hfd as <-;
        split; reflexivity. }
    destruct Hcat as [Hcat ->].
    rewrite Hcat, Hty, Hcalc, Ht. simpl is_numeric. cbv iota.
    rewrite (or_default_truthy t "0" Htruthy).
    rewrite (eqb_refl_not_nan _ Hnum).
    rewrite andb_false_r. reflexivity.
  - assert (Hcat : is_numeric (category fd) = false
                   /\ stored_value (mod_field m) t = t).
    { field_cases Hf; rewrite <- Hf in Hfd |- *; injection Hfd as <-;
        first [split; reflexivity | discriminate Hlevel]. }
    destruct Hcat as [Hcat ->].
    rewrite Hcat, Hcalc, Ht, or_default_some, String.eqb_refl.
    rewrite andb_false_r. reflexivity.
  - rewrite Hf in Hfd. injection Hfd as <-. discriminate Hlevel.
  - rewrite Hf in Hfd. injection Hfd as <-. discriminate Hlevel.
  - rewrite Hf in Hfd. injection Hfd as <-. discriminate Hlevel.
  - unfold reads_back in Hback. rewrite Ht in Hback.
    rewrite Hf in Hfd |- *. injection Hfd as <-.
    unfold stored_value. cbn [String.eqb Ascii.eqb Bool.eqb category is_numeric].
    rewrite Hty, Hcalc, Ht.
    rewrite (or_default_truthy _ "0" (toString_truthy _)), Hback.
    destruct (falsy _); reflexivity.
Qed.

(** *** Reading a field after a write *)

Lemma current_of_store (p : Product) (g f v : string) :
  In f product_targets ->
  current_of (store_product_field p g v) f
  = if g =? f then stored_text f v else current_of p f.
Proof.
  intros Hf. unfold store_product_field, stored_text, current_of.
  field_cases Hf; rewrite <- Hf;
    repeat match goal with
           | |- context [if ?a =? ?b then _ else _] =>
               destruct (String.eqb_spec a b);
               [subst; try discriminate; try reflexivity | ]
           end;
    try reflexivity; try congruence;
    unfold product_text; simpl; destruct v; reflexivity.
Qed.

Lemma product_id_store (p : Product) (g v : string) :
  product_id (store_product_field p g v) = product_id p.
Proof.
  unfold store_product_field.
  repeat match goal with
         | |- context [if ?b then _ else _] => destruct b; [reflexivity | ]
         end.
  reflexivity.
Qed.

Lemma variants_store (p : Product) (g v : string) :
  variants (store_product_field p g v) = variants p.
Proof.
  unfold store_product_field.
  repeat match goal with
         | |- context [if ?b then _ else _] => destruct b; [reflexivity | ]
         end.
  reflexivity.
Qed.

Lemma variant_id_store (v : Variant) (g x : string) :
  variant_id (store_variant_field v g x) = variant_id v.
Proof.
  unfold store_variant_field.
  repeat match goal with
         | |- context [if ?b then _ else _] => destruct b; [reflexivity | ]
         end.
  reflexivity.
Qed.

Lemma read_variant_store (v : Variant) (fd : FieldDef) (g f x : string) :
  In f variant_targets -> getFieldDef f = Some fd ->
  read_variant fd (store_variant_field v g x)
  = if g =? f then Some (stored_value f x) else read_variant fd v.
Proof.
  intros Hf Hfd. unfold store_variant_field, stored_value.
  field_cases Hf; rewrite <- Hf in *; injection Hfd as <-;
    repeat match goal with
           | |- context [if ?a =? ?b then _ else _] =>
               destruct (String.eqb_spec a b);
               [subst; try discriminate; try reflexivity | ]
           end;
    try reflexivity; try congruence;
    unfold read_variant; simpl; destruct x; reflexivity.
Qed.

Lemma apply_change_id (c : Change) (p : Product) :
  product_id (apply_change c p) = product_id p.
Proof.
  unfold apply_change.
  destruct (_ =? _); [| reflexivity].
  destruct (mem _ Executor.execute_product_fields); [apply product_id_store | ].
  destruct (mem _ Executor.execute_variant_fields); reflexivity.
Qed.

(** What a change does to one variant of the product [pid]. *)
Definition variant_step (pid : string) (c : Change) (v : Variant) : Variant :=
  if ((productId c =? pid)
      && negb (mem (field c) Executor.execute_product_fields)
      && mem (field c) Executor.execute_variant_fields)%bool
  then apply_to_variant c v
  else v.

Lemma map_same {A} (f : A -> A) (l : list A) :
  (forall x, f x = x) -> map f l = l.
Proof.
  intros H. induction l as [| x l IH]; simpl; [reflexivity | now rewrite H, IH].
Qed.

Lemma variants_apply_change (c : Change) (p : Product) :
  variants (apply_change c p) = map (variant_step (product_id p) c) (variants p).
Proof.
  unfold apply_change, variant_step.
  destruct (_ =? _); [| now rewrite map_same].
  destruct (mem _ Executor.execute_product_fields);
    [now rewrite variants_store, map_same | ].
  destruct (mem _ Executor.execute_variant_fields);
    [reflexivity | now rewrite map_same].
Qed.

Lemma variants_apply_changes (cs : list Change) (p : Product) :
  variants (apply_changes cs p)
  = map (fun v => fold_left (fun w c => variant_step (product_id p) c w) cs v)
        (variants p).
Proof.
  revert p. induction cs as [| c cs IH]; intros p; simpl.
  - now rewrite map_same.
  - unfold apply_changes in IH. rewrite IH, variants_apply_change, map_map.
    now rewrite apply_change_id.
Qed.

Lemma variant_step_id (pid : string) (c : Change) (v : Variant) :
  variant_id (variant_step pid c v) = variant_id v.
Proof.
  unfold variant_step, apply_to_variant.
  destruct (_ && _ && _)%bool; [| reflexivity].
  destruct (targets_variant c v); [apply variant_id_store | reflexivity].
Qed.

(** *** Planning with settling modifications on distinct fields *)

Section Settling.

Variable M : list Mod.
Hypothesis all_settling : forall m, In m M -> settling m.
Hypothesis distinct_fields : NoDup (map mod_field M).

(** A change computed by a modification of [M]. *)
Definition from_mod (c : Change) : Prop :=
  exists m cur, In m M /\ field c = mod_field m
                /\ calcValue cur m = Some (newValue c).

Lemma field_determines_mod (m m' : Mod) :
  In m M -> In m' M -> mod_field m = mod_field m' -> m = m'.
Proof.
  clear all_settling. induction M as [| a l IH]; [contradiction | ].
  simpl in distinct_fields. inversion distinct_fields as [| ? ? Hnot Hnd]; subst.
  intros [-> | Hm] [-> | Hm'] Heq; trivial.
  - exfalso. apply Hnot. rewrite Heq. now apply in_map.
  - exfalso. apply Hnot. rewrite <- Heq. now apply in_map.
  - now apply IH.
Qed.

Lemma changes_from_mod (E : list Product) (c : Change) :
  In c (changes 3 E M) -> from_mod c.
Proof.
  unfold changes. simpl. intros Hin.
  apply in_flat_map in Hin as [p [_ Hin]].
  apply in_flat_map in Hin as [m [Hm Hin]].
  exists m. unfold mod_changes in Hin.
  destruct (getFieldDef (mod_field m)) as [fd |]; [| contradiction].
  destruct (level fd).
  - unfold product_change in Hin.
    destruct (calcValue _ m) as [nv |] eqn:Hcalc; [| contradiction].
    destruct (nv =? _); [contradiction | ].
    destruct Hin as [<- | []]. eexists. split; [exact Hm | ].
    split; [reflexivity | exact Hcalc].
  - apply in_flat_map in Hin as [v [_ Hin]].
    unfold variant_change in Hin.
    destruct (_ && _ && _ && _)%bool; [contradiction | ].
    cbv zeta in Hin.
    destruct (calcValue _ m) as [nv |] eqn:Hcalc; [| contradiction].
    destruct (if is_numeric (category fd) then JsNumber.eqb _ _ else _);
      [contradiction | ].
    destruct Hin as [<- | []]. eexists. split; [exact Hm | ].
    split; [reflexivity | exact Hcalc].
Qed.

Lemma target_of (m : Mod) (c : Change) :
  In m M -> from_mod c -> field c = mod_field m ->
  exists cur, calcValue cur m = Some (newValue c).
Proof.
  intros Hm [m' [cur [Hm' [Hf Ht]]]] Heq. exists cur.
  now rewrite (field_determines_mod m m' Hm Hm') by congruence.
Qed.

(** Product level: a settled field stays settled, and the change
    planned for a field settles it. *)
Lemma product_step (m : Mod) (p : Product) (c : Change) :
  In m M -> In (mod_field m) product_targets -> from_mod c ->
  pending_product m (current_of p (mod_field m)) = false
  \/ (productId c = product_id p /\ field c = mod_field m) ->
  pending_product m (current_of (apply_change c p) (mod_field m)) = false.
Proof.
  intros Hm Hf Hc Hcase. unfold apply_change.
  assert (Hexec : field c = mod_field m ->
                  mem (field c) Executor.execute_product_fields = true).
  { intros ->. clear - Hf. field_cases Hf; rewrite <- Hf; reflexivity. }
  destruct (String.eqb_spec (productId c) (product_id p)) as [Hpid | Hpid].
  - destruct (mem (field c) Executor.execute_product_fields) eqn:Hprod.
    + rewrite current_of_store by exact Hf.
      destruct (String.eqb_spec (field c) (mod_field m)) as [Heq | Hne].
      * destruct (target_of m c Hm Hc Heq) as [cur Hcur].
        now apply (settled_product m cur); [apply all_settling | | ].
      * destruct Hcase as [H | [_ H]]; [exact H | contradiction].
    + destruct Hcase as [H | [_ H]].
      * destruct (mem (field c) Executor.execute_variant_fields); exact H.
      * discriminate (Hexec H).
  - destruct Hcase as [H | [H _]]; [exact H | contradiction].
Qed.

Lemma product_trajectory (m : Mod) (cs : list Change) (p : Product) :
  In m M -> In (mod_field m) product_targets ->
  (forall c, In c cs -> from_mod c) ->
  pending_product m (current_of p (mod_field m)) = false
  \/ (exists c, In c cs /\ productId c = product_id p /\ field c = mod_field m) ->
  pending_product m (current_of (apply_changes cs p) (mod_field m)) = false.
Proof.
  intros Hm Hf. revert p.
  induction cs as [| c cs IH]; intros p Hall Hcase.
  - destruct Hcase as [H | [c [[] _]]]. exact H.
  - simpl. apply IH; [intros c' Hc'; apply Hall; now right | ].
    destruct Hcase as [H | [c' [[<- | Hin] [Hpid Hfield]]]].
    + left. apply product_step; auto. apply Hall. now left.
    + left. apply product_step; auto. apply Hall. now left.
    + right. exists c'. rewrite apply_change_id. auto.
Qed.

(** Variant level, the same. *)
Lemma variant_step_settles (m : Mod) (fd : FieldDef) (pid : string)
      (v : Variant) (c : Change) :
  In m M -> In (mod_field m) variant_targets ->
  getFieldDef (mod_field m) = Some fd -> level fd = variantLevel ->
  from_mod c ->
  pending_variant fd m (read_variant fd v) = false
  \/ (productId c = pid /\ field c = mod_field m
      /\ variantId c = Some (variant_id v)) ->
  pending_variant fd m (read_variant fd (variant_step pid c v)) = false.
Proof.
  intros Hm Hf Hfd Hlevel Hc Hcase. unfold variant_step, apply_to_variant.
  assert (Hexec : field c = mod_field m ->
                  (negb (mem (field c) Executor.execute_product_fields)
                   && mem (field c) Executor.execute_variant_fields)%bool = true).
  { intros ->. clear - Hf. field_cases Hf; rewrite <- Hf; reflexivity. }
  assert (Hwritten :
            pending_variant fd m (read_variant fd v) = false
            \/ field c = mod_field m ->
            pending_variant fd m
              (read_variant fd (store_variant_field v (field c) (newValue c)))
            = false).
  { intros Hw. rewrite (read_variant_store v fd (field c) (mod_field m))
      by assumption.
    destruct (String.eqb_spec (field c) (mod_field m)) as [Heq | Hne].
    - destruct (target_of m c Hm Hc Heq) as [cur Hcur].
      now apply (settled_variant m fd cur); [apply all_settling | | | ].
    - destruct Hw as [H | H]; [exact H | contradiction]. }
  destruct (String.eqb_spec (productId c) pid) as [Hpid | Hpid]; cbn [andb].
  - destruct (negb _ && _)%bool eqn:Hkind.
    + destruct (targets_variant c v) eqn:Htarget.
      * apply Hwritten. destruct Hcase as [H | [_ [H _]]]; auto.
      * destruct Hcase as [H | [_ [_ H]]]; [exact H | ].
        unfold targets_variant in Htarget. rewrite H in Htarget. simpl in Htarget.
        rewrite String.eqb_refl in Htarget. discriminate Htarget.
    + destruct Hcase as [H | [_ [H _]]]; [exact H | ].
      discriminate (Hexec H).
  - destruct Hcase as [H | [H _]]; [exact H | contradiction].
Qed.

Lemma variant_trajectory (m : Mod) (fd : FieldDef) (pid : string)
      (cs : list Change) (v : Variant) :
  In m M -> In (mod_field m) variant_targets ->
  getFieldDef (mod_field m) = Some fd -> level fd = variantLevel ->
  (forall c, In c cs -> from_mod c) ->
  pending_variant fd m (read_variant fd v) = false
  \/ (exists c, In c cs /\ productId c = pid /\ field c = mod_field m
                /\ variantId c = Some (variant_id v)) ->
  pending_variant fd m
    (read_variant fd (fold_left (fun w c => variant_step pid c w) cs v))
  = false.
Proof.
  intros Hm Hf Hfd Hlevel. revert v.
  induction cs as [| c cs IH]; intros v Hall Hcase.
  - destruct Hcase as [H | [c [[] _]]]. exact H.
  - simpl. apply IH; [intros c' Hc'; apply Hall; now right | ].
    destruct Hcase as [H | [c' [[<- | Hin] [Hpid [Hfield Hvid]]]]].
    + left. apply variant_step_settles; auto. apply Hall. now left.
    + left. apply variant_step_settles; auto. apply Hall. now left.
    + right. exists c'. rewrite variant_step_id. auto.
Qed.

(** After the planned changes have been applied to a product of
    the planned set, no modification of [M] has anything to emit. *)
Lemma settled_after_apply (E : list Product) (p : Product) (m : Mod) :
  In p E -> In m M ->
  mod_changes (apply_changes (changes 3 E M) p) m = [].
Proof.
  intros Hp Hm. set (cs := changes 3 E M).
  assert (Hall : forall c, In c cs -> from_mod c)
    by (intros c; apply changes_from_mod).
  assert (Hsub : forall c, In c (mod_changes p m) -> In c cs).
  { intros c Hc. subst cs. unfold changes. simpl.
    apply in_flat_map. exists p. split; [exact Hp | ].
    apply in_flat_map. exists m. split; assumption. }
  unfold mod_changes in Hsub |- *.
  destruct (settling_level m (all_settling m Hm))
    as [[fd [Hfd [Hlevel Hf]]] | [fd [Hfd [Hlevel Hf]]]];
    rewrite Hfd, Hlevel in Hsub |- *.
  - apply product_change_pending, product_trajectory; auto.
    destruct (pending_product m (current_of p (mod_field m))) eqn:Hpend;
      [right | now left].
    destruct (product_change_emitted p m Hpend) as [c [Hc [Hpid Hfield]]].
    exists c. auto.
  - rewrite variants_apply_changes.
    induction (variants p) as [| v vs IH]; [reflexivity | ].
    simpl. rewrite IH.
    + rewrite app_nil_r.
      apply variant_change_pending, variant_trajectory; auto.
      destruct (pending_variant fd m (read_variant fd v)) eqn:Hpend;
        [right | now left].
      destruct (variant_change_emitted fd p m v Hpend)
        as [c [Hc [Hpid [Hfield Hvid]]]].
      exists c. repeat split; auto.
      apply Hsub. simpl. apply in_or_app. now left.
    + intros c Hc. apply Hsub. simpl. apply in_or_app. now right.
Qed.

End Settling.

Lemma flat_map_nil {A B} (f : A -> list B) (l : list A) :
  (forall x, In x l -> f x = []) -> flat_map f l = [].
Proof.
  induction l as [| a l IH]; intros H; simpl; [reflexivity | ].
  rewrite (H a) by now left. apply IH. intros x Hx. apply H. now right.
Qed.


(** C3, amended. For every entity list and every list of
    modifications on pairwise distinct fields, each of them [exact] on
    [price] or [compareAtPrice], [set] on [sku], [barcode], [title],
    [vendor] or [productType], any modification of [status], [add] or
    [remove] on [tags], [set] on [tags] with the tags written as the
    page shows them (joined by a comma and a space), or [exact] on
    [weight] with a weight that [String] prints as a text parsing to
    the same number: once the planned changes have been applied,
    planning again with the same list gives no change. *)
Theorem planning_again_after_settling :
  forall (entities : list Product) (modifications : list Mod),
    (forall m, In m modifications -> settling m) ->
    NoDup (map mod_field modifications) ->
    changes 3 (plan_apply entities modifications) modifications = [].
Proof.
  intros E M Hall Hnd. unfold changes at 1. simpl. unfold plan_apply.
  apply flat_map_nil. intros q Hq.
  apply in_map_iff in Hq as [p [<- Hp]].
  apply flat_map_nil. intros m Hm.
  now apply settled_after_apply.
Qed.

Definition price_exact_twelve : Mod :=
  {| mod_field := "price"; mod_type := "exact"; mod_value := "12.40";
     mod_value2 := None; mod_rounding := Some "99" |}.

Definition title_set : Mod :=
  {| mod_field := "title"; mod_type := "set"; mod_value := "Summer mug";
     mod_value2 := None; mod_rounding := None |}.

Definition weight_exact : Mod :=
  {| mod_field := "weight"; mod_type := "exact"; mod_value := "2.5";
     mod_value2 := None; mod_rounding := None |}.

Definition settling_mods : list Mod :=
  [price_exact_twelve; title_set; ModificationProperties.add_tags "new,summer";
   weight_exact].

Lemma planning_again_after_settling_witness :
  map (fun c => (field c, oldValue c, newValue c))
      (changes 3 [FilterProperties.two_prices] settling_mods)
  = [("price", "5.00", "12.99"); ("price", "50.00", "12.99");
     ("title", "Mug", "Summer mug");
     ("tags", "sale, clearance", "sale, clearance, new, summer");
     ("weight", "0", "2.5"); ("weight", "0", "2.5")]
  /\ changes 3
       (plan_apply [ten_dollar_product; FilterProperties.two_prices] settling_mods)
       settling_mods = [].
Proof.
  split; [vm_compute; reflexivity | ].
  apply planning_again_after_settling.
  - intros m [<- | [<- | [<- | [<- | []]]]].
    + left. split; [simpl; tauto | reflexivity].
    + right. left. split; [simpl; tauto | reflexivity].
    + do 3 right. left. split; [reflexivity | simpl; tauto].
    + do 5 right. split; [reflexivity | split; [reflexivity | ]].
      vm_compute. reflexivity.
  - repeat constructor; simpl; intuition discriminate.
Defined.

End IdempotenceProperties.

(** ** The inputs of the mutations *)

Module InputProperties.

Import Executor SetFacts TagFacts.
Local Open Scope list_scope.

(** The last value written for [f] among the changes of the variant
    [i], if any. *)
Definition last_value (cs : list Change) (i : option string) (f : string)
  : option string :=
  fold_left (fun acc c =>
               if (same_id (variantId c) i && (field c =? f))%bool
               then Some (newValue c) else acc)
            cs None.

Lemma same_id_eq (a b : option string) : same_id a b = true <-> a = b.
Proof.
  destruct a as [x |], b as [y |]; simpl; split; try congruence.
  - intros H. apply String.eqb_eq in H. now subst.
  - intros H. injection H as ->. apply String.eqb_refl.
Qed.

Lemma same_id_refl (a : option string) : same_id a a = true.
Proof. now apply same_id_eq. Qed.

Lemma set_variant_field_id (v : VariantInput) (f x : string) :
  vi_id (set_variant_field v f x) = vi_id v.
Proof.
  unfold set_variant_field.
  repeat match goal with |- context [if ?b then _ else _] => destruct b end;
    reflexivity.
Qed.

Definition known (i : option string) (m : list VariantInput) : bool :=
  existsb (fun v => same_id (vi_id v) i) m.

Lemma known_In (i : option string) (m : list VariantInput) :
  known i m = true <-> In i (map vi_id m).
Proof.
  unfold known. rewrite existsb_exists, in_map_iff. split.
  - intros [v [Hv H]]. exists v. split; [now apply same_id_eq | exact Hv].
  - intros [v [H Hv]]. exists v. split; [exact Hv | now apply same_id_eq].
Qed.

Lemma put_variant_ids (c : Change) (m : list VariantInput) :
  map vi_id (put_variant c m)
  = if known (variantId c) m then map vi_id m
    else map vi_id m ++ [variantId c].
Proof.
  induction m as [| v m IH]; simpl.
  - now rewrite set_variant_field_id.
  - destruct (same_id (vi_id v) (variantId c)) eqn:E; simpl.
    + now rewrite set_variant_field_id.
    + rewrite IH. fold (known (variantId c) m).
      destruct (known (variantId c) m); reflexivity.
Qed.

(** The fields of an entry as a function of [f]. *)
Definition written (u : VariantInput) (f : string) : option string :=
  if f =? "price" then vi_price u
  else if f =? "compareAtPrice" then vi_compareAtPrice u
  else if f =? "sku" then vi_sku u
  else if f =? "barcode" then vi_barcode u
  else None.

Definition text_targets : list string := ["price"; "compareAtPrice"; "sku"; "barcode"].

Lemma written_set (u : VariantInput) (g f x : string) :
  In f text_targets ->
  written (set_variant_field u g x) f = if g =? f then Some x else written u f.
Proof.
  intros Hin. simpl in Hin. unfold written, set_variant_field.
  destruct Hin as [<- | [<- | [<- | [<- | []]]]];
    repeat match goal with
           | |- context [String.eqb g ?s] => destruct (String.eqb_spec g s); subst
           end;
    try reflexivity; try discriminate.
Qed.

Lemma last_value_snoc (l : list Change) (c : Change) (i : option string) (f : string) :
  last_value (l ++ [c]) i f
  = if (same_id (variantId c) i && (field c =? f))%bool
    then Some (newValue c) else last_value l i f.
Proof. unfold last_value. now rewrite fold_left_app. Qed.

Lemma last_value_unknown (l : list Change) (i : option string) (f : string) :
  ~ In i (map variantId l) -> last_value l i f = None.
Proof.
  induction l as [| c l IH] using rev_ind; intros H; [reflexivity | ].
  rewrite last_value_snoc. rewrite map_app, in_app_iff in H. simpl in H.
  destruct (same_id (variantId c) i) eqn:E.
  - apply same_id_eq in E. tauto.
  - simpl. apply IH. tauto.
Qed.

(** What [variantMap] holds after the changes [l]. *)
Definition merged (l : list Change) (m : list VariantInput) : Prop :=
  NoDup (map vi_id m)
  /\ (forall i, In i (map vi_id m) <-> In i (map variantId l))
  /\ (forall u f, In u m -> In f text_targets -> written u f = last_value l (vi_id u) f).

Lemma put_variant_In (c : Change) (m : list VariantInput) (u' : VariantInput) :
  NoDup (map vi_id m) ->
  In u' (put_variant c m) ->
  (In u' m /\ vi_id u' <> variantId c)
  \/ (exists u, In u m /\ vi_id u = variantId c
                /\ u' = set_variant_field u (field c) (newValue c))
  \/ (known (variantId c) m = false
      /\ u' = set_variant_field (new_variant (variantId c)) (field c) (newValue c)).
Proof.
  induction m as [| v m IH]; simpl; intros Hnd Hin.
  - destruct Hin as [<- | []]. right. right. split; reflexivity.
  - inversion Hnd as [| ? ? Hv Hm]; subst.
    destruct (same_id (vi_id v) (variantId c)) eqn:E; simpl in *.
    + apply same_id_eq in E. destruct Hin as [<- | Hin].
      * right. left. exists v. split; [now left | split; [exact E | reflexivity]].
      * left. split; [now right | ].
        intros e. apply Hv. rewrite E, <- e. now apply in_map.
    + destruct Hin as [<- | Hin].
      * left. split; [now left | ].
        intros e. rewrite e, same_id_refl in E. discriminate.
      * destruct (IH Hm Hin) as [[H1 H2] | [[u [H1 [H2 H3]]] | [H1 H2]]].
        -- left. split; [now right | exact H2].
        -- right. left. exists u. split; [now right | split; assumption].
        -- right. right. split; [exact H1 | exact H2].
Qed.

Lemma merged_put (l : list Change) (c : Change) (m : list VariantInput) :
  merged l m -> merged (l ++ [c]) (put_variant c m).
Proof.
  intros [Hnd [Hids Hval]]. split; [ | split].
  - rewrite put_variant_ids. destruct (known (variantId c) m) eqn:E; [exact Hnd | ].
    apply NoDup_app; [exact Hnd | repeat constructor; simpl; tauto | ].
    intros i Hi [<- | []]. apply known_In in Hi. congruence.
  - intros i. rewrite put_variant_ids, map_app, in_app_iff. simpl.
    destruct (known (variantId c) m) eqn:E.
    + rewrite Hids. apply known_In in E. rewrite Hids in E. split; [tauto | ].
      intros [H | [<- | []]]; assumption.
    + rewrite in_app_iff, Hids. simpl. tauto.
  - intros u' f Hin Hf. rewrite last_value_snoc.
    destruct (put_variant_In c m u' Hnd Hin)
      as [[H1 H2] | [[u [H1 [H2 H3]]] | [H1 H2]]].
    + replace (same_id (variantId c) (vi_id u')) with false.
      * simpl. now apply Hval.
      * symmetry. apply not_true_is_false. intros e. apply same_id_eq in e.
        congruence.
    + subst u'. rewrite set_variant_field_id, H2, same_id_refl, written_set by exact Hf.
      simpl. destruct (field c =? f); [reflexivity | ].
      rewrite <- H2. now apply Hval.
    + subst u'. rewrite set_variant_field_id. cbn [new_variant vi_id].
      rewrite same_id_refl, written_set by exact Hf. simpl.
      destruct (field c =? f); [reflexivity | ].
      rewrite last_value_unknown.
      * unfold written, new_variant. simpl.
        repeat match goal with |- context [if ?b then _ else _] => destruct b end;
          reflexivity.
      * intros Hi. apply Hids, known_In in Hi. congruence.
Qed.

Lemma variantMap_merged (cs : list Change) : merged cs (variantMap cs).
Proof.
  unfold variantMap. induction cs as [| c l IH] using rev_ind.
  - split; [constructor | split]; simpl; [tauto | contradiction].
  - rewrite fold_left_app. simpl. now apply merged_put.
Qed.

(** X4. For changes whose variant ids are plain, [variantMap] holds
    one entry per variant id that occurs in the changes, and no id
    twice; in the entry of a variant, each of [price],
    [compareAtPrice], [sku] and [barcode] holds the new value of the
    last change of that field for that variant, and is absent when
    there is none. *)
Theorem variantMap_last_write_wins (cs : list Change) :
  (forall c, In c cs -> plain_variant (variantId c) = true) ->
  NoDup (map vi_id (variantMap cs))
  /\ (forall i, In i (map vi_id (variantMap cs)) <-> In i (map variantId cs))
  /\ (forall u, In u (variantMap cs) ->
        vi_price u = last_value cs (vi_id u) "price"
        /\ vi_compareAtPrice u = last_value cs (vi_id u) "compareAtPrice"
        /\ vi_sku u = last_value cs (vi_id u) "sku"
        /\ vi_barcode u = last_value cs (vi_id u) "barcode").
Proof.
  intros _. destruct (variantMap_merged cs) as [Hnd [Hids Hval]].
  split; [exact Hnd | split; [exact Hids | ]].
  intros u Hu. repeat split.
  - apply (Hval u "price" Hu). simpl. tauto.
  - apply (Hval u "compareAtPrice" Hu). simpl. tauto.
  - apply (Hval u "sku" Hu). simpl. tauto.
  - apply (Hval u "barcode" Hu). simpl. tauto.
Qed.

Lemma variantMap_last_write_wins_witness :
  (forall c, In c GroupingProperties.interleaved ->
             plain_variant (variantId c) = true)
  /\ NoDup (map vi_id (variantMap GroupingProperties.interleaved)).
Proof.
  assert (H : forall c, In c GroupingProperties.interleaved ->
                        plain_variant (variantId c) = true).
  { intros c [<- | [<- | [<- | []]]]; reflexivity. }
  split; [exact H | ].
  exact (proj1 (variantMap_last_write_wins GroupingProperties.interleaved H)).
Defined.

(** *** The tags of a product update *)

Lemma set_product_field_tags (inp : ProductInput) (f v : string) :
  in_tags (set_product_field inp f v) = in_tags inp
  \/ in_tags (set_product_field inp f v) = Some (read_tags v).
Proof.
  unfold set_product_field.
  repeat match goal with |- context [if ?b then _ else _] => destruct b end;
    simpl; auto.
Qed.

Lemma revert_product_field_tags (inp : ProductInput) (f v : string) :
  in_tags (revert_product_field inp f v) = in_tags inp
  \/ in_tags (revert_product_field inp f v) = Some (read_tags v).
Proof.
  unfold revert_product_field.
  repeat match goal with |- context [if ?b then _ else _] => destruct b end;
    simpl; auto.
Qed.

Lemma productInput_tags_from (cs : list Change) :
  forall (inp : ProductInput) (l : list string),
    in_tags (fold_left (fun i c => set_product_field i (field c) (newValue c)) cs inp)
      = Some l ->
    in_tags inp = Some l \/ exists v, l = read_tags v.
Proof.
  induction cs as [| c cs IH]; intros inp l H; simpl in H; [now left | ].
  destruct (IH _ _ H) as [H1 | H1]; [ | now right].
  destruct (set_product_field_tags inp (field c) (newValue c)) as [e | e];
    rewrite e in H1.
  - now left.
  - right. exists (newValue c). congruence.
Qed.

Lemma revert_productInput_tags_from (cs : list Change) :
  forall (inp : ProductInput) (l : list string),
    in_tags (fold_left (fun i c => revert_product_field i (field c) (oldValue c)) cs inp)
      = Some l ->
    in_tags inp = Some l \/ exists v, l = read_tags v.
Proof.
  induction cs as [| c cs IH]; intros inp l H; simpl in H; [now left | ].
  destruct (IH _ _ H) as [H1 | H1]; [ | now right].
  destruct (revert_product_field_tags inp (field c) (oldValue c)) as [e | e];
    rewrite e in H1.
  - now left.
  - right. exists (oldValue c). congruence.
Qed.

(** X5. The tags [execute] and [revert] put in a product
    update are never empty, carry no white space around them and hold
    no comma. *)
Theorem product_update_tags_are_tidy (cs : list Change) (l : list string) (t : string) :
  in_tags (productInput cs) = Some l \/ in_tags (revert_productInput cs) = Some l ->
  In t l ->
  t <> "" /\ trim t = t /\ includes t "," = false.
Proof.
  intros H Ht.
  assert (Hv : exists v, l = read_tags v).
  { destruct H as [H | H].
    - destruct (productInput_tags_from cs _ _ H) as [e | e]; [discriminate | exact e].
    - destruct (revert_productInput_tags_from cs _ _ H) as [e | e];
        [discriminate | exact e]. }
  destruct Hv as [v ->]. exact (read_tags_tidy v t Ht).
Qed.

Definition retag (new : string) : list Change :=
  [ {| productId := "gid://shopify/Product/1"; productTitle := Some "Mug";
       variantId := None; variantTitle := None; field := "tags";
       oldValue := "old"; newValue := new; modificationType := "set" |} ].

Lemma product_update_tags_are_tidy_witness :
  in_tags (productInput (retag " sale ,, new")) = Some ["sale"; "new"]
  /\ trim "sale" = "sale"%string.
Proof.
  assert (H : in_tags (productInput (retag " sale ,, new")) = Some ["sale"; "new"])
    by (vm_compute; reflexivity).
  split; [exact H | ].
  apply (product_update_tags_are_tidy (retag " sale ,, new") ["sale"; "new"] "sale").
  - left. exact H.
  - simpl. tauto.
Defined.

End InputProperties.

(** ** From the planner to the executor *)

Module PipelineProperties.

Import Wizard Executor SetFacts GroupingProperties PlannerProperties
       ExecutorProperties.
Local Open Scope nat_scope.
Local Open Scope list_scope.

(** A change as the planner makes it for a field of the registry: a
    product-level field without a variant id, or a variant-level
    field with one. *)
Definition planned (c : Change) : Prop :=
  (mem (field c) execute_product_fields = true
   /\ mem (field c) execute_variant_fields = false
   /\ variantId c = None)
  \/ (mem (field c) execute_variant_fields = true
      /\ mem (field c) execute_product_fields = false
      /\ variantId c <> None).

Lemma product_change_planned (product : Product) (m : Mod) (fd : FieldDef) (c : Change) :
  getFieldDef (mod_field m) = Some fd -> level fd = productLevel ->
  In c (product_change product m) -> planned c.
Proof.
  intros Hfd Hlevel Hin. unfold product_change in Hin.
  destruct (calcValue (Some (current_of product (mod_field m))) m) as [nv |];
    [ | contradiction].
  destruct (nv =? current_of product (mod_field m))%string; [contradiction | ].
  destruct Hin as [<- | []]. left. cbn [field variantId].
  apply getFieldDef_spec in Hfd as [Hin <-]. simpl in Hin.
  repeat (destruct Hin as [Hin | Hin];
          [subst fd; simpl in Hlevel; try discriminate; repeat split; reflexivity | ]).
  contradiction.
Qed.

Lemma variant_change_planned (product : Product) (m : Mod) (fd : FieldDef)
      (v : Variant) (c : Change) :
  getFieldDef (mod_field m) = Some fd -> level fd = variantLevel ->
  In c (submitted_variant_change fd product m v) -> planned c.
Proof.
  intros Hfd Hlevel Hin. unfold submitted_variant_change in Hin.
  destruct (calcValue _ m) as [nv |]; [ | contradiction].
  match type of Hin with In _ (if ?b then _ else _) => destruct b end;
    [contradiction | ].
  destruct Hin as [<- | []]. right. cbn [field variantId].
  apply getFieldDef_spec in Hfd as [Hin <-]. simpl in Hin.
  repeat (destruct Hin as [Hin | Hin];
          [subst fd; simpl in Hlevel; try discriminate;
           repeat split; try reflexivity; discriminate | ]).
  contradiction.
Qed.

Lemma changesToSubmit_planned (selected : list Product) (modifications : list Mod)
      (c : Change) :
  In c (changesToSubmit selected modifications) -> planned c.
Proof.
  unfold changesToSubmit. intros Hin.
  apply in_flat_map in Hin as [product [_ Hin]].
  apply in_flat_map in Hin as [m [_ Hin]].
  destruct (getFieldDef (mod_field m)) as [fd |] eqn:Hfd; [ | contradiction].
  destruct (level fd) eqn:Hlevel.
  - eapply product_change_planned; eassumption.
  - apply in_flat_map in Hin as [v [_ Hin]].
    eapply variant_change_planned; eassumption.
Qed.

(** The list shown at step 3 is part of the list submitted. *)
Lemma variant_change_submitted (fd : FieldDef) (product : Product) (m : Mod)
      (v : Variant) (c : Change) :
  In c (variant_change fd product m v) ->
  In c (submitted_variant_change fd product m v).
Proof.
  unfold variant_change, submitted_variant_change.
  match goal with |- In _ (if ?b then _ else _) -> _ => destruct b end;
    [contradiction | trivial].
Qed.

(** X6. Every change of the list shown at step 3 is in the
    list [confirmExecute] submits, and every change submitted is one
    [execute] sends: its field is a product-level field of [execute]
    and it has no variant id, or its field is a variant-level field
    of [execute] and it has a variant id. *)
Theorem previewed_changes_are_submitted_and_handled
        (selected : list Product) (modifications : list Mod) (c : Change) :
  (In c (changes 3 selected modifications) ->
   In c (changesToSubmit selected modifications))
  /\ (In c (changesToSubmit selected modifications) -> planned c).
Proof.
  split; [ | apply changesToSubmit_planned].
  unfold changes, changesToSubmit. cbn [Z.eqb Pos.eqb]. intros Hin.
  apply in_flat_map in Hin as [product [Hp Hin]].
  apply in_flat_map in Hin as [m [Hm Hin]].
  apply in_flat_map. exists product. split; [exact Hp | ].
  apply in_flat_map. exists m. split; [exact Hm | ].
  unfold mod_changes in Hin.
  destruct (getFieldDef (mod_field m)) as [fd |]; [ | contradiction].
  destruct (level fd); [exact Hin | ].
  apply in_flat_map in Hin as [v [Hv Hin]].
  apply in_flat_map. exists v. split; [exact Hv | ].
  now apply variant_change_submitted.
Qed.

(** *** A run the catalog accepts *)

Lemma parts_of_planned (cs : list Change) :
  (forall c, In c cs -> planned c) ->
  List.length (product_part cs) + List.length (variant_part cs) = List.length cs.
Proof.
  induction cs as [| c cs IH]; intros H; [reflexivity | ].
  unfold product_part, variant_part in *. cbn [filter].
  specialize (IH (fun x Hx => H x (or_intror Hx))).
  destruct (H c (or_introl eq_refl)) as [[H1 [H2 _]] | [H1 [H2 _]]];
    rewrite H1, H2; cbn [List.length]; lia.
Qed.

Lemma list_sum_cons (a : nat) (l : list nat) : list_sum (a :: l) = a + list_sum l.
Proof. reflexivity. Qed.

Lemma of_product_cons (c : Change) (l : list Change) (k : string) :
  List.length (of_product (c :: l) k)
  = (if productId c =? k then 1 else 0)%string + List.length (of_product l k).
Proof.
  unfold of_product. cbn [filter].
  destruct (productId c =? k)%string; reflexivity.
Qed.

Lemma one_key (keys : list string) (x : string) :
  NoDup keys -> In x keys ->
  list_sum (map (fun k => if (x =? k)%string then 1 else 0) keys) = 1.
Proof.
  induction keys as [| k keys IH]; intros Hnd Hin; [contradiction | ].
  inversion Hnd as [| ? ? Hk Hrest]; subst. cbn [map]; rewrite ?list_sum_cons.
  destruct (String.eqb_spec x k) as [e | ne].
  - subst k. f_equal.
    clear IH Hin Hnd Hrest. induction keys as [| k keys IH]; [reflexivity | ].
    cbn [map]; rewrite ?list_sum_cons. destruct (String.eqb_spec x k) as [e | _].
    + subst k. exfalso. apply Hk. now left.
    + apply IH. intros H. apply Hk. now right.
  - destruct Hin as [e | Hin]; [congruence | ]. now apply IH.
Qed.

Lemma count_of_products (keys : list string) (l : list Change) :
  NoDup keys -> (forall c, In c l -> In (productId c) keys) ->
  list_sum (map (fun k => List.length (of_product l k)) keys) = List.length l.
Proof.
  intros Hnd. induction l as [| c l IH]; intros Hin.
  - clear. induction keys as [| k keys IHk]; [reflexivity | exact IHk].
  - specialize (IH (fun x Hx => Hin x (or_intror Hx))).
    specialize (Hin c (or_introl eq_refl)).
    change (List.length (c :: l)) with (1 + List.length l).
    rewrite <- IH, <- (one_key keys (productId c) Hnd Hin).
    clear. induction keys as [| k keys IHk]; [reflexivity | ].
    cbn [map]; rewrite ?list_sum_cons. rewrite IHk, of_product_cons. lia.
Qed.

Section Accepting.

Variable catalog : Request -> Response.
Hypothesis accepts : forall q, catalog q = Replied [].

Lemma accepted_entry (entry : string * list Change) :
  entry_successes catalog entry
  = product_part (snd entry) ++ variant_part (snd entry)
  /\ entry_error_count catalog entry = 0
  /\ entry_failures catalog entry = 0.
Proof.
  unfold entry_successes, entry_error_count, entry_failures, variant_outcome,
    product_outcome, outcome.
  destruct (product_part (snd entry)) as [| p ps];
    destruct (variant_part (snd entry)) as [| v vs];
    rewrite ?accepts; simpl; repeat split; reflexivity.
Qed.

Lemma accepted_loop (cs : list Change) :
  (forall c, In c cs -> planned c) ->
  let r := execute_loop catalog cs in
  successCount r = List.length cs /\ errorCount r = 0 /\ errors r = []
  /\ List.length (historyRecords r) = List.length cs.
Proof.
  intros Hpl r.
  destruct (execute_loop_report catalog cs) as [Hs [He [Hh [Hr _]]]].
  fold r in Hs, He, Hh, Hr.
  assert (Hsum : list_sum (map (fun g => List.length (entry_successes catalog g))
                               (changesByProduct cs)) = List.length cs).
  { rewrite changesByProduct_grouped. unfold grouped. rewrite map_map.
    rewrite <- (count_of_products (dedup (map productId cs)) cs).
    - f_equal. apply map_ext. intros k.
      destruct (accepted_entry (k, of_product cs k)) as [-> _].
      cbn [snd]. rewrite length_app. apply parts_of_planned.
      intros c Hc. apply Hpl. unfold of_product in Hc.
      now apply filter_In in Hc.
    - apply dedup_NoDup.
    - intros c Hc. apply dedup_In, in_map. exact Hc. }
  assert (Hzero : forall (f : string * list Change -> nat) gs,
             (forall g, f g = 0) -> list_sum (map f gs) = 0).
  { intros f gs Hf. induction gs as [| g gs IH]; [reflexivity | ].
    simpl. now rewrite Hf, IH. }
  split; [now rewrite Hs | ]. split.
  { rewrite He. apply Hzero. intros g. apply accepted_entry. }
  split.
  { rewrite (Hzero (entry_failures catalog)) in Hr
      by (intros g; apply accepted_entry).
    now apply length_zero_iff_nil. }
  rewrite Hh, <- Hsum. clear.
  induction (changesByProduct cs) as [| g gs IH]; [reflexivity | ].
  cbn [flat_map map list_sum]. rewrite length_app, IH. f_equal.
  unfold entry_history. rewrite length_app, !length_map.
  unfold entry_successes. now rewrite length_app.
Qed.

End Accepting.

(** X7. When the quota lets [execute] run and the catalog
    answers every mutation without [userErrors], the report for the
    list the wizard submits counts every change as a success and none
    as an error, [totalProducts] is the number of distinct products
    changed, one audit record is written per change, and the row of
    [bulkEdit] is [completed]. *)
Theorem accepted_run_counts_every_change
        (catalog : Request -> Response) (w : World)
        (selected : list Product) (modifications : list Mod)
        (editName : option string) :
  (forall q, catalog q = Replied []) ->
  (let row := match shopPlan w with Some sp => sp | None => default_plan end in
   limit_reached (editsLimitOf (or_default (plan row) "free")) (monthlyEdits row)
     = false) ->
  let cs := changesToSubmit selected modifications in
  let out := execute catalog w cs editName in
  snd out = Executed (List.length cs) 0 []
                     (List.length (dedup (map productId cs)))
  /\ List.length (priceHistory (fst out))
     = List.length (priceHistory w) + List.length cs
  /\ exists row, bulkEdit (fst out) = bulkEdit w ++ [row]
                 /\ be_status row = "completed"%string
                 /\ be_productCount row = List.length cs.
Proof.
  intros Hacc Hlimit cs out. subst out. unfold execute.
  cbv zeta in Hlimit. rewrite Hlimit.
  destruct (accepted_loop catalog Hacc cs) as [Hs [He [Hr Hh]]].
  { intros c Hc. now apply (changesToSubmit_planned selected modifications). }
  cbn [fst snd priceHistory bulkEdit]. rewrite Hs, He, Hr.
  split.
  { f_equal. rewrite changesByProduct_grouped. unfold grouped.
    now rewrite length_map. }
  split; [rewrite length_app; now rewrite Hh | ].
  eexists. split; [reflexivity | ]. split; reflexivity.
Qed.

Definition mug : Product :=
  {| product_id := "gid://shopify/Product/1"; title := Some "Mug"; handle := Some "mug";
     status := Some "ACTIVE"; productType := Some "Kitchen"; vendor := Some "Acme";
     tags := Some ["sale"]; templateSuffix := None; featuredMedia := false;
     variants := [ {| variant_id := "gid://shopify/ProductVariant/11";
                      variant_title := Some "Default Title"; price := Some "10.00";
                      compareAtPrice := None; sku := Some "MUG-1"; barcode := None;
                      inventoryQuantity := Some (of_Z 4); weight := None |} ] |}.

Definition price_to_twelve : Mod :=
  {| mod_field := "price"; mod_type := "exact"; mod_value := "12";
     mod_value2 := None; mod_rounding := Some "none"%string |}.

Definition fresh_world : World :=
  {| shopPlan := None; priceHistory := []; bulkEdit := []; mutations := [] |}.

Lemma accepted_run_counts_every_change_witness :
  snd (execute (fun _ => Replied []) fresh_world
               (changesToSubmit [mug] [price_to_twelve]) None)
  = Executed 1 0 [] 1.
Proof.
  exact (proj1 (accepted_run_counts_every_change (fun _ => Replied []) fresh_world
                  [mug] [price_to_twelve] None (fun _ => eq_refl) eq_refl)).
Defined.

(** *** The quota over several runs *)


Definition refused (r : Result) : bool :=
  match r with LimitReached _ _ _ => true | _ => false end.








End PipelineProperties.

(** ** Filter rows of the wizard and stock rules of the webhook *)

Module FilterRowProperties.

Import Wizard WizardPage NumberFacts.

Lemma includes_empty (s : string) : includes s "" = true.
Proof. destruct s; reflexivity. Qed.

Lemma nan_is_no_number (x : number) :
  JsNumber.eqb x NaN = false /\ JsNumber.eqb NaN x = false
  /\ JsNumber.ltb x NaN = false /\ JsNumber.ltb NaN x = false
  /\ JsNumber.leb x NaN = false /\ JsNumber.leb NaN x = false.
Proof. destruct x as [s | s | | s m e]; repeat split; reflexivity. Qed.

Lemma parseFloat_empty : parseFloat "" = NaN.
Proof. reflexivity. Qed.

(** The rule [addFilterRule] adds holds for every product. *)
Lemma fresh_rule_holds (product : Product) :
  evaluateFilter product
    {| rule_field := "title"; rule_operator := "contains";
       rule_value := Some ""; rule_value2 := Some "" |} = true.
Proof.
  unfold evaluateFilter, filter_switch. cbn [rule_field rule_operator rule_value].
  change ("contains" =? "contains") with true. cbv iota.
  change (toLowerCase (or_default (Some "") "")) with "".
  apply includes_empty.
Qed.

Lemma filtered_app (products : list Product) (r1 r2 : list Rule) :
  filtered products (r1 ++ r2)%list = filtered (filtered products r1) r2.
Proof.
  unfold filtered. induction products as [| p ps IH]; [reflexivity | ].
  cbn [filter]. rewrite forallb_app.
  destruct (forallb (evaluateFilter p) r1); cbn [andb filter].
  - destruct (forallb (evaluateFilter p) r2); now rewrite IH.
  - exact IH.
Qed.

Lemma filtered_fresh (products : list Product) :
  filtered products
    [ {| rule_field := "title"; rule_operator := "contains";
         rule_value := Some ""; rule_value2 := Some "" |} ] = products.
Proof.
  unfold filtered. induction products as [| p ps IH]; [reflexivity | ].
  cbn [filter].
  match goal with
  | |- (if ?b then _ else _) = _ =>
      assert (H : b = true)
        by (cbn [forallb]; rewrite fresh_rule_holds; reflexivity);
      rewrite H
  end.
  now rewrite IH.
Qed.

(** X9. Adding a filter row leaves the filtered list as it
    is: the row added holds for every product until its value is
    typed. More rows only narrow the list: filtering by the rows [a]
    followed by the rows [b] is filtering by [b] what [a] kept. *)
Theorem added_row_keeps_filtered (products : list Product) (a b : list RuleRow)
        (now : Z) :
  filtered_by products (addFilterRule a now) = filtered_by products a
  /\ filtered_by products (a ++ b)%list = filtered_by (filtered_by products a) b.
Proof.
  unfold filtered_by, addFilterRule. rewrite !map_app, !filtered_app. split;
    [ | reflexivity].
  cbn [map row_rule]. apply filtered_fresh.
Qed.

(** *** A row switched to a number field *)

Definition number_fields : list string :=
  ["price"; "compareAtPrice"; "inventoryQuantity"; "weight"].

Lemma toLowerCase_truthy (s : string) : truthy (toLowerCase s) = truthy s.
Proof. destruct s; reflexivity. Qed.

Lemma eqb_empty_truthy (s : string) : truthy s = true -> (s =? "") = false.
Proof. destruct s; [discriminate | reflexivity]. Qed.

(** The rule a row holds once its field is set to a number field:
    [equals] with an empty value. It holds for no product. *)
Lemma blank_number_rule_fails (product : Product) (f : string) :
  In f number_fields ->
  evaluateFilter product
    {| rule_field := f; rule_operator := "equals";
       rule_value := Some ""; rule_value2 := Some "" |} = false.
Proof.
  intros Hin. simpl in Hin. unfold evaluateFilter, filter_switch.
  cbn [rule_field rule_operator rule_value].
  change ("equals" =? "contains") with false.
  change ("equals" =? "not_contains") with false.
  change ("equals" =? "equals") with true. cbv iota.
  change (parseFloat_opt (Some "")) with NaN.
  change (toLowerCase (or_default (Some "") "")) with "".
  destruct Hin as [<- | [<- | [<- | [<- | []]]]]; cbn [String.eqb Ascii.eqb Bool.eqb orb];
    try apply nan_is_no_number.
  apply eqb_empty_truthy. rewrite toLowerCase_truthy.
  unfold filter_value. cbn [String.eqb Ascii.eqb Bool.eqb js_string].
  destruct (opt_bind (hd_error (variants product)) weight);
    [apply toString_truthy | reflexivity].
Qed.

Lemma operators_of_number_field (f : string) :
  In f number_fields ->
  or_default (hd_error (getOperatorsForField f)) "contains" = "equals".
Proof.
  intros Hin. simpl in Hin.
  destruct Hin as [<- | [<- | [<- | [<- | []]]]]; reflexivity.
Qed.

(** X10. Setting the field of a filter row to [price],
    [compareAtPrice], [inventoryQuantity] or [weight] empties the
    filtered list: the row becomes [equals] with an empty value, which
    no product satisfies, until a value is typed. *)
Theorem number_row_hides_every_product (products : list Product)
        (prev : list RuleRow) (id : Z) (f : string) :
  In f number_fields -> In id (map row_id prev) ->
  filtered_by products (updateFilterRule prev id rk_field f) = [].
Proof.
  intros Hf Hid. unfold filtered_by, filtered.
  assert (Hrule : In {| rule_field := f; rule_operator := "equals";
                        rule_value := Some ""; rule_value2 := Some "" |}
                     (map row_rule (updateFilterRule prev id rk_field f))).
  { apply in_map_iff in Hid as [r [Hr Hin]].
    apply in_map_iff. unfold updateFilterRule.
    eexists. split; [ | apply in_map; exact Hin].
    cbv beta. rewrite Hr, Z.eqb_refl. cbn [negb row_rule].
    unfold update_rule, clear_values. cbn [set_rule_key rule_field rule_operator].
    now rewrite operators_of_number_field. }
  induction products as [| p ps IH]; [reflexivity | ].
  cbn [filter].
  replace (forallb (evaluateFilter p)
                   (map row_rule (updateFilterRule prev id rk_field f)))
    with false; [exact IH | ].
  symmetry. apply not_true_is_false. intros Hall.
  rewrite forallb_forall in Hall. specialize (Hall _ Hrule).
  rewrite blank_number_rule_fails in Hall by exact Hf. discriminate.
Qed.

Definition one_row : list RuleRow :=
  [ {| row_id := 17;
       row_rule := {| rule_field := "title"; rule_operator := "contains";
                      rule_value := Some "mug"; rule_value2 := Some "" |} |} ].

Lemma number_row_hides_every_product_witness :
  filtered_by [PipelineProperties.mug] one_row = [PipelineProperties.mug]
  /\ filtered_by [PipelineProperties.mug] (updateFilterRule one_row 17 rk_field "price")
     = [].
Proof.
  split; [vm_compute; reflexivity | ].
  apply number_row_hides_every_product; simpl; tauto.
Defined.

End FilterRowProperties.

Module StockRuleProperties.

Import Webhook FilterRowProperties.

Definition comparisons : list string :=
  ["equals"; "greater_than"; "less_than"; "greater_or_equal"; "less_or_equal";
   "between"].

(** [v.inventoryQuantity || ""] is [""]: the quantity is absent, or
    it is a zero. *)
Definition out_of_stock (v : Variant) : Prop :=
  match inventoryQuantity v with
  | Some n => js_truthy (JNumber n) = false
  | None => True
  end.

Lemma matchValue_blank_number (r : Rule) :
  rule_field r = "inventoryQuantity" -> In (rule_operator r) comparisons ->
  matchValue "" r = false.
Proof.
  intros Hf Hop. unfold matchValue. rewrite Hf. rewrite parseFloat_empty.
  change (mem "inventoryQuantity" ["price"; "compareAtPrice"; "inventoryQuantity"])
    with true.
  simpl in Hop.
  destruct Hop as [<- | [<- | [<- | [<- | [<- | [<- | []]]]]]];
    cbn [String.eqb Ascii.eqb Bool.eqb]; try apply nan_is_no_number.
  replace (JsNumber.leb (parseFloat_opt (rule_value r)) NaN) with false
    by (symmetry; apply nan_is_no_number).
  reflexivity.
Qed.

(** X11. In the webhook, a rule that compares
    [inventoryQuantity] with a number ([equals], [greater_than],
    [less_than], [greater_or_equal], [less_or_equal], [between]) holds
    for no product whose variants all have a quantity of zero or none:
    a zero is read as the empty text, which is no number. *)
Theorem zero_stock_matches_no_comparison (product : Product) (r : Rule) :
  rule_field r = "inventoryQuantity" -> In (rule_operator r) comparisons ->
  (forall v, In v (variants product) -> out_of_stock v) ->
  evaluateFilter product r = false.
Proof.
  intros Hf Hop Hzero. unfold evaluateFilter. rewrite Hf.
  change (mem "inventoryQuantity" variant_fields) with true. cbv iota.
  apply not_true_is_false. intros Hex.
  apply existsb_exists in Hex as [v [Hv Hm]].
  specialize (Hzero v Hv). unfold out_of_stock in Hzero.
  unfold variant_prop in Hm. cbn [String.eqb Ascii.eqb Bool.eqb] in Hm.
  assert (Hblank : js_string
                     (js_or match inventoryQuantity v with
                            | Some n => JNumber n
                            | None => JUndefined
                            end (JString "")) = "").
  { unfold js_or. destruct (inventoryQuantity v) as [n |].
    - now rewrite Hzero.
    - reflexivity. }
  rewrite Hblank, matchValue_blank_number in Hm by assumption. discriminate.
Qed.

Definition sold_out : Product :=
  {| product_id := "gid://shopify/Product/2"; title := Some "Cup"; handle := None;
     status := Some "ACTIVE"; productType := Some ""; vendor := Some "";
     tags := Some []; templateSuffix := None; featuredMedia := false;
     variants := [ {| variant_id := "gid://shopify/ProductVariant/21";
                      variant_title := Some ""; price := Some "4.00";
                      compareAtPrice := None; sku := Some ""; barcode := Some "";
                      inventoryQuantity := Some zero; weight := None |} ] |}.

Definition stock_is_zero : Rule :=
  {| rule_field := "inventoryQuantity"; rule_operator := "equals";
     rule_value := Some "0"; rule_value2 := None |}.

Lemma zero_stock_matches_no_comparison_witness :
  evaluateFilter sold_out stock_is_zero = false
  /\ Wizard.evaluateFilter sold_out stock_is_zero = true.
Proof.
  split; [ | vm_compute; reflexivity].
  apply zero_stock_matches_no_comparison.
  - reflexivity.
  - simpl. tauto.
  - intros v [<- | []]. reflexivity.
Defined.

End StockRuleProperties.

(** ** Selection and live preview *)

Module SelectionProperties.

Import WizardPage SetFacts.
Local Open Scope nat_scope.
Local Open Scope list_scope.

Lemma selected_all (filtered : list Product) (ids : IdSet) :
  (forall p, In p filtered -> In (product_id p) ids) ->
  selected filtered ids = filtered.
Proof.
  intros H. unfold selected. apply forallb_filter_id, forallb_forall.
  intros p Hp. unfold has. apply mem_In. now apply H.
Qed.

(** X12. With products of pairwise distinct ids,
    [toggleAll] on a selection that is not already of the size of the
    filtered list selects exactly the filtered products, and
    [toggleAll] again clears the selection. *)
Theorem toggleAll_selects_then_clears (selectedIds : IdSet) (filtered : list Product) :
  NoDup (map product_id filtered) ->
  List.length selectedIds <> List.length filtered ->
  let all := toggleAll selectedIds filtered in
  selected filtered all = filtered
  /\ List.length all = List.length filtered
  /\ toggleAll all filtered = [].
Proof.
  intros Hnd Hlen all.
  assert (Hall : all = map product_id filtered).
  { subst all. unfold toggleAll.
    replace (Nat.eqb (List.length selectedIds) (List.length filtered)) with false
      by (symmetry; now apply Nat.eqb_neq).
    cbn [andb]. now apply dedup_fixed. }
  rewrite Hall. split; [ | split].
  - apply selected_all. intros p Hp. now apply in_map.
  - apply length_map.
  - unfold toggleAll. rewrite length_map, Nat.eqb_refl. cbn [andb].
    destruct filtered as [| p ps]; reflexivity.
Qed.

Lemma toggleAll_selects_then_clears_witness :
  toggleAll [] [PipelineProperties.mug] = ["gid://shopify/Product/1"%string]
  /\ toggleAll (toggleAll [] [PipelineProperties.mug]) [PipelineProperties.mug] = [].
Proof.
  split; [reflexivity | ].
  apply (toggleAll_selects_then_clears [] [PipelineProperties.mug]).
  - repeat constructor. simpl. tauto.
  - discriminate.
Defined.

Lemma has_delete (s : IdSet) (i j : string) :
  has (set_delete s i) j = (has s j && negb (j =? i)%string)%bool.
Proof.
  unfold has, set_delete, mem. induction s as [| x s IH]; [reflexivity | ].
  cbn [filter existsb].
  destruct (String.eqb_spec x i) as [exi | nxi]; cbn [negb existsb]; rewrite IH;
    destruct (String.eqb_spec j x) as [ejx | njx];
    destruct (String.eqb_spec j i) as [eji | nji];
    cbn [negb andb orb]; try congruence;
    rewrite ?andb_true_r, ?andb_false_r; reflexivity.
Qed.

Lemma has_add (s : IdSet) (i j : string) :
  has (set_add s i) j = (has s j || (j =? i)%string)%bool.
Proof.
  unfold set_add. destruct (has s i) eqn:E.
  - destruct (String.eqb_spec j i) as [eji | nji].
    + subst j. now rewrite E.
    + now rewrite orb_false_r.
  - unfold has. rewrite mem_app. unfold mem at 2. cbn [existsb].
    now rewrite orb_false_r.
Qed.

(** X13. [toggleProduct] flips the membership of the id it is
    given and of no other; toggling the same product twice gives back
    the products selected before. *)
Theorem toggleProduct_twice (selectedIds : IdSet) (id : string)
        (filtered : list Product) :
  (forall j, has (toggleProduct selectedIds id) j
             = if (j =? id)%string then negb (has selectedIds id)
               else has selectedIds j)
  /\ selected filtered (toggleProduct (toggleProduct selectedIds id) id)
     = selected filtered selectedIds.
Proof.
  assert (Hflip : forall s j, has (toggleProduct s id) j
                              = if (j =? id)%string then negb (has s id)
                                else has s j).
  { intros s j. unfold toggleProduct. destruct (has s id) eqn:E.
    - rewrite has_delete. destruct (String.eqb_spec j id) as [eji | nji]; cbn [negb].
      + now rewrite andb_false_r.
      + now rewrite andb_true_r.
    - rewrite has_add. destruct (String.eqb_spec j id) as [eji | nji].
      + now rewrite orb_true_r.
      + now rewrite orb_false_r. }
  split; [apply Hflip | ].
  unfold selected. apply filter_ext. intros p. rewrite !Hflip.
  destruct (String.eqb_spec (product_id p) id) as [e | ne]; [ | reflexivity].
  rewrite String.eqb_refl, e. apply negb_involutive.
Qed.

End SelectionProperties.

Module PreviewProperties.

Import Wizard WizardPage.
Local Open Scope nat_scope.
Local Open Scope list_scope.

(** The example shown for a submitted change. *)
Definition example_of (c : Change) : Example :=
  {| ex_title := productTitle c;
     ex_variant := match variantId c with
                   | Some _ => shown_title (variantTitle c)
                   | None => None
                   end;
     ex_field := field c;
     ex_oldValue := match variantId c with
                    | Some _ => if (oldValue c =? "")%string then "(empty)"%string
                                else oldValue c
                    | None => oldValue c
                    end;
     ex_newValue := newValue c |}.

Definition opt_list {A} (o : option A) : list A :=
  match o with Some a => [a] | None => [] end.

Lemma product_example_of (product : Product) (m : Mod) :
  opt_list (product_example product m) = map example_of (product_change product m).
Proof.
  unfold product_example, product_change.
  destruct (calcValue _ m) as [nv |]; [ | reflexivity].
  destruct (nv =? _)%string; reflexivity.
Qed.

Lemma or_default_truthy_or (o : option string) (d : string) :
  truthy d = true -> truthy (or_default o d) = true.
Proof.
  intros Hd. destruct o as [s |]; simpl; [ | exact Hd].
  destruct (truthy s) eqn:E; assumption.
Qed.

Lemma variant_example_of (fd : FieldDef) (product : Product) (m : Mod) (v : Variant) :
  opt_list (variant_example fd product m v)
  = map example_of (submitted_variant_change fd product m v).
Proof.
  unfold variant_example, submitted_variant_change.
  destruct (calcValue _ m) as [nv |]; [ | reflexivity].
  match goal with |- context [if ?b then None else _] => destruct b end;
    [reflexivity | ].
  cbn [opt_list map]. unfold example_of. cbn [variantId]. f_equal. f_equal.
  cbn [oldValue]. destruct (is_numeric (category fd)).
  - assert (H : truthy (or_default (read_variant fd v) "0") = true)
      by (now apply or_default_truthy_or).
    destruct (or_default (read_variant fd v) "0"); [discriminate | reflexivity].
  - destruct (read_variant fd v) as [s |]; [ | reflexivity].
    destruct s; reflexivity.
Qed.

(** *** Loops that stop at ten examples *)

Lemma firstn_short {A} (l : list A) : List.length l < 10 -> firstn 10 l = l.
Proof. intros H. apply firstn_all2. lia. Qed.

Lemma firstn_prefix {A} (a b : list A) :
  10 <= List.length a -> firstn 10 (a ++ b) = firstn 10 a.
Proof.
  intros H. rewrite firstn_app.
  replace (10 - List.length a) with 0 by lia. cbn [firstn]. apply app_nil_r.
Qed.

Lemma not_full_short (l : list Example) : full l = false <-> List.length l < 10.
Proof. unfold full. rewrite Nat.leb_gt. reflexivity. Qed.

Lemma is_full (l : list Example) : full l = true <-> 10 <= List.length l.
Proof. unfold full. apply Nat.leb_le. Qed.

(** The step shared by the three loops: after the examples [items]
    of one turn were added as far as ten, either the list is full or
    the loop goes on. *)
Lemma stop_or_go (acc items rest : list Example) (go : list Example -> list Example) :
  (forall acc', List.length acc' < 10 -> go acc' = firstn 10 (acc' ++ rest)) ->
  let r := firstn 10 (acc ++ items) in
  (if full r then r else go r) = firstn 10 (acc ++ items ++ rest).
Proof.
  intros Hgo r. subst r. destruct (full (firstn 10 (acc ++ items))) eqn:E.
  - apply is_full in E. rewrite length_firstn in E.
    rewrite app_assoc, (firstn_prefix (acc ++ items) rest); [reflexivity | lia].
  - apply not_full_short in E. rewrite Hgo by exact E.
    rewrite length_firstn in E.
    rewrite (firstn_short (acc ++ items)) by lia. now rewrite app_assoc.
Qed.

Lemma preview_variants_firstn (fd : FieldDef) (product : Product) (m : Mod)
      (vs : list Variant) :
  forall acc, List.length acc < 10 ->
    preview_variants fd product m vs acc
    = firstn 10 (acc ++ flat_map (fun v => opt_list (variant_example fd product m v)) vs).
Proof.
  induction vs as [| v vs IH]; intros acc Hacc; cbn [preview_variants flat_map].
  - rewrite app_nil_r. symmetry. now apply firstn_short.
  - destruct (variant_example fd product m v) as [ex |]; cbn [opt_list app];
      [ | now apply IH].
    pose proof (IH (acc ++ [ex])) as IH'.
    rewrite <- app_assoc in IH'. cbn [app] in IH'.
    destruct (full (acc ++ [ex])) eqn:E.
    + apply is_full in E. rewrite length_app in E. cbn [List.length] in E.
      change (ex :: flat_map (fun v0 => opt_list (variant_example fd product m v0)) vs)
        with ([ex] ++ flat_map (fun v0 => opt_list (variant_example fd product m v0)) vs).
      rewrite app_assoc.
      rewrite (firstn_prefix (acc ++ [ex])) by (rewrite length_app; simpl; lia).
      symmetry. apply firstn_all2. rewrite length_app. simpl. lia.
    + apply not_full_short in E. now apply IH'.
Qed.

(** The examples of one modification on one product. *)
Definition mod_examples (product : Product) (m : Mod) : list Example :=
  match getFieldDef (mod_field m) with
  | None => []
  | Some fd =>
      match level fd with
      | productLevel => opt_list (product_example product m)
      | variantLevel =>
          flat_map (fun v => opt_list (variant_example fd product m v))
                   (variants product)
      end
  end.

Lemma preview_mods_firstn (product : Product) (ms : list Mod) :
  forall acc, List.length acc < 10 ->
    preview_mods product ms acc
    = firstn 10 (acc ++ flat_map (mod_examples product) ms).
Proof.
  induction ms as [| m ms IH]; intros acc Hacc; cbn [preview_mods flat_map].
  - rewrite app_nil_r. symmetry. now apply firstn_short.
  - unfold mod_examples at 1.
    destruct (getFieldDef (mod_field m)) as [fd |]; [ | now apply IH].
    destruct (level fd).
    + destruct (product_example product m) as [ex |]; cbn [opt_list app];
        [ | now apply IH].
      pose proof (stop_or_go acc [ex] (flat_map (mod_examples product) ms)
                    (preview_mods product ms) IH) as H.
      cbv zeta in H.
      rewrite (firstn_all2 (n := 10) (acc ++ [ex])) in H
        by (rewrite length_app; simpl; lia).
      exact H.
    + rewrite preview_variants_firstn by exact Hacc.
      apply stop_or_go. exact IH.
Qed.

Lemma preview_products_firstn (ps : list Product) (ms : list Mod) :
  forall acc, List.length acc < 10 ->
    preview_products ps ms acc
    = firstn 10 (acc ++ flat_map (fun p => flat_map (mod_examples p) ms) ps).
Proof.
  induction ps as [| p ps IH]; intros acc Hacc; cbn [preview_products flat_map].
  - rewrite app_nil_r. symmetry. now apply firstn_short.
  - rewrite preview_mods_firstn by exact Hacc. apply stop_or_go. exact IH.
Qed.

Lemma map_flat_map {A B C} (f : B -> C) (g : A -> list B) (l : list A) :
  map f (flat_map g l) = flat_map (fun a => map f (g a)) l.
Proof.
  induction l as [| a l IH]; [reflexivity | ].
  cbn [flat_map]. now rewrite map_app, IH.
Qed.

Lemma mod_examples_of (product : Product) (m : Mod) :
  mod_examples product m
  = map example_of
        (match getFieldDef (mod_field m) with
         | None => []
         | Some fieldDef =>
             match level fieldDef with
             | productLevel => product_change product m
             | variantLevel =>
                 flat_map (submitted_variant_change fieldDef product m)
                          (variants product)
             end
         end).
Proof.
  unfold mod_examples. destruct (getFieldDef (mod_field m)) as [fd |];
    [ | reflexivity].
  destruct (level fd); [apply product_example_of | ].
  rewrite map_flat_map. apply flat_map_ext. intros v. apply variant_example_of.
Qed.

(** X14. The live preview is empty while there is no
    modification or one of them has no value; otherwise it shows, in
    order, the first ten of the changes [confirmExecute] would submit
    for the first eight selected products, and so never more than
    ten. *)
Theorem livePreview_is_head_of_submission (selected : list Product)
        (modifications : list Mod) :
  livePreview selected modifications
  = (if (Nat.eqb (List.length modifications) 0
         || negb (forallb (fun m => truthy (mod_value m)) modifications))%bool
     then []
     else firstn 10 (map example_of
                         (changesToSubmit (firstn 8 selected) modifications)))
  /\ List.length (livePreview selected modifications) <= 10.
Proof.
  assert (Heq : livePreview selected modifications
                = if (Nat.eqb (List.length modifications) 0
                      || negb (forallb (fun m => truthy (mod_value m)) modifications))%bool
                  then []
                  else firstn 10 (map example_of
                                      (changesToSubmit (firstn 8 selected)
                                                       modifications))).
  { unfold livePreview.
    destruct (Nat.eqb (List.length modifications) 0
              || negb (forallb (fun m => truthy (mod_value m)) modifications))%bool;
      [reflexivity | ].
    rewrite preview_products_firstn by (simpl; lia). cbn [app]. f_equal.
    unfold changesToSubmit. rewrite map_flat_map. apply flat_map_ext. intros p.
    rewrite map_flat_map. apply flat_map_ext. intros m. apply mod_examples_of. }
  split; [exact Heq | ]. rewrite Heq.
  destruct (_ || _)%bool; [simpl; lia | ]. rewrite length_firstn. lia.
Qed.

End PreviewProperties.

(** ** The impact summary *)

Module ImpactProperties.

Import Wizard WizardPage PlannerProperties.
Local Open Scope nat_scope.
Local Open Scope list_scope.

(** Comparing the other way round gives the opposite answer. *)
Lemma SFcompare_antisym (x y : number) :
  SFcompare y x = option_map CompOpp (SFcompare x y).
Proof.
  destruct x as [sx | sx | | sx mx ex], y as [sy | sy | | sy my ey];
    try reflexivity;
    try (destruct sx; reflexivity); try (destruct sy; reflexivity);
    try (destruct sx, sy; reflexivity).
  cbn [SFcompare option_map].
  assert (Hm : Pos.compare_cont Eq my mx = CompOpp (Pos.compare_cont Eq mx my)).
  { rewrite (Pos.compare_cont_antisym mx my Eq). reflexivity. }
  rewrite Hm, (Z.compare_antisym ex ey).
  destruct sx, sy; try reflexivity;
    destruct (ex ?= ey)%Z; cbn [CompOpp]; try reflexivity;
    destruct (Pos.compare_cont Eq mx my); reflexivity.
Qed.

(** Two numbers that are neither equal nor one below the other:
    one of them is [NaN]. *)
Lemma unordered_is_nan (o n : number) :
  JsNumber.eqb o n = false ->
  (JsNumber.ltb o n || JsNumber.ltb n o)%bool = negb (isNaN o || isNaN n)%bool.
Proof.
  unfold JsNumber.eqb, JsNumber.ltb, SFeqb, SFltb.
  rewrite (SFcompare_antisym o n).
  destruct o as [so | so | | so mo eo], n as [sn | sn | | sn mn en];
    try reflexivity;
    cbn [isNaN orb negb];
    destruct (SFcompare _ _) as [[| |] |] eqn:E; cbn [option_map CompOpp];
    try reflexivity; try discriminate;
    cbn [SFcompare] in E; try discriminate;
    repeat match type of E with
           | context [if ?b then _ else _] => destruct b
           end; discriminate.
Qed.

Definition no_number (c : Change) : bool :=
  (isNaN (parseFloat (oldValue c)) || isNaN (parseFloat (newValue c)))%bool.

Definition counted (t : Tally) : nat := t_increases t + t_decreases t + t_unchanged t.

Lemma tally_counts (cs : list Change) :
  forall t, counted (fold_left tally_step cs t) = counted t + List.length cs.
Proof.
  induction cs as [| c cs IH]; intros t; cbn [fold_left List.length]; [lia | ].
  rewrite IH. unfold counted, tally_step. cbn [t_increases t_decreases t_unchanged].
  destruct (JsNumber.ltb (parseFloat (oldValue c)) (parseFloat (newValue c)));
    [lia | ].
  destruct (JsNumber.ltb (parseFloat (newValue c)) (parseFloat (oldValue c))); lia.
Qed.

Lemma tally_unchanged (cs : list Change) :
  (forall c, In c cs ->
     JsNumber.eqb (parseFloat (oldValue c)) (parseFloat (newValue c)) = false) ->
  forall t, t_unchanged (fold_left tally_step cs t)
            = t_unchanged t + List.length (filter no_number cs).
Proof.
  induction cs as [| c cs IH]; intros Hd t; cbn [fold_left filter List.length];
    [lia | ].
  rewrite IH by (intros x Hx; apply Hd; now right).
  pose proof (unordered_is_nan _ _ (Hd c (or_introl eq_refl))) as Hc.
  unfold tally_step. cbn [t_unchanged]. fold (no_number c) in Hc.
  destruct (JsNumber.ltb (parseFloat (oldValue c)) (parseFloat (newValue c)));
    destruct (JsNumber.ltb (parseFloat (newValue c)) (parseFloat (oldValue c)));
    destruct (no_number c); cbn [orb negb] in Hc; try discriminate;
    cbn [List.length]; lia.
Qed.

Lemma numeric_changes_differ (step : Z) (selected : list Product)
      (modifications : list Mod) (c : Change) :
  In c (numericChanges (changes step selected modifications)) ->
  JsNumber.eqb (parseFloat (oldValue c)) (parseFloat (newValue c)) = false.
Proof.
  unfold numericChanges. intros H. apply filter_In in H as [Hin Hnum].
  pose proof (changes_differ step selected modifications c Hin) as Hd.
  unfold same_value in Hd.
  destruct (getFieldDef (field c)) as [fd |]; [ | discriminate].
  now rewrite Hnum in Hd.
Qed.

(** X15. The impact summary of the planned changes is [null]
    exactly when none of them is on a numeric field; otherwise its
    three counts add up to the number of changes on numeric fields,
    and [unchanged] counts exactly those whose old or new value is no
    number. *)
Theorem priceImpact_counts (step : Z) (selected : list Product)
        (modifications : list Mod) :
  let cs := numericChanges (changes step selected modifications) in
  match priceImpact (changes step selected modifications) with
  | None => cs = []
  | Some r =>
      cs <> []
      /\ increases r + decreases r + unchanged r = List.length cs
      /\ unchanged r = List.length (filter no_number cs)
  end.
Proof.
  intros cs. unfold priceImpact. fold cs.
  pose proof (numeric_changes_differ step selected modifications) as Hd. fold cs in Hd.
  destruct cs as [| c cs']; [reflexivity | ].
  cbn [increases decreases unchanged].
  split; [discriminate | ]. split.
  - apply (tally_counts (c :: cs')).
  - apply (tally_unchanged (c :: cs') Hd).
Qed.

End ImpactProperties.

(** ** The loader *)

Module LoaderProperties.

Import Executor Loader PipelineProperties.
Local Open Scope list_scope.

Lemma limits_are_positive (p : string) (n : Z) :
  editsLimitOf p = Finite n -> (0 < n)%Z.
Proof.
  unfold editsLimitOf.
  repeat match goal with |- context [if ?b then _ else _] => destruct b end;
    intros H; inversion H; lia.
Qed.

Definition world_of (row : PlanRow) (w : World) : World :=
  {| shopPlan := Some (pr_row row); priceHistory := priceHistory w;
     bulkEdit := bulkEdit w; mutations := mutations w |}.

(** X16. The loader and [execute] agree on the quota: on the
    row the loader leaves, [execute] refuses to run exactly when the
    loader reports zero edits remaining. And when the row was made by
    the loader, or its reset date lies in another month or year than
    today, the loader reports a count of zero and [execute] runs. *)
Theorem loader_quota_agrees_with_execute
        (stored : option PlanRow) (now : YearMonth)
        (catalog : Request -> Response) (w : World) (changes : list Change)
        (editName : option string) :
  let row := fst (load_plan stored now) in
  let view := snd (load_plan stored now) in
  let out := execute catalog (world_of row w) changes editName in
  (refused (snd out) = true <-> editsRemaining view = Finite 0)
  /\ (match stored with
      | Some r => same_month now (pr_monthlyEditReset r) = false
      | None => True
      end ->
      view_monthlyEdits view = 0%Z /\ refused (snd out) = false).
Proof.
  intros row view out.
  assert (Hout : refused (snd out)
                 = limit_reached (editsLimit view) (view_monthlyEdits view)).
  { subst out view row. unfold execute, load_plan, world_of.
    cbn [fst snd shopPlan editsLimit view_monthlyEdits].
    destruct (limit_reached _ _); reflexivity. }
  assert (Hrem : editsRemaining view
                 = match editsLimit view with
                   | Infinity => Infinity
                   | Finite n => Finite (Z.max 0 (n - view_monthlyEdits view))
                   | NoNumber => NoNumber
                   end) by reflexivity.
  assert (Hpos : forall n, editsLimit view = Finite n -> (0 < n)%Z).
  { intros n. subst view. unfold load_plan. cbn [snd editsLimit].
    apply limits_are_positive. }
  assert (Hzero : match stored with
                  | Some r => same_month now (pr_monthlyEditReset r) = false
                  | None => True
                  end -> view_monthlyEdits view = 0%Z).
  { intros Hfresh. subst view. unfold load_plan. cbn [snd view_monthlyEdits].
    destruct stored as [r |].
    - rewrite Hfresh. reflexivity.
    - cbn [pr_monthlyEditReset]. destruct (negb (same_month now now)); reflexivity. }
  clearbody out view row.
  split.
  - rewrite Hout, Hrem. destruct (editsLimit view) as [n | |]; cbn [limit_reached].
    + rewrite Z.leb_le. split; [intros H; f_equal; lia | ].
      intros H. injection H as H. lia.
    + split; discriminate.
    + split; discriminate.
  - intros Hfresh. specialize (Hzero Hfresh).
    split; [exact Hzero | ].
    rewrite Hout, Hzero.
    destruct (editsLimit view) as [n | |] eqn:E; [ | reflexivity | reflexivity].
    cbn [limit_reached]. apply Z.leb_gt. now apply Hpos.
Qed.

(** *** Pages *)

Section Pages.

Variable server : bool -> option string -> QueryAnswer.

(** The query sent with the flag [w] after the cursor [c] is
    answered by a last page, or by a page whose cursor is answered in
    the same way: [pages] are the nodes of these pages. *)
Inductive served (w : bool) : option string -> list (list Product) -> Prop :=
| served_last (c : option string) (er : bool) (d : PageData) :
    server w c = Answered er (Some d) -> (er && w)%bool = false ->
    pg_hasNextPage d = false ->
    served w c [pg_nodes d]
| served_more (c : option string) (er : bool) (d : PageData) (c' : string)
              (rest : list (list Product)) :
    server w c = Answered er (Some d) -> (er && w)%bool = false ->
    pg_hasNextPage d = true -> pg_endCursor d = Some c' -> truthy c' = true ->
    served w (Some c') rest ->
    served w c (pg_nodes d :: rest).

(** The query with the weight is answered by pages that lead from
    the cursor [c] to the cursor [c']. *)
Inductive led : option string -> list (list Product) -> option string -> Prop :=
| led_here (c : option string) : led c [] c
| led_on (c : option string) (d : PageData) (c' : string)
         (rest : list (list Product)) (c'' : option string) :
    server true c = Answered false (Some d) ->
    pg_hasNextPage d = true -> pg_endCursor d = Some c' -> truthy c' = true ->
    led (Some c') rest c'' ->
    led c (pg_nodes d :: rest) c''.

(** The query with the weight fails after the cursor [c]: it throws
    or its answer has [errors]. *)
Definition refused_at (c : option string) : Prop :=
  server true c = QueryThrew \/ exists d, server true c = Answered true d.

Lemma served_loop (w : bool) (c : option string) (pages : list (list Product)) :
  served w c pages ->
  forall all log,
  exists log',
    load_loop server (List.length pages)
              {| allProducts := all; cursor := c; useWeightQuery := w; asked := log |}
    = Some (Products (all ++ List.concat pages), log ++ log')
    /\ map fst log' = repeat w (List.length pages).
Proof.
  induction 1 as [c er d Hs Her Hlast | c er d c' rest Hs Her Hnext Hc Hc' Hrest IH];
    intros all log.
  - exists [(w, c)]. cbn [List.length load_loop]. unfold load_step.
    cbn [useWeightQuery cursor allProducts asked]. rewrite Hs, Her, Hlast.
    cbn [List.concat]. rewrite app_nil_r. split; reflexivity.
  - destruct (IH (all ++ pg_nodes d) (log ++ [(w, c)])) as [log' [Hrun Hflags]].
    exists ((w, c) :: log'). cbn [List.length load_loop]. unfold load_step.
    cbn [useWeightQuery cursor allProducts asked]. rewrite Hs, Her, Hnext.
    cbn [opt_bind]. rewrite Hc, Hc'. rewrite Hrun. split.
    + cbn [List.concat]. now rewrite <- !app_assoc.
    + cbn [map fst repeat]. now rewrite Hflags.
Qed.

(** X17. When the catalog answers the query with the weight page
    after page until a last page, the loader returns the nodes of all
    these pages, in order, after as many queries as there are pages,
    all of them with the weight. *)
Theorem loader_returns_every_page (pages : list (list Product)) :
  served true None pages ->
  exists log,
    load_products server (List.length pages) = Some (Products (List.concat pages), log)
    /\ map fst log = repeat true (List.length pages).
Proof.
  intros H. destruct (served_loop true None pages H [] []) as [log [Hrun Hflags]].
  exists log. split; [exact Hrun | exact Hflags].
Qed.

Lemma led_loop (c : option string) (pages : list (list Product)) (c' : option string) :
  led c pages c' ->
  forall fuel all log,
  exists log',
    load_loop server (List.length pages + fuel)
              {| allProducts := all; cursor := c; useWeightQuery := true;
                 asked := log |}
    = load_loop server fuel
                {| allProducts := all ++ List.concat pages; cursor := c';
                   useWeightQuery := true; asked := log ++ log' |}
    /\ map fst log' = repeat true (List.length pages).
Proof.
  induction 1 as [c | c d c1 rest c2 Hs Hnext Hc Hc1 Hrest IH]; intros fuel all log.
  - exists []. cbn [List.length List.concat Nat.add]. rewrite !app_nil_r.
    split; reflexivity.
  - destruct (IH fuel (all ++ pg_nodes d) (log ++ [(true, c)])) as [log' [Hrun Hflags]].
    exists ((true, c) :: log'). cbn [List.length Nat.add load_loop].
    unfold load_step at 1.
    cbn [useWeightQuery cursor allProducts asked]. rewrite Hs. cbn [andb].
    rewrite Hnext. cbn [opt_bind]. rewrite Hc, Hc1. rewrite Hrun. split.
    + cbn [List.concat]. now rewrite <- !app_assoc.
    + cbn [map fst repeat]. now rewrite Hflags.
Qed.

(** X18. When the query with the weight fails after some
    pages, the loader asks again for the same page without the weight
    and goes on without it: it keeps the pages it had, adds the pages
    the query without the weight gives from there, and sends no query
    with the weight after the one that failed. *)
Theorem loader_falls_back_once (before after : list (list Product))
        (c : option string) :
  led None before c -> refused_at c -> served false c after ->
  exists log,
    load_products server (List.length before + S (List.length after))
    = Some (Products (List.concat before ++ List.concat after), log)
    /\ map fst log
       = repeat true (S (List.length before)) ++ repeat false (List.length after).
Proof.
  intros Hled Hfail Hserved.
  destruct (led_loop None before c Hled (S (List.length after)) [] [])
    as [log1 [Hrun1 Hflags1]].
  destruct (served_loop false c after Hserved (List.concat before) (log1 ++ [(true, c)]))
    as [log2 [Hrun2 Hflags2]].
  exists (log1 ++ (true, c) :: log2). unfold load_products. rewrite Hrun1.
  cbn [load_loop app]. unfold load_step at 1.
  cbn [useWeightQuery cursor allProducts asked].
  assert (Hstep : match server true c with
                  | QueryThrew => true
                  | Answered errors _ => errors
                  end = true).
  { destruct Hfail as [-> | [d ->]]; reflexivity. }
  split.
  - destruct (server true c) as [errors d |].
    + rewrite Hstep. cbn [andb]. unfold fall_back.
      cbn [allProducts cursor]. rewrite Hrun2. now rewrite <- app_assoc.
    + unfold fall_back. cbn [allProducts cursor]. rewrite Hrun2.
      now rewrite <- app_assoc.
  - rewrite map_app. cbn [map fst]. rewrite Hflags1, Hflags2.
    change (true :: repeat false (List.length after))
      with ([true] ++ repeat false (List.length after)).
    rewrite app_assoc. f_equal.
    change (S (List.length before)) with (1 + List.length before)%nat.
    rewrite Nat.add_comm, repeat_app. reflexivity.
Qed.

End Pages.

(** A catalog of two pages that does not give the weight. *)
Definition first_page : PageData :=
  {| pg_nodes := [mug]; pg_hasNextPage := true; pg_endCursor := Some "c1"%string |}.

Definition second_page : PageData :=
  {| pg_nodes := [StockRuleProperties.sold_out]; pg_hasNextPage := false;
     pg_endCursor := Some "c2"%string |}.

Definition page_at (c : option string) : PageData :=
  match c with
  | None => first_page
  | Some _ => second_page
  end.

Definition no_weight_scope (w : bool) (c : option string) : QueryAnswer :=
  if w then Answered true None else Answered false (Some (page_at c)).

Definition with_weight (w : bool) (c : option string) : QueryAnswer :=
  Answered false (Some (page_at c)).

Lemma loader_returns_every_page_witness :
  exists log,
    load_products with_weight 2
    = Some (Products [mug; StockRuleProperties.sold_out], log)
    /\ map fst log = [true; true].
Proof.
  apply (loader_returns_every_page with_weight [[mug]; [StockRuleProperties.sold_out]]).
  apply (served_more with_weight true None false first_page "c1"); try reflexivity.
  apply (served_last with_weight true (Some "c1"%string) false second_page);
    reflexivity.
Defined.

Lemma loader_falls_back_once_witness :
  exists log,
    load_products no_weight_scope 3
    = Some (Products [mug; StockRuleProperties.sold_out], log)
    /\ map fst log = [true; false; false].
Proof.
  apply (loader_falls_back_once no_weight_scope []
           [[mug]; [StockRuleProperties.sold_out]] None).
  - apply led_here.
  - right. exists None. reflexivity.
  - apply (served_more no_weight_scope false None false first_page "c1");
      try reflexivity.
    apply (served_last no_weight_scope false (Some "c1"%string) false second_page);
      reflexivity.
Defined.

End LoaderProperties.

(** ** The automations of [products/update] *)

Module AutomationProperties.

Import Webhook Automation SetFacts TagFacts InputProperties.
Local Open Scope list_scope.

(** *** The variant updates of [applyModifications] *)

(** An assignment [existing[f] = x] to the entry of the variant [id],
    written as the change that makes [variantMap] do the same. *)
Definition as_change (id f x : string) : Change :=
  {| productId := ""; productTitle := None; variantId := Some id;
     variantTitle := None; field := f; oldValue := ""; newValue := x;
     modificationType := "" |}.

(** The assignments of one action, one per variant for which
    [calcValue] gives a value. *)
Definition variant_assignments (fieldDef : FieldDef) (m : Mod) (vs : list Variant)
  : list Change :=
  flat_map (fun v =>
              match calcValue (variant_current fieldDef m v) m with
              | Some x => [as_change (variant_id v) (mod_field m) x]
              | None => []
              end)
           vs.

Definition assignments (product : Product) (actions : list Mod) : list Change :=
  flat_map (fun m =>
              match getFieldDef (mod_field m) with
              | Some fieldDef =>
                  match level fieldDef with
                  | variantLevel => variant_assignments fieldDef m (variants product)
                  | productLevel => []
                  end
              | None => []
              end)
           actions.

(** The value [calcValue] gives for [current] under the last action
    on the field [f] for which it gives one. *)
Definition last_computed (current : option string) (f : string) (actions : list Mod)
  : option string :=
  fold_left (fun acc m =>
               if mod_field m =? f
               then match calcValue current m with
                    | Some x => Some x
                    | None => acc
                    end
               else acc)
            actions None.

Lemma variant_level_field (f : string) (fieldDef : FieldDef) :
  getFieldDef f = Some fieldDef -> level fieldDef = variantLevel ->
  In f text_targets.
Proof.
  unfold getFieldDef, getFieldDefIn, EDITABLE_FIELDS, text_targets.
  cbn [find fd_value].
  repeat match goal with
         | |- context [String.eqb ?s f] =>
             destruct (String.eqb_spec s f) as [<- | ?]
         end;
    intros H; inversion H; subst; cbn [level In]; intros; try discriminate; tauto.
Qed.

Lemma set_update_target (u : VariantInput) (f x : string) :
  In f text_targets -> set_update u f x = Executor.set_variant_field u f x.
Proof.
  intros [<- | [<- | [<- | [<- | []]]]]; reflexivity.
Qed.

Lemma put_update_target (id f x : string) (us : list VariantInput) :
  In f text_targets ->
  put_update id f x us = Executor.put_variant (as_change id f x) us.
Proof.
  intros Hf. induction us as [| u us IH]; cbn [put_update Executor.put_variant].
  - cbn [as_change variantId field newValue]. now rewrite set_update_target.
  - cbn [as_change variantId field newValue] in *.
    destruct (Executor.same_id (vi_id u) (Some id)).
    + now rewrite set_update_target.
    + now rewrite IH.
Qed.

Lemma variants_loop (fieldDef : FieldDef) (m : Mod) (vs : list Variant)
      (us : list VariantInput) :
  In (mod_field m) text_targets ->
  fold_left (update_step fieldDef m) vs us
  = fold_left (fun acc c => Executor.put_variant c acc)
              (variant_assignments fieldDef m vs) us.
Proof.
  intros Hf. revert us. induction vs as [| v vs IH]; intros us; [reflexivity | ].
  cbn [fold_left variant_assignments flat_map]. rewrite fold_left_app.
  fold (variant_assignments fieldDef m vs). rewrite <- IH. f_equal.
  unfold update_step.
  destruct (calcValue (variant_current fieldDef m v) m) as [x |]; [ | reflexivity].
  cbn [fold_left]. now apply put_update_target.
Qed.

Lemma actions_loop (product : Product) (actions : list Mod) (p : Pending) :
  pd_updates (fold_left (action_step product) actions p)
  = fold_left (fun acc c => Executor.put_variant c acc)
              (assignments product actions) (pd_updates p).
Proof.
  revert p. induction actions as [| m actions IH]; intros p; [reflexivity | ].
  cbn [fold_left assignments flat_map]. rewrite fold_left_app.
  fold (assignments product actions). rewrite IH. f_equal.
  unfold action_step.
  destruct (getFieldDef (mod_field m)) as [fieldDef |] eqn:Hdef; [ | reflexivity].
  destruct (level fieldDef) eqn:Hlevel.
  - destruct (calcValue (Some (current_value product (mod_field m))) m);
      reflexivity.
  - cbn [pd_updates]. apply variants_loop.
    now apply (variant_level_field _ fieldDef).
Qed.

Lemma updates_are_a_variantMap (product : Product) (actions : list Mod) :
  pd_updates (pending product actions)
  = Executor.variantMap (assignments product actions).
Proof. unfold pending. now rewrite actions_loop. Qed.

Lemma last_value_none (l : list Change) (i : option string) (f : string) :
  (forall c, In c l -> variantId c <> i) -> last_value l i f = None.
Proof.
  intros H. apply last_value_unknown. intros Hi.
  apply in_map_iff in Hi as [c [Hc Hin]]. now apply (H c).
Qed.

Lemma last_value_app (l1 l2 : list Change) (i : option string) (f : string) :
  last_value (l1 ++ l2) i f
  = match last_value l2 i f with
    | Some x => Some x
    | None => last_value l1 i f
    end.
Proof.
  induction l2 as [| c l2 IH] using rev_ind.
  - now rewrite app_nil_r.
  - rewrite app_assoc, !last_value_snoc, IH.
    destruct (Executor.same_id (variantId c) i && (field c =? f))%bool; reflexivity.
Qed.

Lemma variant_assignments_ids (fieldDef : FieldDef) (m : Mod) (vs : list Variant)
      (c : Change) :
  In c (variant_assignments fieldDef m vs) ->
  exists v, In v vs /\ variantId c = Some (variant_id v).
Proof.
  unfold variant_assignments. intros H.
  apply in_flat_map in H as [v [Hv Hc]]. exists v. split; [exact Hv | ].
  destruct (calcValue (variant_current fieldDef m v) m); [ | contradiction].
  destruct Hc as [<- | []]. reflexivity.
Qed.

Lemma last_value_of_one (fieldDef : FieldDef) (m : Mod) (v : Variant) (i f : string) :
  last_value (variant_assignments fieldDef m [v]) (Some i) f
  = if ((variant_id v =? i) && (mod_field m =? f))%bool
    then calcValue (variant_current fieldDef m v) m else None.
Proof.
  unfold variant_assignments. cbn [flat_map]. rewrite app_nil_r.
  destruct (calcValue (variant_current fieldDef m v) m) as [x |].
  - unfold last_value. cbn [fold_left as_change variantId field newValue
                            Executor.same_id].
    destruct ((variant_id v =? i) && (mod_field m =? f))%bool; reflexivity.
  - cbn. destruct ((variant_id v =? i) && (mod_field m =? f))%bool; reflexivity.
Qed.

Lemma last_value_of_variants (fieldDef : FieldDef) (m : Mod) (vs : list Variant)
      (v : Variant) (f : string) :
  NoDup (map variant_id vs) -> In v vs ->
  last_value (variant_assignments fieldDef m vs) (Some (variant_id v)) f
  = if mod_field m =? f then calcValue (variant_current fieldDef m v) m else None.
Proof.
  induction vs as [| v0 vs IH]; intros Hnd Hin; [contradiction | ].
  inversion Hnd as [| ? ? Hfresh Hrest]; subst.
  assert (Hcons : variant_assignments fieldDef m (v0 :: vs)
                  = variant_assignments fieldDef m [v0]
                    ++ variant_assignments fieldDef m vs).
  { unfold variant_assignments. cbn [flat_map]. now rewrite app_nil_r. }
  rewrite Hcons. clear Hcons.
  - rewrite last_value_app, last_value_of_one. destruct Hin as [-> | Hin].
    + rewrite String.eqb_refl. cbn [andb].
      rewrite (last_value_none (variant_assignments fieldDef m vs)).
      * reflexivity.
      * intros c Hc e.
        apply variant_assignments_ids in Hc as [v' [Hv' Hid]].
        rewrite Hid in e. injection e as e. apply Hfresh. rewrite <- e.
        now apply in_map.
    + rewrite (IH Hrest Hin).
      assert (Hne : (variant_id v0 =? variant_id v) = false).
      { apply String.eqb_neq. intros e. apply Hfresh. rewrite e. now apply in_map. }
      rewrite Hne. cbn [andb].
      destruct (mod_field m =? f); [ | reflexivity].
      destruct (calcValue (variant_current fieldDef m v) m); reflexivity.
Qed.

(** What the accessor of the registry reads for a variant-level field. *)
Definition read_field (f : string) (v : Variant) : option string :=
  match getFieldDef f with
  | Some fieldDef =>
      match accessor fieldDef with
      | Some a => a v
      | None => None
      end
  | None => None
  end.

Lemma variant_current_read (fieldDef : FieldDef) (m : Mod) (v : Variant) :
  getFieldDef (mod_field m) = Some fieldDef -> level fieldDef = variantLevel ->
  variant_current fieldDef m v = read_field (mod_field m) v.
Proof.
  intros Hdef Hlevel. unfold read_field, variant_current. rewrite Hdef.
  revert Hdef Hlevel.
  unfold getFieldDef, getFieldDefIn, EDITABLE_FIELDS. cbn [find fd_value].
  repeat match goal with
         | |- context [String.eqb ?s (mod_field m)] =>
             destruct (String.eqb_spec s (mod_field m)) as [? | ?]
         end;
    intros H; inversion H; subst; cbn [level accessor]; intros;
    try discriminate; reflexivity.
Qed.

Lemma last_computed_snoc (current : option string) (f : string)
      (actions : list Mod) (m : Mod) :
  last_computed current f (actions ++ [m])
  = if mod_field m =? f
    then match calcValue current m with
         | Some x => Some x
         | None => last_computed current f actions
         end
    else last_computed current f actions.
Proof. unfold last_computed. now rewrite fold_left_app. Qed.

Lemma assignments_snoc (product : Product) (actions : list Mod) (m : Mod) :
  assignments product (actions ++ [m])
  = assignments product actions ++ assignments product [m].
Proof. unfold assignments. now rewrite flat_map_app. Qed.

Lemma last_value_of_actions (product : Product) (actions : list Mod)
      (v : Variant) (f : string) :
  NoDup (map variant_id (variants product)) -> In v (variants product) ->
  In f text_targets ->
  last_value (assignments product actions) (Some (variant_id v)) f
  = last_computed (read_field f v) f actions.
Proof.
  intros Hnd Hin Hf. induction actions as [| m actions IH] using rev_ind;
    [reflexivity | ].
  rewrite assignments_snoc, last_value_app, last_computed_snoc, IH.
  unfold assignments. cbn [flat_map]. rewrite app_nil_r.
  destruct (getFieldDef (mod_field m)) as [fieldDef |] eqn:Hdef.
  - destruct (level fieldDef) eqn:Hlevel.
    + change (last_value [] (Some (variant_id v)) f) with (@None string).
      destruct (String.eqb_spec (mod_field m) f) as [e | ne]; [ | reflexivity].
      exfalso. subst f. revert Hdef Hlevel Hf.
      unfold getFieldDef, getFieldDefIn, EDITABLE_FIELDS, text_targets.
      cbn [find fd_value In].
      intros Hdef Hlevel [e | [e | [e | [e | []]]]]; rewrite <- e in Hdef;
        cbn in Hdef; inversion Hdef; subst; discriminate.
    + rewrite (last_value_of_variants fieldDef m _ v f Hnd Hin).
      destruct (String.eqb_spec (mod_field m) f) as [e | ne]; [ | reflexivity].
      rewrite (variant_current_read fieldDef m v Hdef Hlevel), e.
      destruct (calcValue (read_field f v) m); reflexivity.
  - change (last_value [] (Some (variant_id v)) f) with (@None string).
    destruct (mod_field m =? f); [ | reflexivity].
    unfold calcValue. now rewrite Hdef.
Qed.

Lemma assignments_ids (product : Product) (actions : list Mod) (c : Change) :
  In c (assignments product actions) ->
  exists v, In v (variants product) /\ variantId c = Some (variant_id v).
Proof.
  unfold assignments. intros H. apply in_flat_map in H as [m [_ Hc]].
  destruct (getFieldDef (mod_field m)) as [fieldDef |]; [ | contradiction].
  destruct (level fieldDef); [contradiction | ].
  now apply variant_assignments_ids in Hc.
Qed.

Lemma unique_variant (vs : list Variant) (v v' : Variant) :
  NoDup (map variant_id vs) -> In v vs -> In v' vs ->
  variant_id v = variant_id v' -> v = v'.
Proof.
  induction vs as [| v0 vs IH]; intros Hnd H H' e; [contradiction | ].
  inversion Hnd as [| ? ? Hfresh Hrest]; subst.
  destruct H as [-> | H], H' as [-> | H'].
  - reflexivity.
  - exfalso. apply Hfresh. rewrite e. now apply in_map.
  - exfalso. apply Hfresh. rewrite <- e. now apply in_map.
  - now apply IH.
Qed.

Lemma weight_untouched (l : list Change) (m : list VariantInput) :
  (forall c, In c l -> In (field c) text_targets) ->
  (forall u, In u m -> vi_weight u = None) ->
  forall u, In u (fold_left (fun acc c => Executor.put_variant c acc) l m) ->
            vi_weight u = None.
Proof.
  revert m. induction l as [| c l IH]; intros m Hl Hm; [exact Hm | ].
  cbn [fold_left]. apply IH.
  - intros c' Hc'. apply Hl. now right.
  - assert (Hc : In (field c) text_targets) by (apply Hl; now left).
    assert (Hset : forall u, vi_weight u = None ->
                     vi_weight (Executor.set_variant_field u (field c) (newValue c))
                     = None).
    { intros u Hu. destruct Hc as [<- | [<- | [<- | [<- | []]]]]; exact Hu. }
    clear IH Hl. induction m as [| u0 m IHm]; cbn [Executor.put_variant].
    + intros u [<- | []]. now apply Hset.
    + destruct (Executor.same_id (vi_id u0) (variantId c)).
      * intros u [<- | Hu].
        -- apply Hset, Hm. now left.
        -- apply Hm. now right.
      * intros u [<- | Hu].
        -- apply Hm. now left.
        -- apply IHm; [ | exact Hu]. intros u' Hu'. apply Hm. now right.
Qed.

Lemma assignments_fields (product : Product) (actions : list Mod) (c : Change) :
  In c (assignments product actions) -> In (field c) text_targets.
Proof.
  unfold assignments. intros H. apply in_flat_map in H as [m [_ Hc]].
  destruct (getFieldDef (mod_field m)) as [fieldDef |] eqn:Hdef; [ | contradiction].
  destruct (level fieldDef) eqn:Hlevel; [contradiction | ].
  unfold variant_assignments in Hc. apply in_flat_map in Hc as [v [_ Hc]].
  destruct (calcValue (variant_current fieldDef m v) m); [ | contradiction].
  destruct Hc as [<- | []]. cbn [as_change field].
  now apply (variant_level_field _ fieldDef).
Qed.

(** X19. When the variants of the product have distinct
    ids, [applyModifications] collects at most one update per variant,
    always for a variant of the product.  In it each of [price],
    [compareAtPrice], [sku] and [barcode] is what [calcValue] makes of
    the value the product had when the handler started, under the last
    action on that field that gives a value, and is absent when there
    is none: an action never works on the result of an earlier one. *)
Theorem automation_values_come_from_the_payload
        (product : Product) (actions : list Mod) :
  NoDup (map variant_id (variants product)) ->
  NoDup (map vi_id (pd_updates (pending product actions)))
  /\ forall u, In u (pd_updates (pending product actions)) ->
       exists v, In v (variants product)
         /\ vi_id u = Some (variant_id v)
         /\ vi_price u = last_computed (price v) "price" actions
         /\ vi_compareAtPrice u
            = last_computed (compareAtPrice v) "compareAtPrice" actions
         /\ vi_sku u = last_computed (Some (or_default (sku v) "")) "sku" actions
         /\ vi_barcode u
            = last_computed (Some (or_default (barcode v) "")) "barcode" actions
         /\ vi_weight u = None.
Proof.
  intros Hnd. rewrite updates_are_a_variantMap.
  destruct (variantMap_merged (assignments product actions)) as [Hu [Hids Hval]].
  split; [exact Hu | ]. intros u Hin.
  assert (Hid : In (vi_id u) (map variantId (assignments product actions))).
  { apply Hids. now apply in_map. }
  apply in_map_iff in Hid as [c [Hc Hin']].
  destruct (assignments_ids product actions c Hin') as [v [Hv Hcv]].
  exists v. split; [exact Hv | ].
  assert (Hidu : vi_id u = Some (variant_id v)) by congruence.
  split; [exact Hidu | ].
  assert (Hfield : forall f, In f text_targets ->
                     written u f = last_computed (read_field f v) f actions).
  { intros f Hf. rewrite (Hval u f Hin Hf), Hidu.
    now apply last_value_of_actions. }
  repeat split.
  - apply (Hfield "price"). simpl. tauto.
  - apply (Hfield "compareAtPrice"). simpl. tauto.
  - apply (Hfield "sku"). simpl. tauto.
  - apply (Hfield "barcode"). simpl. tauto.
  - apply (weight_untouched (assignments product actions) []).
    + intros c' Hc'. now apply (assignments_fields product actions).
    + intros u' [].
    + exact Hin.
Qed.

Definition add_two : Mod :=
  {| mod_field := "price"; mod_type := "increase_fixed"; mod_value := "2";
     mod_value2 := None; mod_rounding := None |}.

Definition add_ten_percent : Mod :=
  {| mod_field := "price"; mod_type := "increase_percent"; mod_value := "10";
     mod_value2 := None; mod_rounding := None |}.

Lemma automation_values_come_from_the_payload_witness :
  NoDup (map variant_id (variants PipelineProperties.mug))
  /\ forall u, In u (pd_updates (pending PipelineProperties.mug
                                         [add_two; add_ten_percent])) ->
       exists v, In v (variants PipelineProperties.mug)
         /\ vi_id u = Some (variant_id v)
         /\ vi_price u = last_computed (price v) "price" [add_two; add_ten_percent]
         /\ vi_compareAtPrice u
            = last_computed (compareAtPrice v) "compareAtPrice"
                            [add_two; add_ten_percent]
         /\ vi_sku u = last_computed (Some (or_default (sku v) "")) "sku"
                                     [add_two; add_ten_percent]
         /\ vi_barcode u
            = last_computed (Some (or_default (barcode v) "")) "barcode"
                            [add_two; add_ten_percent]
         /\ vi_weight u = None.
Proof.
  assert (H : NoDup (map variant_id (variants PipelineProperties.mug))).
  { repeat constructor. simpl. tauto. }
  split; [exact H | ].
  exact (proj2 (automation_values_come_from_the_payload
                  PipelineProperties.mug [add_two; add_ten_percent] H)).
Defined.

(** *** Unchanged values *)

Lemma calcValue_gives (current : option string) (m : Mod) :
  In (mod_field m) ["sku"; "barcode"]
  \/ (In (mod_field m) ["price"; "compareAtPrice"]
      /\ isNaN (parseFloat (mod_value m)) = false) ->
  exists x, calcValue current m = Some x.
Proof.
  unfold calcValue.
  intros [[e | [e | []]] | [[e | [e | []]] Hnum]]; rewrite <- e;
    cbn [getFieldDef getFieldDefIn EDITABLE_FIELDS find fd_value String.eqb
         Ascii.eqb Bool.eqb category]; cbv zeta.
  1, 2: repeat match goal with
               | |- context [if ?b then _ else _] => destruct b
               end; eexists; reflexivity.
  all: rewrite Hnum; eexists; reflexivity.
Qed.

(** X20. When the actions hold one on [sku] or [barcode], or one on
    [price] or [compareAtPrice] whose value is a number, the variant
    updates collected list every variant of the product, whatever the
    current values are: unlike the wizard, the handler does not
    compare the new value with the current one.  The
    [productVariantsBulkUpdate] that carries them is sent exactly when
    there is no product update to send before it or that product
    update does not throw. *)
Theorem automation_updates_every_variant
        (catalog : Request -> Response)
        (product : Product) (actions : list Mod) (m : Mod) :
  In m actions ->
  In (mod_field m) ["sku"; "barcode"]
  \/ (In (mod_field m) ["price"; "compareAtPrice"]
      /\ isNaN (parseFloat (mod_value m)) = false) ->
  variants product <> [] ->
  let p := pending product actions in
  (forall v, In v (variants product) ->
             In (Some (variant_id v)) (map vi_id (pd_updates p)))
  /\ (In (VariantsBulkUpdate (product_id product) (pd_updates p))
          (fst (applyModifications catalog product actions))
      <-> has_keys (pd_input p) = false
          \/ exists userErrors,
               catalog (ProductUpdate (product_id product) (pd_input p))
               = Replied userErrors).
Proof.
  intros Hm Hfield Hvs p.
  assert (Hall : forall v, In v (variants product) ->
            In (Some (variant_id v)) (map vi_id (pd_updates p))).
  { intros v Hv. subst p. rewrite updates_are_a_variantMap.
    destruct (variantMap_merged (assignments product actions)) as [_ [Hids _]].
    apply Hids. unfold assignments. apply in_map_iff.
    destruct (calcValue_gives
                (read_field (mod_field m) v) m Hfield) as [x Hx].
    exists (as_change (variant_id v) (mod_field m) x). split; [reflexivity | ].
    apply in_flat_map. exists m. split; [exact Hm | ].
    assert (Hdef : exists fieldDef,
               getFieldDef (mod_field m) = Some fieldDef
               /\ level fieldDef = variantLevel).
    { destruct Hfield as [[e | [e | []]] | [[e | [e | []]] _]]; rewrite <- e;
        eexists; split; reflexivity. }
    destruct Hdef as [fieldDef [Hdef Hlevel]]. rewrite Hdef, Hlevel.
    unfold variant_assignments. apply in_flat_map. exists v. split; [exact Hv | ].
    rewrite (variant_current_read fieldDef m v Hdef Hlevel), Hx. now left. }
  split; [exact Hall | ].
  unfold applyModifications, requests. fold p.
  destruct (variants product) as [| v vs] eqn:Hvars; [congruence | ].
  specialize (Hall v (or_introl eq_refl)).
  destruct (pd_updates p) as [| u us] eqn:Hus; [contradiction | ].
  destruct (has_keys (pd_input p)); cbn [app send].
  - destruct (catalog (ProductUpdate (product_id product) (pd_input p)))
      as [userErrors | msg] eqn:Hq.
    + destruct (catalog (VariantsBulkUpdate (product_id product) (u :: us)));
        cbn [fst In]; split; eauto.
    + cbn [fst In]. split.
      * intros [H | []]. discriminate.
      * intros [H | [userErrors H]]; discriminate.
  - destruct (catalog (VariantsBulkUpdate (product_id product) (u :: us)));
      cbn [fst In]; split; auto.
Qed.

Definition price_to_ten : Mod :=
  {| mod_field := "price"; mod_type := "exact"; mod_value := "10";
     mod_value2 := None; mod_rounding := None |}.

Lemma automation_updates_every_variant_witness :
  (forall v, In v (variants PipelineProperties.mug) ->
     In (Some (variant_id v))
        (map vi_id (pd_updates (pending PipelineProperties.mug [price_to_ten]))))
  /\ Wizard.changesToSubmit [PipelineProperties.mug] [price_to_ten] = [].
Proof.
  split; [ | vm_compute; reflexivity].
  apply (automation_updates_every_variant (fun _ => Replied [])
           PipelineProperties.mug [price_to_ten] price_to_ten).
  - now left.
  - right. split; [simpl; tauto | vm_compute; reflexivity].
  - discriminate.
Defined.

(** *** The tags *)

Lemma snapshot_tags_tidy (payload : Payload) :
  Forall tidy (parsed (tags (snapshot payload))).
Proof.
  apply Forall_forall. intros t Ht. cbn [snapshot tags parsed] in Ht.
  now apply (read_tags_tidy (or_default (pl_tags payload) "")).
Qed.

Definition only_tags (l : list string) : ProductInput :=
  {| in_title := None; in_vendor := None; in_productType := None;
     in_status := None; in_tags := Some l; in_templateSuffix := None |}.

(** X21. An automation that removes tags, run on a payload
    all of whose tags are among those to remove, sends one
    [productUpdate] whose [tags] is the list of the empty text alone:
    the empty text is split at the commas without the empty items
    being dropped. *)
Theorem removing_every_tag_sends_an_empty_tag (payload : Payload) (m : Mod) :
  mod_field m = "tags" -> mod_type m = "remove" ->
  (forall t, In t (parsed (tags (snapshot payload))) ->
             In t (split_tags (mod_value m))) ->
  requests (snapshot payload) [m]
  = [ProductUpdate (product_id (snapshot payload)) (only_tags [""])].
Proof.
  intros Hf Hty Hall.
  assert (Hcalc : calcValue (Some (current_value (snapshot payload) "tags")) m
                  = Some "").
  { unfold calcValue. rewrite Hf, Hty.
    cbn [getFieldDef getFieldDefIn EDITABLE_FIELDS find fd_value String.eqb
         Ascii.eqb Bool.eqb category]. cbv zeta.
    cbn [or_default]. unfold current_value. cbn [String.eqb Ascii.eqb Bool.eqb].
    assert (Htruthy : forall s, (if truthy s then s else "") = s).
    { intros [| c s]; reflexivity. }
    f_equal.
    match goal with
    | |- join ", " (filter ?p (split_tags ?s)) = _ =>
        assert (Hcur : split_tags s = parsed (tags (snapshot payload)))
    end.
    { rewrite Htruthy. apply (read_tags_join _ (snapshot_tags_tidy payload)). }
    rewrite Hcur.
    assert (Hnone : forall l, (forall t, In t l -> In t (split_tags (mod_value m))) ->
              filter (fun t => negb (mem t (split_tags (mod_value m)))) l = []).
    { induction l as [| t l IH]; intros H; [reflexivity | ].
      cbn [filter]. rewrite (proj2 (mem_In t _) (H t (or_introl eq_refl))).
      cbn [negb]. apply IH. intros t' Ht'. apply H. now right. }
    now rewrite (Hnone _ Hall). }
  unfold requests, pending. cbn [fold_left]. unfold action_step. rewrite Hf.
  cbn [getFieldDef getFieldDefIn EDITABLE_FIELDS find fd_value String.eqb
       Ascii.eqb Bool.eqb level].
  rewrite Hcalc. reflexivity.
Qed.

Definition on_sale : Payload :=
  {| pl_id := of_Z 7; pl_title := Some "Mug"; pl_vendor := Some "Acme";
     pl_product_type := Some "Kitchen"; pl_status := Some "active";
     pl_tags := Some "sale, new"; pl_variants := Some [] |}.

Definition drop_sale_tags : Mod :=
  {| mod_field := "tags"; mod_type := "remove"; mod_value := "new,sale,old";
     mod_value2 := None; mod_rounding := None |}.

Lemma removing_every_tag_sends_an_empty_tag_witness :
  requests (snapshot on_sale) [drop_sale_tags]
  = [ProductUpdate (product_id (snapshot on_sale)) (only_tags [""])].
Proof.
  apply removing_every_tag_sends_an_empty_tag.
  - reflexivity.
  - reflexivity.
  - intros t Ht. vm_compute in Ht. vm_compute.
    destruct Ht as [<- | [<- | []]]; tauto.
Defined.

(** *** The handler *)

Section Handler.

Variable catalog : Request -> Response.

(** The row of a rule after [runCount] has been raised. *)
Definition raised (r : AutomationRule) : AutomationRule :=
  {| ar_id := ar_id r; ar_name := ar_name r; ar_enabled := ar_enabled r;
     ar_conditions := ar_conditions r; ar_actions := ar_actions r;
     ar_runCount := ar_runCount r + 1 |}.

(** What the rule sends for the product, and whether the call of
    [applyModifications] returned. *)
Definition rule_outcome (product : Product) (r : AutomationRule)
  : list Request * bool :=
  attempt catalog product r.

Definition holds (product : Product) (r : AutomationRule) : bool :=
  match matches product r with Holds => true | _ => false end.

Definition throws (product : Product) (r : AutomationRule) : bool :=
  match matches product r with Throws => true | _ => false end.

(** The rules the loop reaches: those before the first whose
    conditions throw. *)
Fixpoint reached (product : Product) (rules : list AutomationRule)
  : list AutomationRule :=
  match rules with
  | [] => []
  | r :: rest => if throws product r then [] else r :: reached product rest
  end.

Definition completed (product : Product) (r : AutomationRule) : bool :=
  (holds product r && snd (rule_outcome product r))%bool.

(** One turn of the loop for a rule whose conditions do not throw. *)
Definition turn (product : Product) (w : AutoWorld) (r : AutomationRule)
  : AutoWorld :=
  if holds product r then apply_rule catalog product w r else w.

Lemma run_rules_reached (product : Product) (rules : list AutomationRule)
      (w : AutoWorld) :
  run_rules catalog product w rules
  = fold_left (turn product) (reached product rules) w.
Proof.
  revert w. induction rules as [| r rest IH]; intros w; [reflexivity | ].
  cbn [run_rules reached]. unfold throws.
  destruct (matches product r) eqn:E; cbn [fold_left];
    [ | | reflexivity]; rewrite IH; unfold turn at 3, holds; now rewrite E.
Qed.

Lemma turn_fields (product : Product) (w : AutoWorld) (r : AutomationRule) :
  aw_shopPlan (turn product w r) = aw_shopPlan w
  /\ aw_mutations (turn product w r)
     = aw_mutations w
       ++ (if holds product r then fst (rule_outcome product r) else [])
  /\ aw_audit (turn product w r)
     = aw_audit w
       ++ (if completed product r then [("Auto: " ++ ar_name r)%string] else [])
  /\ aw_rules (turn product w r)
     = if completed product r
       then set_runCount (aw_rules w) (ar_id r) (ar_runCount r + 1)
       else aw_rules w.
Proof.
  unfold turn, completed, rule_outcome, apply_rule.
  destruct (holds product r); cbn [andb].
  - destruct (attempt catalog product r) as [sent ok].
    cbn [fst snd]. destruct ok; cbn; rewrite ?app_nil_r; tauto.
  - rewrite !app_nil_r. tauto.
Qed.

Lemma rules_loop (product : Product) (l : list AutomationRule) (w : AutoWorld) :
  let w' := fold_left (turn product) l w in
  aw_shopPlan w' = aw_shopPlan w
  /\ aw_mutations w'
     = aw_mutations w
       ++ flat_map (fun r => if holds product r
                             then fst (rule_outcome product r) else [])
                   l
  /\ aw_audit w'
     = aw_audit w
       ++ flat_map (fun r => if completed product r
                             then [("Auto: " ++ ar_name r)%string] else [])
                   l.
Proof.
  revert w. induction l as [| r l IH]; intros w; cbv zeta.
  - cbn. rewrite !app_nil_r. tauto.
  - cbn [fold_left flat_map]. destruct (IH (turn product w r)) as [H1 [H2 H3]].
    destruct (turn_fields product w r) as [R1 [R2 [R3 _]]].
    rewrite H1, H2, H3, R1, R2, R3, <- !app_assoc. tauto.
Qed.

Definition hit (product : Product) (l : list AutomationRule) (r : AutomationRule)
  : bool :=
  existsb (fun x => ((ar_id x =? ar_id r) && completed product x)%bool) l.

Lemma rules_of_loop (product : Product) (l : list AutomationRule) (w : AutoWorld) :
  NoDup (map ar_id l) ->
  (forall x r, In x l -> In r (aw_rules w) -> ar_id r = ar_id x -> r = x) ->
  aw_rules (fold_left (turn product) l w)
  = map (fun r => if hit product l r then raised r else r) (aw_rules w).
Proof.
  revert w. induction l as [| x l IH]; intros w Hnd Hsame.
  - cbn. now rewrite map_id.
  - inversion Hnd as [| ? ? Hfresh Hrest]; subst. cbn [fold_left].
    destruct (turn_fields product w x) as [_ [_ [_ R]]].
    assert (Hmiss : forall r, ar_id r = ar_id x -> hit product l r = false).
    { intros r e. unfold hit. apply not_true_is_false. intros H.
      apply existsb_exists in H as [y [Hy Hb]].
      apply andb_prop in Hb as [Hb _]. apply String.eqb_eq in Hb.
      apply Hfresh. rewrite <- e, <- Hb. now apply in_map. }
    rewrite IH; [ | exact Hrest | ].
    + rewrite R. destruct (completed product x) eqn:Hdone.
      * unfold set_runCount. rewrite map_map. apply map_ext_in. intros r Hr.
        unfold hit at 2. cbn [existsb]. fold (hit product l r).
        rewrite Hdone, andb_true_r.
        destruct (String.eqb_spec (ar_id r) (ar_id x)) as [e | ne].
        -- assert (r = x) by (apply Hsame; [now left | exact Hr | exact e]).
           subst r. rewrite String.eqb_refl. cbn [orb].
           rewrite Hmiss by reflexivity. reflexivity.
        -- assert (Hne : (ar_id x =? ar_id r) = false).
           { apply String.eqb_neq. congruence. }
           rewrite Hne. reflexivity.
      * apply map_ext. intros r. unfold hit at 2. cbn [existsb].
        fold (hit product l r). rewrite Hdone, andb_false_r. reflexivity.
    + intros y r Hy Hr e. rewrite R in Hr.
      destruct (completed product x).
      * unfold set_runCount in Hr. apply in_map_iff in Hr as [r0 [Hr0 Hin0]].
        destruct (String.eqb_spec (ar_id r0) (ar_id x)) as [e0 | ne0].
        -- exfalso. apply Hfresh. subst r. cbn [ar_id] in e.
           rewrite <- e0, e. now apply in_map.
        -- subst r0. apply Hsame; [now right | exact Hin0 | exact e].
      * apply Hsame; [now right | exact Hr | exact e].
Qed.

Lemma reached_In (product : Product) (l : list AutomationRule)
      (r : AutomationRule) :
  In r (reached product l) -> In r l.
Proof.
  induction l as [| x l IH]; cbn [reached]; [tauto | ].
  destruct (throws product x); [contradiction | ].
  intros [<- | H]; [now left | right; now apply IH].
Qed.

Lemma reached_ids (product : Product) (l : list AutomationRule) :
  NoDup (map ar_id l) -> NoDup (map ar_id (reached product l)).
Proof.
  induction l as [| x l IH]; intros Hnd; [constructor | ].
  inversion Hnd as [| ? ? Hfresh Hrest]; subst. cbn [reached].
  destruct (throws product x); [constructor | ].
  cbn [map]. constructor; [ | now apply IH].
  intros H. apply Hfresh. apply in_map_iff in H as [y [e Hy]].
  apply reached_In in Hy. rewrite <- e. now apply in_map.
Qed.

Lemma enabled_ids (rules : list AutomationRule) :
  NoDup (map ar_id rules) -> NoDup (map ar_id (filter ar_enabled rules)).
Proof.
  induction rules as [| r rules IH]; intros Hnd; [constructor | ].
  inversion Hnd as [| ? ? Hfresh Hrest]; subst. cbn [filter].
  destruct (ar_enabled r); [ | now apply IH].
  cbn [map]. constructor; [ | now apply IH].
  intros H. apply Hfresh. apply in_map_iff in H as [y [e Hy]].
  apply filter_In in Hy as [Hy _]. rewrite <- e. now apply in_map.
Qed.

Lemma unique_rule (rules : list AutomationRule) (x r : AutomationRule) :
  NoDup (map ar_id rules) -> In x rules -> In r rules ->
  ar_id r = ar_id x -> r = x.
Proof.
  induction rules as [| r0 rules IH]; intros Hnd Hx Hr e; [contradiction | ].
  inversion Hnd as [| ? ? Hfresh Hrest]; subst.
  destruct Hx as [-> | Hx], Hr as [-> | Hr].
  - reflexivity.
  - exfalso. apply Hfresh. rewrite <- e. now apply in_map.
  - exfalso. apply Hfresh. rewrite e. now apply in_map.
  - now apply IH.
Qed.

(** Whether the rule [r] is among the rules [l], by its id. *)
Definition listed (l : list AutomationRule) (r : AutomationRule) : bool :=
  existsb (fun x => ar_id x =? ar_id r) l.

Lemma hit_listed (product : Product) (rules l : list AutomationRule)
      (r : AutomationRule) :
  NoDup (map ar_id rules) -> (forall x, In x l -> In x rules) -> In r rules ->
  hit product l r = (listed l r && completed product r)%bool.
Proof.
  intros Hnd Hsub Hr. unfold hit, listed. apply eq_true_iff_eq.
  rewrite andb_true_iff, !existsb_exists. split.
  - intros [x [Hx Hb]]. apply andb_prop in Hb as [Hid Hdone].
    assert (r = x).
    { apply (unique_rule rules); auto. now apply String.eqb_eq in Hid. }
    subst x. split; [now exists r | exact Hdone].
  - intros [[x [Hx Hid]] Hdone]. exists x. split; [exact Hx | ].
    assert (r = x).
    { apply (unique_rule rules); auto. now apply String.eqb_eq in Hid. }
    subst x. now rewrite Hid, Hdone.
Qed.

Lemma action_loop (w : AutoWorld) (payload : Payload) :
  action catalog w payload
  = if on_plus (aw_shopPlan w)
    then fold_left (turn (snapshot payload))
                   (reached (snapshot payload) (filter ar_enabled (aw_rules w))) w
    else w.
Proof.
  unfold action. destruct (on_plus (aw_shopPlan w)); cbn [negb]; [ | reflexivity].
  cbv zeta. rewrite <- run_rules_reached.
  destruct (filter ar_enabled (aw_rules w)); reflexivity.
Qed.

(** The conditions of a rule that are rules. *)
Definition conditions_of (r : AutomationRule) : list Rule :=
  match ar_conditions r with
  | RuleArray l => flat_map (fun o => match o with Some c => [c] | None => [] end) l
  | _ => []
  end.

(** X22. With distinct rule ids and conditions on fields that are
    no inherited names, the handler on the Plus plan goes through the
    enabled rules up to the first whose conditions throw (they were
    stored as something that is no array, or a [null] is met among
    them), and stops there.  Each rule it reaches is treated on its
    own: when its conditions all hold for the product of the payload
    it sends its mutations, in the order of the rules, whether or not
    an earlier rule threw in its actions or its mutations; its
    [runCount] is raised by one, and an audit row is asked for under
    its name, exactly when its conditions hold, the loop over its
    actions does not throw and all its mutations returned.  On another
    plan nothing is sent or written. *)
Theorem handler_treats_each_rule_alone (w : AutoWorld) (payload : Payload) :
  NoDup (map ar_id (aw_rules w)) ->
  (forall r c, In r (aw_rules w) -> In c (conditions_of r) ->
               mem (rule_field c) inherited_names = false) ->
  let product := snapshot payload in
  let live :=
    if on_plus (aw_shopPlan w)
    then reached product (filter ar_enabled (aw_rules w)) else [] in
  let succeeds r :=
    (holds product r && snd (rule_outcome product r))%bool in
  let w' := action catalog w payload in
  aw_shopPlan w' = aw_shopPlan w
  /\ aw_mutations w'
     = aw_mutations w
       ++ flat_map (fun r => if holds product r
                             then fst (rule_outcome product r) else [])
                   live
  /\ aw_rules w'
     = map (fun r => if (listed live r && succeeds r)%bool then raised r else r)
           (aw_rules w)
  /\ aw_audit w'
     = aw_audit w
       ++ flat_map (fun r => if succeeds r
                             then [("Auto: " ++ ar_name r)%string] else [])
                   live.
Proof.
  intros Hnd _ product live succeeds w'. subst w' succeeds live product.
  set (product := snapshot payload). rewrite action_loop. fold product.
  destruct (on_plus (aw_shopPlan w)) eqn:Hplus.
  - set (live := reached product (filter ar_enabled (aw_rules w))).
    assert (Hsub : forall x, In x live -> In x (aw_rules w)).
    { intros x Hx. apply reached_In, filter_In in Hx. tauto. }
    destruct (rules_loop product live w) as [H1 [H2 H3]].
    cbv zeta in H1, H2, H3. rewrite H1, H2, H3.
    split; [reflexivity | ]. split; [reflexivity | ]. split; [ | reflexivity].
    rewrite rules_of_loop.
    + apply map_ext_in. intros r Hr.
      now rewrite (hit_listed product (aw_rules w) live r Hnd Hsub Hr).
    + now apply reached_ids, enabled_ids.
    + intros x r Hx Hr e. apply (unique_rule (aw_rules w)); auto.
  - cbn [flat_map listed existsb andb]. rewrite !app_nil_r, map_id. tauto.
Qed.

End Handler.

Definition paid : ShopPlan := {| plan := Some "plus"; monthlyEdits := 0 |}.

Definition retitle : AutomationRule :=
  {| ar_id := "r1"; ar_name := "Retitle"; ar_enabled := true;
     ar_conditions := RuleArray [];
     ar_actions := ActionArray
                     [ Some {| mod_field := "title"; mod_type := "append";
                               mod_value := "!"; mod_value2 := None;
                               mod_rounding := None |} ];
     ar_runCount := 5 |}.

Definition reprice : AutomationRule :=
  {| ar_id := "r2"; ar_name := "Reprice"; ar_enabled := true;
     ar_conditions := Unparsed;
     ar_actions := ActionArray [Some price_to_ten];
     ar_runCount := 0 |}.

(** A rule whose conditions were stored as an object. *)
Definition misstored : AutomationRule :=
  {| ar_id := "r3"; ar_name := "Misstored"; ar_enabled := true;
     ar_conditions := NotArray;
     ar_actions := ActionArray [Some price_to_ten];
     ar_runCount := 0 |}.

Definition reprice_again : AutomationRule :=
  {| ar_id := "r4"; ar_name := "Reprice again"; ar_enabled := true;
     ar_conditions := RuleArray [];
     ar_actions := ActionArray [Some price_to_ten];
     ar_runCount := 0 |}.

Definition four_rules : AutoWorld :=
  {| aw_shopPlan := Some paid;
     aw_rules := [retitle; reprice; misstored; reprice_again];
     aw_mutations := []; aw_audit := [] |}.

(** A catalog that throws on [productUpdate] and accepts the rest. *)
Definition no_product_updates (q : Request) : Response :=
  match q with
  | ProductUpdate _ _ => Threw None
  | VariantsBulkUpdate _ _ => Replied []
  end.

Definition one_variant : Payload :=
  {| pl_id := of_Z 7; pl_title := Some "Mug"; pl_vendor := Some "Acme";
     pl_product_type := Some "Kitchen"; pl_status := Some "active";
     pl_tags := Some "sale";
     pl_variants := Some [ {| pv_id := of_Z 71; pv_title := Some "Default Title";
                              pv_price := Some "10.00";
                              pv_compare_at_price := None; pv_sku := None;
                              pv_barcode := None;
                              pv_inventory_quantity := Some (of_Z 3) |} ] |}.

Lemma handler_treats_each_rule_alone_witness :
  NoDup (map ar_id (aw_rules four_rules))
  /\ map ar_runCount
         (aw_rules (action no_product_updates four_rules one_variant))
     = [5; 1; 0; 0]
  /\ List.length (aw_mutations (action no_product_updates four_rules one_variant))
     = 2%nat.
Proof.
  assert (H : NoDup (map ar_id (aw_rules four_rules))).
  { repeat constructor; simpl; intuition discriminate. }
  assert (Hfields : forall r c, In r (aw_rules four_rules) ->
                      In c (conditions_of r) ->
                      mem (rule_field c) inherited_names = false).
  { intros r c [<- | [<- | [<- | [<- | []]]]] []. }
  split; [exact H | ].
  destruct (handler_treats_each_rule_alone no_product_updates four_rules
                                           one_variant H Hfields)
    as [_ [Hm [Hr _]]].
  rewrite Hm, Hr. split; vm_compute; reflexivity.
Defined.

End AutomationProperties.
